(** * makegpc: the PNG to GPC encoder (ICON/PNG/makegpc.py)

    A shallow embedding of the encoding pipeline of [makegpc.py] and the
    properties of its stages: the interlace permutation builder, the
    vertical and horizontal XOR transforms, the flag A / flag B sparse
    encoder, the orchestrating [Compress] and the header assembly.

    Buffers ([bytearray], [memoryview]) are lists of integers, Python
    dictionaries are [gmap]s, and every Python operation that can raise
    (indexing out of range, a slice assignment of the wrong length, a
    missing key, arithmetic on [None], an unbound local) returns in the
    [result] monad.

    The script only writes files. The readers of the last sections
    ([decode], [decompress], [read_pixel]) are not part of it: they follow
    the format the encoder produces and serve to state that nothing is
    lost on the way. *)

From Stdlib Require Import ZArith Lia ZifyNat String Ascii.
From stdpp Require Import base list gmap.

#[local] Open Scope Z_scope.
#[local] Coercion Z.of_nat : nat >-> Z.

(** ** Python values and exceptions *)

Module Py.

Inductive exn :=
  | IndexError | ValueError | KeyError | TypeError | UnboundLocalError
  | SystemExit (code : nat).

(** [OutOfFuel] is not a Python outcome: it marks a [while] loop of the
    model that was given too few iterations. *)
Inductive result (A : Type) : Type :=
  | Ok (a : A)
  | Raise (e : exn)
  | OutOfFuel.
#[global] Arguments Ok {A} a.
#[global] Arguments Raise {A} e.
#[global] Arguments OutOfFuel {A}.

#[global] Instance result_ret : MRet result := fun A a => Ok a.
#[global] Instance result_bind : MBind result := fun A B f m =>
  match m with
  | Ok a => f a
  | Raise e => Raise e
  | OutOfFuel => OutOfFuel
  end.

(** [for a in l: s = f(s, a)] *)
Fixpoint foldM {A S : Type} (f : S → A → result S) (s : S) (l : list A)
    : result S :=
  match l with
  | [] => Ok s
  | a :: l' => s' ← f s a; foldM f s' l'
  end.

(** [range(n)] *)
Definition range (n : nat) : list nat := seq 0 n.

(** Index normalisation of sequences: a negative index counts from the
    end; anything outside [-len, len) raises [IndexError]. *)
Definition norm_index (len : nat) (i : Z) : option nat :=
  if 0 <=? i then (if i <? len then Some (Z.to_nat i) else None)
  else if - len <=? i then Some (Z.to_nat (len + i)) else None.

(** [l[i]] *)
Definition getitem {A : Type} (l : list A) (i : Z) : result A :=
  match norm_index (length l) i with
  | Some n => match l !! n with Some v => Ok v | None => Raise IndexError end
  | None => Raise IndexError
  end.

(** [l[i] = v] *)
Definition setitem {A : Type} (l : list A) (i : Z) (v : A) : result (list A) :=
  match norm_index (length l) i with
  | Some n => Ok (<[n:=v]> l)
  | None => Raise IndexError
  end.

(** Slice bounds are clamped, never raise. *)
Definition clamp (len : nat) (i : Z) : nat :=
  if i <? 0 then Z.to_nat (Z.max 0 (len + i)) else Nat.min (Z.to_nat i) len.

(** [l[a:b]] *)
Definition slice {A : Type} (l : list A) (a b : Z) : list A :=
  let lo := clamp (length l) a in
  let hi := clamp (length l) b in
  take (hi - lo)%nat (drop lo l).

(** [l[a:]] *)
Definition slice_from {A : Type} (l : list A) (a : Z) : list A :=
  drop (clamp (length l) a) l.

(** [view[a:b] = src] on a [memoryview]: the view cannot be resized, a
    source of another length raises [ValueError]. *)
Definition mv_setslice (dst : list Z) (a b : Z) (src : list Z)
    : result (list Z) :=
  let lo := clamp (length dst) a in
  let hi := Nat.max lo (clamp (length dst) b) in
  if decide (length src = (hi - lo)%nat)
  then Ok (take lo dst ++ src ++ drop hi dst)
  else Raise ValueError.

(** [buf[a:b] = src] on a [bytearray]: the slice is replaced. *)
Definition ba_setslice (dst : list Z) (a b : Z) (src : list Z) : list Z :=
  let lo := clamp (length dst) a in
  let hi := Nat.max lo (clamp (length dst) b) in
  take lo dst ++ src ++ drop hi dst.

(** [d[k]] on a dictionary *)
Definition getkey {V : Type} (d : gmap nat V) (k : nat) : result V :=
  match d !! k with Some v => Ok v | None => Raise KeyError end.

(** An entry of a table built over [[None] * size]: arithmetic on [None]
    raises [TypeError]. *)
Definition as_int (v : option nat) : result Z :=
  match v with Some n => Ok (Z.of_nat n) | None => Raise TypeError end.

(** A local that may not have been assigned yet. *)
Definition bound {A : Type} (v : option A) : result A :=
  match v with Some a => Ok a | None => Raise UnboundLocalError end.

(** [bytearray([...])]: every element has to be in [range(256)]. *)
Definition bytearray_of (l : list Z) : result (list Z) :=
  if forallb (fun v => (0 <=? v) && (v <? 256)) l then Ok l
  else Raise ValueError.

(** [buf[i] = v] on a [bytearray], with the range check on [v]. *)
Definition ba_setitem (l : list Z) (i : Z) (v : Z) : result (list Z) :=
  if (0 <=? v) && (v <? 256) then setitem l i v else Raise ValueError.

End Py.
Import Py.

(** ** The encoder *)

(** [hrz_steps = range(0x51)] *)
Definition hrz_steps : list nat := range 0x51.

(** *** MakeInterlaceTable (lines 35-50) *)

(** The inner [while i < size] loop; [st] is [(result, writeofs)]. *)
Fixpoint interlace_class (fuel size step i : nat)
    (st : list (option nat) * Z) : result (list (option nat) * Z) :=
  match fuel with
  | O => OutOfFuel
  | S fuel' =>
      if (i <? size)%nat then
        let '(result, writeofs) := st in
        result ← setitem result writeofs (Some i);
        interlace_class fuel' size step (i + step)%nat (result, writeofs + 1)
      else Ok st
  end.

(** The body of [for step in steps] for a step other than 0: the outer
    [while start < step] loop, [start] running over [0 .. step-1]. *)
Definition interlace_result (size step : nat) : result (list (option nat)) :=
  '(result, _) ← foldM (fun st start => interlace_class (S size) size step start st)
                   (replicate size None, 0) (range step);
  Ok result.

Definition MakeInterlaceTable (size : nat) (steps : list nat)
    : result (gmap nat (list (option nat))) :=
  foldM (fun table step =>
           if decide (step = 0%nat) then Ok table
           else result ← interlace_result size step;
                Ok (<[step := result]> table))
        ∅ steps.

(** *** VerticalIX (lines 52-66) *)

(** Lines 55-59: the rows of [srcview] are copied behind the leading byte
    of their slots; the state is [(workview, writeofs)]. *)
Definition vertical_copy (srcview : list Z) (stride : nat)
    (st : list Z * Z) (row : option nat) : result (list Z * Z) :=
  let '(workview, writeofs) := st in
  row ← as_int row;
  let readofs := row * stride in
  workview ← mv_setslice workview writeofs (writeofs + stride)
                (slice srcview readofs (readofs + stride));
  Ok (workview, writeofs + stride + 1).

(** Lines 64-66: one step of the backward scan. *)
Definition vertical_xor (stride : nat) (st : list Z * Z) (i : nat)
    : result (list Z * Z) :=
  let '(workview, writeofs) := st in
  let writeofs := writeofs - 1 in
  a ← getitem workview writeofs;
  b ← getitem workview (writeofs - stride - 1);
  workview ← setitem workview writeofs (Z.lxor a b);
  Ok (workview, writeofs).

(** Lines 61-66: the backward XOR filter, entered with the [writeofs]
    the copy loop has left. *)
Definition vertical_filter (stride h : nat) (workview : list Z) (writeofs : Z)
    : result (list Z) :=
  if decide (h = 1%nat) then Ok workview else
  let writeofs := writeofs - 1 in
  '(workview, _) ← foldM (vertical_xor stride) (workview, writeofs)
                     (range ((stride + 1) * (h - 1)));
  Ok workview.

(** The function returns nothing; the model returns the buffer it has
    mutated. *)
Definition VerticalIX (srcview workview : list Z) (w h : nat)
    (vrt_list : list (option nat)) : result (list Z) :=
  let stride := Nat.shiftr w 1 in
  '(workview, writeofs) ← foldM (vertical_copy srcview stride) (workview, 1) vrt_list;
  vertical_filter stride h workview writeofs.

(** *** HorizontalIX (lines 68-113) *)

(** Lines 81-84: the body of [for x in range(stride)]; the state is
    [(rowbuf, lastbyte)]. *)
Definition candidate_byte (workview : list Z) (rowstart : Z) (hrz : nat)
    (lookup : list (option nat)) (st : gmap nat (list Z) * Z) (x : nat)
    : result (gmap nat (list Z) * Z) :=
  let '(rowbuf, lastbyte) := st in
  lx ← getitem lookup x;
  lx ← as_int lx;
  nextbyte ← getitem workview (rowstart + lx);
  row ← getkey rowbuf hrz;
  lx' ← getitem lookup x;
  lx' ← as_int lx';
  row ← setitem row (lx' + 1) (Z.lxor lastbyte nextbyte);
  Ok (<[hrz := row]> rowbuf, nextbyte).

(** Lines 77-84: the body of [for hrz in hrz_steps]. *)
Definition candidate_row (workview : list Z) (stride : nat) (rowstart : Z)
    (hrz_lookup : gmap nat (list (option nat)))
    (rowbuf : gmap nat (list Z)) (hrz : nat) : result (gmap nat (list Z)) :=
  if decide (hrz = 0%nat) then Ok rowbuf else
  let lastbyte := 0 in
  lookup ← getkey hrz_lookup hrz;
  '(rowbuf, _) ← foldM (candidate_byte workview rowstart hrz lookup)
                   (rowbuf, lastbyte) (range stride);
  Ok rowbuf.

(** Lines 76-84: all the candidates of the row at [rowstart]. *)
Definition build_candidates (workview : list Z) (stride : nat) (rowstart : Z)
    (hrz_lookup : gmap nat (list (option nat)))
    (rowbuf : gmap nat (list Z)) : result (gmap nat (list Z)) :=
  row0 ← getkey rowbuf 0%nat;
  let rowbuf := <[0%nat := ba_setslice row0 1 (1 + stride)
                             (slice workview rowstart (rowstart + stride))]> rowbuf in
  foldM (candidate_row workview stride rowstart hrz_lookup) rowbuf hrz_steps.

(** Lines 96-105: what one byte [b] of the row does to
    [(nullrun, bits, align)]. *)
Definition estimate_update (st : Z * Z * Z) (b : Z) : Z * Z * Z :=
  let '(nullrun, bits, align) := st in
  let '(nullrun, bits) :=
    if negb (b =? 0) then (0, bits + 8)
    else let nullrun := Z.land (nullrun + 1) 7 in
         (nullrun, if nullrun =? 0 then bits - 8 else bits) in
  let align := Z.land (align + 1) 7 in
  let nullrun := if align =? 0 then 0 else nullrun in
  (nullrun, bits, align).

(** Lines 95-105: the body of [for x in range(stride + 1)]. *)
Definition estimate_byte (row : list Z) (st : Z * Z * Z) (x : nat)
    : result (Z * Z * Z) :=
  b ← getitem row x;
  Ok (estimate_update st b).

(** Lines 92-105: the estimate of one candidate row. *)
Definition estimate_bits (row : list Z) (stride : nat) (rowstart : Z)
    : result Z :=
  '(_, bits, _) ← foldM (estimate_byte row) (0, 0, rowstart)
                    (range (stride + 1));
  Ok bits.

(** Lines 89-108: the body of [for hrz in hrz_steps]; the state is
    [(bestbits, besthrz)], [besthrz] being unbound until a first
    candidate is kept. *)
Definition select_step (rowbuf : gmap nat (list Z)) (stride : nat)
    (rowstart : Z) (st : Z * option nat) (hrz : nat)
    : result (Z * option nat) :=
  let '(bestbits, besthrz) := st in
  row ← getkey rowbuf hrz;
  bits ← estimate_bits row stride rowstart;
  if bits <? bestbits then Ok (bits, Some hrz) else Ok (bestbits, besthrz).

(** Lines 74-113: the body of [for y in range(h)]; the state is
    [(workview, rowbuf, rowstart, besthrz)]. *)
Definition horizontal_row (stride : nat)
    (hrz_lookup : gmap nat (list (option nat)))
    (st : list Z * gmap nat (list Z) * Z * option nat) (y : nat)
    : result (list Z * gmap nat (list Z) * Z * option nat) :=
  let '(workview, rowbuf, rowstart, besthrz) := st in
  rowbuf ← build_candidates workview stride rowstart hrz_lookup rowbuf;
  let bestbits := 0xFFFF in
  '(_, besthrz) ← foldM (select_step rowbuf stride rowstart)
                    (bestbits, besthrz) hrz_steps;
  best ← bound besthrz;
  row ← getkey rowbuf best;
  workview ← mv_setslice workview (rowstart - 1) (rowstart + stride) row;
  Ok (workview, rowbuf, rowstart + stride + 1, besthrz).

(** The function returns nothing; the model returns the two buffers it
    has mutated. *)
Definition HorizontalIX (workview : list Z) (rowbuf : gmap nat (list Z))
    (w h : nat) (hrz_lookup : gmap nat (list (option nat)))
    : result (list Z * gmap nat (list Z)) :=
  let stride := Nat.shiftr w 1 in
  '(workview, rowbuf, _, _) ← foldM (horizontal_row stride hrz_lookup)
                                (workview, rowbuf, 1, None) (range h);
  Ok (workview, rowbuf).

(** *** Encode (lines 115-158) *)

Record enc_state := EncState {
  st_flagA : Z;
  st_flagB : Z;
  st_flagAbitsleft : Z;
  st_flagBbitsleft : Z;
  st_writeofs : Z;
  st_finalview : list Z
}.

(** Lines 143-156, once the byte at [readofs] has been handled. *)
Definition encode_flags (flagA flagB flagAbitsleft flagBbitsleft writeofs : Z)
    (finalview : list Z) : result enc_state :=
  let flagBbitsleft := flagBbitsleft - 1 in
  if flagBbitsleft =? 0 then
    let flagBbitsleft := 8 in
    let flagA := Z.shiftr flagA 1 in
    '(flagA, writeofs, finalview) ←
      (if negb (flagB =? 0) then
         let writeofs := writeofs - 1 in
         finalview ← setitem finalview writeofs flagB;
         Ok (Z.lor flagA 0x80, writeofs, finalview)
       else Ok (flagA, writeofs, finalview));
    let flagAbitsleft := flagAbitsleft - 1 in
    if flagAbitsleft =? 0 then
      let flagAbitsleft := 8 in
      let writeofs := writeofs - 1 in
      finalview ← setitem finalview writeofs flagA;
      Ok (EncState flagA flagB flagAbitsleft flagBbitsleft writeofs finalview)
    else Ok (EncState flagA flagB flagAbitsleft flagBbitsleft writeofs finalview)
  else Ok (EncState flagA flagB flagAbitsleft flagBbitsleft writeofs finalview).

(** Lines 135-156: [while readofs != 0]; every iteration decrements
    [readofs] once, so the loop is a recursion on [readofs]. *)
Fixpoint encode_loop (workview : list Z) (readofs : nat) (st : enc_state)
    : result enc_state :=
  match readofs with
  | O => Ok st
  | S readofs' =>
      let flagB := Z.shiftr (st_flagB st) 1 in
      b ← getitem workview readofs';
      '(flagB, writeofs, finalview) ←
        (if negb (b =? 0) then
           let writeofs := st_writeofs st - 1 in
           finalview ← setitem (st_finalview st) writeofs b;
           Ok (Z.lor flagB 0x80, writeofs, finalview)
         else Ok (flagB, st_writeofs st, st_finalview st));
      st' ← encode_flags (st_flagA st) flagB (st_flagAbitsleft st) (st_flagBbitsleft st)
                         writeofs finalview;
      encode_loop workview readofs' st'
  end.

(** Returns [writeofs]; the model also returns the destination buffer. *)
Definition Encode (workview finalview : list Z) : result (Z * list Z) :=
  let flagA := 0 in
  let flagB := 0 in
  let readofs := length workview in
  let writeofs : Z := length finalview in
  let flagAbitsleft := Z.land (Z.shiftr (readofs + 7) 3) 7 in
  let flagAbitsleft := if flagAbitsleft =? 0 then 8 else flagAbitsleft in
  let flagBbitsleft := Z.land readofs 7 in
  let flagBbitsleft := if flagBbitsleft =? 0 then 8 else flagBbitsleft in
  st ← encode_loop workview readofs
         (EncState flagA flagB flagAbitsleft flagBbitsleft writeofs finalview);
  Ok (st_writeofs st, st_finalview st).

(** *** Compress (lines 160-184) *)

(** Lines 164-167: one zeroed row per horizontal step, its first byte set
    to the step. *)
Definition make_rowbuf (stride : nat) : result (gmap nat (list Z)) :=
  foldM (fun rowbuf (hrz : nat) =>
           row ← ba_setitem (replicate (stride + 1) 0) 0 hrz;
           Ok (<[hrz := row]> rowbuf))
        ∅ hrz_steps.

(** The buffers and locals that live across the trials of [Compress]:
    [bestbuf] and [bestvrt] are assigned together, or not at all. *)
Record trial_state := TrialState {
  t_workview : list Z;
  t_rowbuf : gmap nat (list Z);
  t_finalview : list Z;
  t_bestofs : Z;
  t_best : option (list Z * nat)
}.

(** Lines 176-183: the body of [for vrt in [2, 1, 4]]. *)
Definition compress_trial (srcview : list Z) (w h : nat)
    (hrz_lookup vrt_lookup : gmap nat (list (option nat)))
    (st : trial_state) (vrt : nat) : result trial_state :=
  vrt_list ← getkey vrt_lookup vrt;
  workview ← VerticalIX srcview (t_workview st) w h vrt_list;
  '(workview, rowbuf) ← HorizontalIX workview (t_rowbuf st) w h hrz_lookup;
  '(writeofs, finalview) ← Encode workview (t_finalview st);
  if t_bestofs st <? writeofs then
    Ok (TrialState workview rowbuf finalview writeofs
          (Some (slice_from finalview writeofs, vrt)))
  else Ok (TrialState workview rowbuf finalview (t_bestofs st) (t_best st)).

Definition Compress (srcbuf : list Z) (w h : nat) : result (list Z * nat) :=
  let stride := Nat.shiftr w 1 in
  hrz_lookup ← MakeInterlaceTable stride hrz_steps;
  vrt_lookup ← MakeInterlaceTable h [1; 2; 4]%nat;
  rowbuf ← make_rowbuf stride;
  let workview := replicate ((stride + 1) * h) 0 in
  let srcview := srcbuf in
  let finalview := replicate (length workview * 8 / 7) 0 in
  let bestofs := 0 in
  st ← foldM (compress_trial srcview w h hrz_lookup vrt_lookup)
         (TrialState workview rowbuf finalview bestofs None) [2; 1; 4]%nat;
  bound (t_best st).

(** *** The script body (lines 191-273) *)

(** What the image library hands over: the mode test, the size, the
    palette of [getpalette()] and the pixels of [getdata()], row by row. *)
Record image := Image {
  img_mode_P : bool;
  img_width : nat;
  img_height : nat;
  img_palette : list Z;
  img_data : list Z
}.

(** Lines 196-200 *)
Definition fit_palette (palette : list Z) : list Z :=
  if (length palette <? 48)%nat
  then palette ++ replicate (48 - length palette) 0
  else if (48 <? length palette)%nat then slice palette 0 48
  else palette.

(** Lines 217-218: the body of [for i in range(0, 48, 3)]. *)
Definition palette_entry (palette : list Z) (outbuf : list Z) (k : nat)
    : result (list Z) :=
  let i : Z := (3 * k)%nat in
  r ← getitem palette i;
  b ← getitem palette (i + 2);
  g ← getitem palette (i + 1);
  e ← bytearray_of [Z.lor (Z.land r 0xF0) (Z.shiftr b 4); Z.shiftr g 4];
  Ok (outbuf ++ e).

(** Lines 225-230, as the image library does it: a new image of the
    padded width filled with index 16, the old one pasted at (0,0). *)
Definition pad_width (w : nat) : nat := Z.to_nat (Z.land (w + 7) 0xFFF8).

Definition pad_image (w h : nat) (data : list Z) : list Z :=
  let w' := pad_width w in
  concat (map (fun y => take w (drop (y * w)%nat data)
                          ++ replicate (w' - w)%nat 16) (range h)).

(** Lines 243-245: eight pixels are shifted into the four octets. *)
Definition octet_pixel (bitmap : list Z) (octet : list Z) (l : nat)
    : result (list Z) :=
  foldM (fun octet (i : nat) =>
           o ← getitem octet i;
           p ← getitem bitmap l;
           setitem octet i (Z.lor (Z.shiftl o 1) (Z.land (Z.shiftr p i) 1)))
        octet (range 4).

(** Lines 246-250: the four octets are stored, one per plane. *)
Definition store_octets (planewidth : nat) (st : list Z * list Z * Z) (i : nat)
    : result (list Z * list Z * Z) :=
  let '(planebuf, octet, o) := st in
  v ← getitem octet i;
  planebuf ← ba_setitem planebuf o v;
  octet ← setitem octet i 0;
  Ok (planebuf, octet, o + planewidth).

(** Lines 242-256: the body of [for j in range(0, len(bitmap), 8)]; the
    state is [(planebuf, octet, ofs, x)]. *)
Definition plane_group (bitmap : list Z) (w planewidth : nat)
    (st : list Z * list Z * Z * Z) (k : nat)
    : result (list Z * list Z * Z * Z) :=
  let '(planebuf, octet, ofs, x) := st in
  let j := (8 * k)%nat in
  octet ← foldM (octet_pixel bitmap) octet (seq j 8);
  '(planebuf, octet, _) ← foldM (store_octets planewidth) (planebuf, octet, ofs)
                            (range 4);
  let ofs := ofs + 1 in
  let x := x + 8 in
  if w <=? x then Ok (planebuf, octet, ofs + planewidth * 3, 0)
  else Ok (planebuf, octet, ofs, x).

(** Lines 237-256 *)
Definition split_planes (bitmap : list Z) (w : nat) : result (list Z) :=
  let planebuf := replicate (Nat.shiftr (length bitmap) 1) 0 in
  let planewidth := Nat.shiftr w 3 in
  '(planebuf, _, _, _) ← foldM (plane_group bitmap w planewidth)
                           (planebuf, [0; 0; 0; 0], 0, 0)
                           (range ((length bitmap + 7) / 8)%nat);
  Ok planebuf.

Definition signature : list Z :=
  map (fun c => Z.of_nat (nat_of_ascii c)) (list_ascii_of_string "PC98)GPCFILE   ").

(** Lines 191-273: from the opened image to the bytes written to the
    [.gpc] file; [x] and [y] are the command-line coordinates. *)
Definition make_gpc (img : image) (x y : Z) : result (list Z) :=
  if negb (img_mode_P img) then Raise (SystemExit 2) else
  let palette := fit_palette (img_palette img) in
  if (640 <? img_width img)%nat then Raise (SystemExit 4) else
  if (400 <? img_height img)%nat then Raise (SystemExit 4) else
  let outbuf := signature in
  let outbuf := outbuf ++ replicate 5 0 in
  bs ← bytearray_of [0x30; 0; 0; 0; 0x54; 0; 0; 0];
  let outbuf := outbuf ++ bs in
  let outbuf := outbuf ++ replicate 20 0 in
  bs ← bytearray_of [16; 0; 2; 0];
  let outbuf := outbuf ++ bs in
  outbuf ← foldM (palette_entry palette) outbuf (range 16);
  let w := img_width img in
  let h := img_height img in
  bs ← bytearray_of [Z.land w 0xFF; Z.shiftr w 8; Z.land h 0xFF; Z.shiftr h 8;
                     0; 0; 0; 0; 4; 0;
                     Z.land x 0xFF; Z.shiftr x 8; Z.land y 0xFF; Z.shiftr y 8;
                     0; 0];
  let outbuf := outbuf ++ bs in
  let '(bitmap, w) :=
    if negb (img_width img mod 8 =? 0)%nat
    then (pad_image (img_width img) h (img_data img), pad_width (img_width img))
    else (img_data img, w) in
  planebuf ← split_planes bitmap w;
  res ← Compress planebuf w h;
  let '(compressed_data, bestvrt) := (res : list Z * nat) in
  outbuf ← ba_setitem outbuf 0x10 (Z.land bestvrt 0xFF);
  outbuf ← ba_setitem outbuf 0x11 (Z.shiftr bestvrt 8);
  outbuf ← ba_setitem outbuf 0x58 (Z.land (length compressed_data) 0xFF);
  outbuf ← ba_setitem outbuf 0x59 (Z.shiftr (length compressed_data) 8);
  let outbuf := outbuf ++ compressed_data in
  Ok outbuf.

(** * Properties *)

(** ** Indexing inside the bounds *)

Lemma norm_index_nat (len n : nat) :
  (n < len)%nat → norm_index len n = Some n.
Proof.
  intros Hn. unfold norm_index.
  destruct (Z.leb_spec 0 n); [|lia].
  destruct (Z.ltb_spec n len); [|lia].
  by rewrite Nat2Z.id.
Qed.

Lemma getitem_nat {A : Type} (l : list A) (n : nat) (v : A) :
  l !! n = Some v → getitem l n = Ok v.
Proof.
  intros Hl. unfold getitem.
  rewrite norm_index_nat by (by eapply lookup_lt_Some).
  by rewrite Hl.
Qed.

Lemma setitem_nat {A : Type} (l : list A) (n : nat) (v : A) :
  (n < length l)%nat → setitem l n v = Ok (<[n:=v]> l).
Proof. intros Hn. unfold setitem. by rewrite norm_index_nat. Qed.

Lemma setitem_0 {A : Type} (l : list A) (v : A) :
  (0 < length l)%nat → setitem l 0 v = Ok (<[0%nat:=v]> l).
Proof. apply (setitem_nat l 0 v). Qed.

Lemma clamp_nat (len n : nat) : clamp len n = Nat.min n len.
Proof.
  unfold clamp. destruct (Z.ltb_spec n 0); [lia|]. by rewrite Nat2Z.id.
Qed.

Lemma slice_nat {A : Type} (l : list A) (a n : nat) :
  (a + n ≤ length l)%nat → slice l a (a + n)%nat = take n (drop a l).
Proof.
  intros Hl. unfold slice. rewrite !clamp_nat.
  f_equal. lia. f_equal. lia.
Qed.

Lemma mv_setslice_nat (dst src : list Z) (a : nat) :
  (a + length src ≤ length dst)%nat →
  mv_setslice dst a (a + length src)%nat src
  = Ok (take a dst ++ src ++ drop (a + length src) dst).
Proof.
  intros Hl. unfold mv_setslice. rewrite !clamp_nat.
  replace (Nat.min a (length dst)) with a by lia.
  replace (Nat.max a (Nat.min (a + length src) (length dst)))
    with (a + length src)%nat by lia.
  rewrite decide_True by lia. done.
Qed.

Lemma foldM_app {A S : Type} (f : S → A → result S) (s : S) (l1 l2 : list A) :
  foldM f s (l1 ++ l2) = (s' ← foldM f s l1; foldM f s' l2).
Proof.
  revert s. induction l1 as [|a l1 IH]; intros s; simpl; [done|].
  destruct (f s a); simpl; auto.
Qed.

Lemma filter_none {A : Type} (P : A → Prop) `{!∀ x, Decision (P x)} (l : list A) :
  Forall (λ x, ¬ P x) l → filter P l = [].
Proof.
  induction 1 as [|x l Hx _ IH]; [done|].
  by rewrite filter_cons_False.
Qed.

Lemma filter_all {A : Type} (P : A → Prop) `{!∀ x, Decision (P x)} (l : list A) :
  Forall P l → filter P l = l.
Proof.
  induction 1 as [|x l Hx _ IH]; [done|].
  by rewrite filter_cons_True, IH.
Qed.

Lemma filter_ext_in {A : Type} (P Q : A → Prop) `{!∀ x, Decision (P x)}
    `{!∀ x, Decision (Q x)} (l : list A) :
  Forall (λ x, P x ↔ Q x) l → filter P l = filter Q l.
Proof.
  induction 1 as [|x l Hx _ IH]; [done|].
  rewrite !filter_cons, IH. destruct (decide (P x)), (decide (Q x)); tauto.
Qed.

(** ** The interlace permutation *)

(** The indices below [N] of residue [r] modulo [s], ascending. *)
Definition residue_class (N s r : nat) : list nat :=
  filter (λ i, i mod s = r)%nat (seq 0 N).

(** The ordering the specification describes: the residue classes
    [0 .. s-1], one after the other. *)
Definition interlace_perm (N s : nat) : list nat :=
  concat (residue_class N s <$> seq 0 s).

Section interlace.
Variables (size step : nat).
Hypothesis step_pos : (0 < step)%nat.

(** What the inner loop visits from [i] on. *)
Definition class_from (i : nat) : list nat :=
  filter (λ j, j mod step = i mod step)%nat (seq i (size - i)).

Lemma class_from_ge (i : nat) : (size ≤ i)%nat → class_from i = [].
Proof. intros Hi. unfold class_from. by replace (size - i)%nat with 0%nat by lia. Qed.

Lemma filter_seq_gap (i n : nat) :
  (n < step)%nat →
  filter (λ j, j mod step = i mod step)%nat (seq (S i) n) = [].
Proof.
  intros Hn. apply filter_none. apply Forall_forall. intros j Hj.
  apply elem_of_seq in Hj. intros Hmod.
  assert (Hd : (j = i + (j - i))%nat) by lia.
  rewrite Hd in Hmod.
  rewrite <- (Nat.Div0.add_mod_idemp_l i) in Hmod.
  assert (Hlt : (j - i < step)%nat) by lia.
  pose proof (Nat.mod_upper_bound i step ltac:(lia)) as Hb.
  destruct (decide (i mod step + (j - i) < step)%nat) as [Hs|Hs].
  - rewrite (Nat.mod_small _ _ Hs) in Hmod. lia.
  - assert (He : ((i mod step + (j - i)) = 1 * step + (i mod step + (j - i) - step))%nat) by lia.
    rewrite He, Nat.add_comm, Nat.Div0.mod_add in Hmod.
    rewrite Nat.mod_small in Hmod by lia. lia.
Qed.

Lemma class_from_lt (i : nat) :
  (i < size)%nat → class_from i = i :: class_from (i + step).
Proof.
  intros Hi. unfold class_from.
  replace (size - i)%nat with (S (size - S i)) by lia.
  simpl.
  rewrite filter_cons_True by done. f_equal.
  destruct (decide (i + step ≤ size)%nat) as [Hle|Hgt].
  - replace (size - S i)%nat with ((step - 1) + (size - (i + step)))%nat by lia.
    rewrite seq_app, filter_app, filter_seq_gap by lia. simpl.
    replace (S (i + (step - 1)))%nat with (i + step)%nat by lia.
    apply list_filter_iff. intros j.
    rewrite <- (Nat.Div0.add_mod_idemp_r i step), Nat.Div0.mod_same, Nat.add_0_r.
    done.
  - rewrite filter_seq_gap by lia.
    by replace (size - (i + step))%nat with 0%nat by lia.
Qed.
End interlace.

Section interlace_loops.
Variables (size step : nat).
Hypothesis step_pos : (0 < step)%nat.

(** The inner loop, started at [i] with [pre] already written, appends
    the indices it visits. *)
Lemma interlace_class_spec (fuel i : nat) (pre : list nat) (k : nat) :
  (size - i < fuel)%nat →
  (length (class_from size step i) ≤ k)%nat →
  interlace_class fuel size step i
    ((Some <$> pre) ++ replicate k None, Z.of_nat (length pre))
  = Ok ((Some <$> (pre ++ class_from size step i))
          ++ replicate (k - length (class_from size step i)) None,
        Z.of_nat (length (pre ++ class_from size step i))).
Proof using step_pos.
  revert i pre k. induction fuel as [|fuel IH]; intros i pre k Hfuel Hk; [lia|].
  simpl. destruct (Nat.ltb_spec i size) as [Hi|Hi].
  - rewrite class_from_lt in Hk |- * by done. simpl in Hk.
    rewrite setitem_nat by (rewrite length_app, length_fmap, length_replicate; lia).
    simpl.
    replace (<[length pre:=Some i]> ((Some <$> pre) ++ replicate k None))
      with ((Some <$> (pre ++ [i])) ++ replicate (k - 1) None).
    2:{ rewrite insert_app_r_alt by (rewrite length_fmap; lia).
        rewrite length_fmap, Nat.sub_diag.
        destruct k as [|k]; [lia|]. simpl.
        rewrite fmap_app, <- app_assoc. simpl. by rewrite Nat.sub_0_r. }
    replace (Z.of_nat (length pre) + 1) with (Z.of_nat (length (pre ++ [i])))
      by (rewrite length_app; simpl; lia).
    rewrite IH by lia.
    rewrite <- app_assoc. simpl.
    by replace (k - 1 - length (class_from size step (i + step)))%nat
      with (k - S (length (class_from size step (i + step))))%nat by lia.
  - rewrite class_from_ge by done. rewrite app_nil_r. simpl.
    by rewrite Nat.sub_0_r.
Qed.

Lemma class_from_residue (r : nat) :
  (r < step)%nat → class_from size step r = residue_class size step r.
Proof using step_pos.
  intros Hr. unfold class_from, residue_class.
  rewrite (Nat.mod_small r step Hr).
  destruct (decide (r ≤ size)%nat) as [Hle|Hgt].
  - replace size with (r + (size - r))%nat at 2 by lia.
    rewrite seq_app, filter_app. simpl.
    rewrite (filter_none _ (seq 0 r)); [done|].
    apply Forall_forall. intros j Hj. apply elem_of_seq in Hj.
    rewrite Nat.mod_small by lia. lia.
  - replace (size - r)%nat with 0%nat by lia. simpl. symmetry.
    apply filter_none, Forall_forall. intros j Hj. apply elem_of_seq in Hj.
    rewrite Nat.mod_small by lia. lia.
Qed.

(** The classes of the residues below [n]. *)
Definition classes_below (n : nat) : list nat :=
  concat (residue_class size step <$> seq 0 n).

Lemma filter_lt_S (f : nat → nat) (n : nat) (l : list nat) :
  filter (λ j, f j < S n)%nat l
  ≡ₚ filter (λ j, f j < n)%nat l ++ filter (λ j, f j = n)%nat l.
Proof.
  induction l as [|x l IH]; [done|].
  destruct (decide (f x < n)%nat) as [Hlt|Hge].
  - rewrite (filter_cons_True (λ j, f j < S n)%nat) by lia.
    rewrite (filter_cons_True (λ j, f j < n)%nat) by lia.
    rewrite (filter_cons_False (λ j, f j = n)%nat) by lia.
    simpl. by rewrite IH.
  - destruct (decide (f x = n)) as [Heq|Hne].
    + rewrite (filter_cons_True (λ j, f j < S n)%nat) by lia.
      rewrite (filter_cons_False (λ j, f j < n)%nat) by lia.
      rewrite (filter_cons_True (λ j, f j = n)%nat) by lia.
      rewrite IH. by rewrite Permutation_middle.
    + rewrite (filter_cons_False (λ j, f j < S n)%nat) by lia.
      rewrite (filter_cons_False (λ j, f j < n)%nat) by lia.
      rewrite (filter_cons_False (λ j, f j = n)%nat) by lia.
      done.
Qed.

Lemma classes_below_perm (n : nat) :
  classes_below n ≡ₚ filter (λ j, j mod step < n)%nat (seq 0 size).
Proof.
  induction n as [|n IH].
  - unfold classes_below. simpl. symmetry.
    rewrite filter_none; [done|]. apply Forall_forall. intros; lia.
  - unfold classes_below in *. rewrite seq_S, fmap_app, concat_app. simpl.
    rewrite app_nil_r, IH. unfold residue_class. by rewrite filter_lt_S.
Qed.

Lemma classes_below_length (n : nat) : (length (classes_below n) ≤ size)%nat.
Proof.
  rewrite classes_below_perm.
  etrans; [apply length_filter|]. by rewrite length_seq.
Qed.

(** The outer loop after [n] residues. *)
Lemma interlace_outer_spec (n : nat) :
  (n ≤ step)%nat →
  foldM (λ st start, interlace_class (S size) size step start st)
    (replicate size None, 0) (range n)
  = Ok ((Some <$> classes_below n)
          ++ replicate (size - length (classes_below n)) None,
        Z.of_nat (length (classes_below n))).
Proof using step_pos.
  induction n as [|n IH]; intros Hn.
  - simpl. by rewrite Nat.sub_0_r.
  - assert (Hc : classes_below (S n) = classes_below n ++ class_from size step n).
    { unfold classes_below. rewrite seq_S, fmap_app, concat_app. simpl.
      by rewrite app_nil_r, class_from_residue by lia. }
    pose proof (classes_below_length (S n)) as Hlen.
    rewrite Hc in Hlen |- *. rewrite length_app in Hlen.
    unfold range in *. rewrite seq_S, foldM_app, IH by lia.
    cbn [mbind result_bind foldM Nat.add].
    rewrite interlace_class_spec by lia. cbn [mbind result_bind].
    rewrite length_app. do 4 f_equal. lia.
Qed.

Lemma interlace_perm_Permutation : interlace_perm size step ≡ₚ seq 0 size.
Proof using step_pos.
  change (interlace_perm size step) with (classes_below step).
  rewrite classes_below_perm.
  rewrite filter_all; [done|].
  apply Forall_forall. intros j _. apply Nat.mod_upper_bound. lia.
Qed.

Lemma interlace_result_spec :
  interlace_result size step = Ok (Some <$> interlace_perm size step).
Proof using step_pos.
  unfold interlace_result. rewrite interlace_outer_spec by done. simpl.
  change (classes_below step) with (interlace_perm size step).
  rewrite (Permutation_length interlace_perm_Permutation), length_seq.
  by rewrite Nat.sub_diag, app_nil_r.
Qed.
End interlace_loops.

Lemma interlace_perm_1 (N : nat) : interlace_perm N 1 = seq 0 N.
Proof.
  unfold interlace_perm, residue_class. simpl. rewrite app_nil_r.
  apply filter_all, Forall_forall. intros j _. apply (Nat.mod_1_r j).
Qed.

Lemma residue_class_small (N s r : nat) :
  (N ≤ s)%nat → residue_class N s r = if decide (r < N)%nat then [r] else [].
Proof.
  intros Hs. unfold residue_class. case_decide as Hr.
  - replace N with (r + S (N - S r))%nat at 1 by lia.
    rewrite seq_app, filter_app. simpl.
    rewrite filter_cons_True by (apply Nat.mod_small; lia).
    rewrite !filter_none; [done| |]; apply Forall_forall; intros j Hj;
      apply elem_of_seq in Hj; rewrite Nat.mod_small by lia; lia.
  - apply filter_none, Forall_forall. intros j Hj. apply elem_of_seq in Hj.
    rewrite Nat.mod_small by lia. lia.
Qed.

Lemma interlace_perm_ge (N s : nat) : (N ≤ s)%nat → interlace_perm N s = seq 0 N.
Proof.
  intros Hs.
  assert (Hn : ∀ n, classes_below N s n = seq 0 (Nat.min n N)).
  { induction n as [|n IH]; [done|].
    unfold classes_below in *. rewrite seq_S, fmap_app, concat_app, IH.
    cbn [fmap list_fmap concat Nat.add].
    rewrite app_nil_r, residue_class_small by done. case_decide.
    - replace (Nat.min (S n) N) with (S n) by lia.
      replace (Nat.min n N) with n by lia. by rewrite seq_S.
    - rewrite app_nil_r. f_equal. lia. }
  change (interlace_perm N s) with (classes_below N s s).
  rewrite Hn. f_equal. lia.
Qed.

(** The table holds an entry for each nonzero step of [steps], and for
    nothing else. *)
Lemma MakeInterlaceTable_lookup (size : nat) (steps : list nat) :
  ∃ table, MakeInterlaceTable size steps = Ok table ∧
    ∀ k, table !! k = if decide (k ≠ 0%nat ∧ k ∈ steps)
                      then Some (Some <$> interlace_perm size k) else None.
Proof.
  unfold MakeInterlaceTable.
  assert (H : ∀ t0 : gmap nat (list (option nat)), ∃ table,
    foldM (λ table step,
             if decide (step = 0%nat) then Ok table
             else result ← interlace_result size step;
                  Ok (<[step := result]> table)) t0 steps = Ok table ∧
    ∀ k, table !! k = if decide (k ≠ 0%nat ∧ k ∈ steps)
                      then Some (Some <$> interlace_perm size k) else t0 !! k).
  { induction steps as [|s steps IH]; intros t0.
    - exists t0. split; [done|]. intros k.
      rewrite decide_False; [done|]. rewrite elem_of_nil. tauto.
    - cbn [foldM]. destruct (decide (s = 0%nat)) as [->|Hs].
      + destruct (IH t0) as (table & Hrun & Hlk). exists table.
        split; [done|]. intros k. rewrite Hlk.
        destruct (decide (k ≠ 0%nat ∧ k ∈ steps)) as [Hk|Hk].
        * rewrite decide_True; [done|]. rewrite elem_of_cons. tauto.
        * rewrite decide_False; [done|]. rewrite elem_of_cons. intros [? [?|?]]; [done|tauto].
      + rewrite interlace_result_spec by lia. cbn [mbind result_bind].
        destruct (IH (<[s := Some <$> interlace_perm size s]> t0))
          as (table & Hrun & Hlk).
        exists table. split; [done|]. intros k. rewrite Hlk.
        destruct (decide (k ≠ 0%nat ∧ k ∈ steps)) as [Hk|Hk].
        * rewrite decide_True; [done|]. rewrite elem_of_cons. tauto.
        * destruct (decide (k = s)) as [->|Hne].
          -- rewrite lookup_insert_eq, decide_True; [done|].
             rewrite elem_of_cons. tauto.
          -- rewrite lookup_insert_ne by done.
             rewrite decide_False; [done|]. rewrite elem_of_cons. tauto. }
  destruct (H ∅) as (table & Hrun & Hlk). exists table. split; [done|].
  intros k. rewrite Hlk. by rewrite lookup_empty.
Qed.

(** C9. For a domain of [N >= 1] indices and a step [s >= 1] among the
    steps asked for, [MakeInterlaceTable] returns a table whose entry for
    [s] lists the residue classes [0 .. s-1] modulo [s], each ascending,
    one after the other; the entry is a permutation of [0 .. N-1], the
    identity for [s = 1] and again the identity for [s >= N]; the table
    has no entry for step 0. *)
Theorem MakeInterlaceTable_permutation (N s : nat) (steps : list nat) :
  (1 ≤ N)%nat → (1 ≤ s)%nat → s ∈ steps →
  ∃ table, MakeInterlaceTable N steps = Ok table ∧
    table !! s = Some (Some <$> interlace_perm N s) ∧
    interlace_perm N s ≡ₚ seq 0 N ∧
    (s = 1%nat → interlace_perm N s = seq 0 N) ∧
    ((N ≤ s)%nat → interlace_perm N s = seq 0 N) ∧
    table !! 0%nat = None.
Proof.
  intros HN Hs Hin.
  destruct (MakeInterlaceTable_lookup N steps) as (table & Hrun & Hlk).
  exists table. split; [done|]. repeat split.
  - rewrite Hlk. rewrite decide_True; [done|]. split; [lia|done].
  - apply interlace_perm_Permutation. lia.
  - intros ->. apply interlace_perm_1.
  - apply interlace_perm_ge.
  - rewrite Hlk. rewrite decide_False; [done|]. tauto.
Qed.

Lemma MakeInterlaceTable_permutation_witness :
  ∃ table, MakeInterlaceTable 7 hrz_steps = Ok table ∧
    table !! 3%nat = Some (Some <$> interlace_perm 7 3) ∧
    interlace_perm 7 3 ≡ₚ seq 0 7 ∧
    (3%nat = 1%nat → interlace_perm 7 3 = seq 0 7) ∧
    ((7 ≤ 3)%nat → interlace_perm 7 3 = seq 0 7) ∧
    table !! 0%nat = None.
Proof.
  apply (MakeInterlaceTable_permutation 7 3 hrz_steps); [lia|lia|].
  unfold hrz_steps, range. apply elem_of_seq. lia.
Defined.

(** ** Encode on an all-zero buffer *)

#[local] Ltac zdm := Z.div_mod_to_equations; lia.

Lemma land_7 (a : Z) : Z.land a 7 = a mod 8.
Proof. change 7 with (Z.ones 3). by rewrite Z.land_ones. Qed.

Lemma shiftr_3 (a : Z) : Z.shiftr a 3 = a / 8.
Proof. by rewrite Z.shiftr_div_pow2. Qed.

(** The counters of the two flag levels when [r] bytes are left. *)
Definition bits_left_B (r : Z) : Z := if r mod 8 =? 0 then 8 else r mod 8.
Definition bits_left_A (r : Z) : Z :=
  if ((r + 7) / 8) mod 8 =? 0 then 8 else ((r + 7) / 8) mod 8.

(** The number of flag A bytes of [r] source bytes. *)
Definition flagA_bytes (r : nat) : nat := ((r + 63) / 64)%nat.

Lemma flagA_bytes_S (r : nat) :
  flagA_bytes (S r) = if decide (r mod 64 = 0)%nat then S (flagA_bytes r)
                      else flagA_bytes r.
Proof.
  unfold flagA_bytes. case_decide as Hr.
  - replace (S r + 63)%nat with (r + 63 + 1)%nat by lia.
    pose proof (Nat.div_mod_eq r 64). pose proof (Nat.div_mod_eq (r + 63) 64).
    pose proof (Nat.div_mod_eq (r + 63 + 1) 64).
    pose proof (Nat.mod_upper_bound (r + 63) 64).
    pose proof (Nat.mod_upper_bound (r + 63 + 1) 64). lia.
  - replace (S r + 63)%nat with (r + 63 + 1)%nat by lia.
    pose proof (Nat.div_mod_eq r 64). pose proof (Nat.div_mod_eq (r + 63) 64).
    pose proof (Nat.div_mod_eq (r + 63 + 1) 64).
    pose proof (Nat.mod_upper_bound r 64).
    pose proof (Nat.mod_upper_bound (r + 63) 64).
    pose proof (Nat.mod_upper_bound (r + 63 + 1) 64). lia.
Qed.

Lemma zero_block_extend (fv : list Z) (n c : nat) :
  (c < n)%nat → (n ≤ length fv)%nat →
  take (n - 1 - c) (<[(n - 1)%nat := 0]> fv) ++ replicate c 0
    ++ drop (n - 1) (<[(n - 1)%nat := 0]> fv)
  = take (n - S c) fv ++ replicate (S c) 0 ++ drop n fv.
Proof.
  intros Hc Hn.
  rewrite take_insert_ge by lia.
  rewrite drop_insert_ge by lia.
  replace (n - 1 - (n - 1))%nat with 0%nat by lia.
  destruct (drop (n - 1) fv) as [|x rest] eqn:Hd.
  { apply (f_equal length) in Hd. rewrite length_drop in Hd. simpl in Hd. lia. }
  simpl. replace (drop n fv) with rest.
  2:{ replace n with ((n - 1) + 1)%nat at 1 by lia.
      rewrite <- drop_drop, Hd. done. }
  replace (n - 1 - c)%nat with (n - S c)%nat by lia. f_equal.
  change (0 :: replicate c 0 ++ rest) with (replicate (S c) 0 ++ rest).
  by rewrite replicate_S_end, <- app_assoc.
Qed.

Lemma encode_loop_zeros (workview : list Z) (r n : nat) (fv : list Z) :
  (∀ i, (i < r)%nat → workview !! i = Some 0) →
  (flagA_bytes r ≤ n)%nat → (n ≤ length fv)%nat →
  encode_loop workview r
    (EncState 0 0 (bits_left_A r) (bits_left_B r) n fv)
  = Ok (EncState 0 0 8 8 (n - flagA_bytes r)%nat
          (take (n - flagA_bytes r) fv ++ replicate (flagA_bytes r) 0
             ++ drop n fv)).
Proof.
  revert n fv. induction r as [|r IH]; intros n fv Hz Hc Hn.
  - simpl. rewrite Nat.sub_0_r, take_drop. done.
  - cbn [encode_loop st_flagA st_flagB st_flagAbitsleft st_flagBbitsleft
         st_writeofs st_finalview].
    rewrite (getitem_nat _ r 0) by (apply Hz; lia).
    change (Z.shiftr 0 1) with 0.
    cbn [mbind result_bind Z.eqb negb]. unfold encode_flags.
    rewrite flagA_bytes_S in Hc |- *.
    assert (Hnat : Z.of_nat (r mod 64) = Z.of_nat r mod 64)
      by (by rewrite Nat2Z.inj_mod).
    destruct (Z.eqb_spec (bits_left_B (S r) - 1) 0) as [HB|HB].
    + change (Z.shiftr 0 1) with 0. cbn [Z.eqb negb mbind result_bind].
      destruct (Z.eqb_spec (bits_left_A (S r) - 1) 0) as [HA|HA].
      * assert (Hr : (r mod 64 = 0)%nat).
        { unfold bits_left_A, bits_left_B in HA, HB.
          repeat case_match; rewrite ?Z.eqb_eq, ?Z.eqb_neq in *; zdm. }
        rewrite decide_True in Hc |- * by done.
        replace (Z.of_nat n - 1) with (Z.of_nat (n - 1)) by lia.
        rewrite setitem_nat by lia. cbn [mbind result_bind].
        replace 8 with (bits_left_A r) at 1
          by (unfold bits_left_A; repeat case_match;
              rewrite ?Z.eqb_eq, ?Z.eqb_neq in *; zdm).
        replace 8 with (bits_left_B r) at 1
          by (unfold bits_left_B; repeat case_match;
              rewrite ?Z.eqb_eq, ?Z.eqb_neq in *; zdm).
        rewrite IH by (rewrite ?length_insert; auto with lia).
        rewrite zero_block_extend by lia.
        do 3 f_equal. lia.
      * assert (Hr : (r mod 64 ≠ 0)%nat).
        { unfold bits_left_A, bits_left_B in HA, HB.
          repeat case_match; rewrite ?Z.eqb_eq, ?Z.eqb_neq in *; zdm. }
        rewrite decide_False in Hc |- * by done.
        replace (bits_left_A (S r) - 1) with (bits_left_A r)
          by (unfold bits_left_A, bits_left_B in *; repeat case_match;
              rewrite ?Z.eqb_eq, ?Z.eqb_neq in *; zdm).
        replace 8 with (bits_left_B r) at 1
          by (unfold bits_left_B in *; repeat case_match;
              rewrite ?Z.eqb_eq, ?Z.eqb_neq in *; zdm).
        cbn [mbind result_bind]. by rewrite IH by auto with lia.
    + assert (Hr : (r mod 64 ≠ 0)%nat).
      { unfold bits_left_B in HB.
        repeat case_match; rewrite ?Z.eqb_eq, ?Z.eqb_neq in *; zdm. }
      rewrite decide_False in Hc |- * by done.
      replace (bits_left_A (S r)) with (bits_left_A r)
        by (unfold bits_left_A, bits_left_B in *; repeat case_match;
            rewrite ?Z.eqb_eq, ?Z.eqb_neq in *; zdm).
      replace (bits_left_B (S r) - 1) with (bits_left_B r)
        by (unfold bits_left_B in *; repeat case_match;
            rewrite ?Z.eqb_eq, ?Z.eqb_neq in *; zdm).
      cbn [mbind result_bind]. by rewrite IH by auto with lia.
Qed.

Lemma Encode_initial_counters (workview finalview : list Z) :
  Encode workview finalview
  = (st ← encode_loop workview (length workview)
            (EncState 0 0 (bits_left_A (length workview))
               (bits_left_B (length workview)) (length finalview) finalview);
     Ok (st_writeofs st, st_finalview st)).
Proof.
  unfold Encode, bits_left_A, bits_left_B. by rewrite !land_7, shiftr_3.
Qed.

(** C3, as the code has it. On an all-zero WorkBuffer of length [L] and a
    destination of at least [ceil(L/64)] bytes, [Encode] omits every flag B
    byte but still writes one flag A byte, of value 0, for each started
    group of 64 source bytes: the returned offset is the length of the
    destination less [ceil(L/64)], and the bytes from there on are zero. *)
Theorem Encode_zeros (L : nat) (finalview : list Z) :
  (flagA_bytes L ≤ length finalview)%nat →
  Encode (replicate L 0) finalview
  = Ok (Z.of_nat (length finalview - flagA_bytes L),
        take (length finalview - flagA_bytes L) finalview
          ++ replicate (flagA_bytes L) 0).
Proof.
  intros Hlen. rewrite Encode_initial_counters, length_replicate.
  rewrite encode_loop_zeros; [|by intros i Hi; apply lookup_replicate_2|done|done].
  cbn [mbind result_bind st_writeofs st_finalview].
  by rewrite drop_all, app_nil_r.
Qed.

Lemma Encode_zeros_witness :
  Encode (replicate 5 0) (replicate (5 * 8 / 7) 0)
  = Ok (Z.of_nat (length (replicate (5 * 8 / 7) 0) - flagA_bytes 5),
        take (length (replicate (5 * 8 / 7) 0) - flagA_bytes 5)
             (replicate (5 * 8 / 7) 0)
          ++ replicate (flagA_bytes 5) 0).
Proof. apply (Encode_zeros 5 (replicate (5 * 8 / 7) 0)). vm_compute. lia. Defined.

(** C3 as stated fails: for the all-zero WorkBuffer of an 8x1 image (five
    bytes) the offset is 4, not the length 5 of the destination. *)
Lemma Encode_zeros_not_empty :
  ∃ ofs fv, Encode (replicate 5 0) (replicate (5 * 8 / 7) 0) = Ok (ofs, fv) ∧
    ofs ≠ Z.of_nat (length (replicate (5 * 8 / 7) 0 : list Z)).
Proof. exists 4, (replicate 5 0). split; [by vm_compute|]. vm_compute. lia. Qed.

(** C1 at its failing input. The plane bytes 1, 2, 4, 8 of the 8x1 image
    with pixels 0,0,0,0,8,4,2,1 give the WorkBuffer 0,1,2,4,8: its four
    literals, one flag B byte and one flag A byte need six bytes, the
    destination has 5*8//7 = 5. The flag A byte is written at index -1,
    which lands on the last byte of the destination over the literal 8,
    and the offset returned is -1; [Compress] then never assigns
    [bestbuf], and the script stops on the unbound local. *)
Theorem Encode_overflows_destination :
  Encode [0; 1; 2; 4; 8] (replicate (5 * 8 / 7) 0)
    = Ok (-1, [120; 1; 2; 4; 128]) ∧
  split_planes [0; 0; 0; 0; 8; 4; 2; 1] 8 = Ok [1; 2; 4; 8] ∧
  Compress [1; 2; 4; 8] 8 1 = Raise UnboundLocalError ∧
  make_gpc (Image true 8 1 [] [0; 0; 0; 0; 8; 4; 2; 1]) 0 0
    = Raise UnboundLocalError.
Proof. repeat split; by vm_compute. Qed.

(** ** The vertical transform *)

(** The buffer after the copy loop: every slot keeps its leading byte and
    receives the source row its entry of [rows] names. *)
Fixpoint place_rows (srcview : list Z) (stride : nat) (work : list Z)
    (rows : list nat) : list Z :=
  match rows with
  | [] => work
  | r :: rows' =>
      take 1 work ++ take stride (drop (r * stride) srcview)
        ++ place_rows srcview stride (drop (stride + 1) work) rows'
  end.

(** Every byte XORed with the byte [n] places before it, the first [n]
    bytes kept. *)
Definition xor_prev (n : nat) (l : list Z) : list Z :=
  zip_with Z.lxor l (replicate n 0 ++ l).

Lemma place_rows_length (srcview work : list Z) (stride : nat) (rows : list nat) :
  Forall (λ r, r * stride + stride ≤ length srcview)%nat rows →
  (length rows * (stride + 1) ≤ length work)%nat →
  length (place_rows srcview stride work rows) = length work.
Proof.
  revert work. induction rows as [|r rows IH]; intros work Hr Hl; [done|].
  apply Forall_cons in Hr as [Hr Hrs]. simpl in Hl |- *.
  rewrite !length_app, !length_take, IH, !length_drop; [lia|done|].
  rewrite length_drop. lia.
Qed.

Lemma vertical_copy_spec (srcview : list Z) (stride : nat) (rows : list nat)
    (pre work : list Z) :
  Forall (λ r, r * stride + stride ≤ length srcview)%nat rows →
  (length rows * (stride + 1) ≤ length work)%nat →
  foldM (vertical_copy srcview stride)
    (pre ++ work, Z.of_nat (length pre + 1)) (Some <$> rows)
  = Ok (pre ++ place_rows srcview stride work rows,
        Z.of_nat (length pre + length rows * (stride + 1) + 1)).
Proof.
  revert pre work. induction rows as [|r rows IH]; intros pre work Hr Hl.
  - simpl. do 3 f_equal. lia.
  - apply Forall_cons in Hr as [Hr Hrs]. simpl in Hl.
    cbn [fmap list_fmap foldM vertical_copy as_int mbind result_bind].
    rewrite <- Nat2Z.inj_mul, <- !Nat2Z.inj_add.
    rewrite slice_nat by lia.
    set (row := take stride (drop (r * stride) srcview)).
    assert (Hrow : length row = stride).
    { unfold row. rewrite length_take, length_drop. lia. }
    rewrite <- Hrow at 1.
    rewrite mv_setslice_nat by (rewrite length_app; lia).
    cbn [mbind result_bind].
    replace (take (length pre + 1) (pre ++ work)) with (pre ++ take 1 work)
      by (by rewrite take_app_add).
    replace (drop (length pre + 1 + length row) (pre ++ work))
      with (drop (stride + 1) work)
      by (rewrite <- Nat.add_assoc, drop_app_add; f_equal; lia).
    replace ((pre ++ take 1 work) ++ row ++ drop (stride + 1) work)
      with ((pre ++ take 1 work ++ row) ++ drop (stride + 1) work)
      by (by rewrite <- !app_assoc).
    match goal with |- foldM _ (_, ?z) _ = _ =>
      replace z with (Z.of_nat (length (pre ++ take 1 work ++ row) + 1))
        by (rewrite !length_app, length_take; lia)
    end.
    rewrite IH; [|done|rewrite length_drop; lia].
    rewrite <- !app_assoc. simpl. do 3 f_equal.
    rewrite !length_app, length_take. lia.
Qed.

Lemma xor_prev_length (n : nat) (l : list Z) : length (xor_prev n l) = length l.
Proof.
  unfold xor_prev. rewrite length_zip_with, length_app, length_replicate. lia.
Qed.

Lemma xor_prev_lookup (n : nat) (l : list Z) (p : nat) (a : Z) :
  l !! p = Some a →
  xor_prev n l !! p
  = Some (Z.lxor a (if decide (p < n)%nat then 0 else default 0 (l !! (p - n)%nat))).
Proof.
  intros Ha. unfold xor_prev. rewrite lookup_zip_with, Ha. simpl.
  pose proof (lookup_lt_Some _ _ _ Ha) as Hp.
  case_decide as Hn.
  - rewrite lookup_app_l by (rewrite length_replicate; lia).
    by rewrite lookup_replicate_2 by lia.
  - rewrite lookup_app_r by (rewrite length_replicate; lia).
    rewrite length_replicate.
    destruct (lookup_lt_is_Some_2 l (p - n)) as [b Hb]; [lia|].
    by rewrite Hb.
Qed.

(** The backward scan: after [t] steps the last [t] bytes are filtered. *)
Lemma vertical_xor_spec (stride : nat) (W : list Z) (t : nat) :
  (t + (stride + 1) ≤ length W)%nat →
  foldM (vertical_xor stride) (W, Z.of_nat (length W)) (range t)
  = Ok (take (length W - t) W ++ drop (length W - t) (xor_prev (stride + 1) W),
        Z.of_nat (length W - t)).
Proof.
  induction t as [|t IH]; intros Ht.
  - simpl. rewrite Nat.sub_0_r, take_ge, drop_ge by (rewrite ?xor_prev_length; lia).
    by rewrite app_nil_r.
  - unfold range in *. rewrite seq_S, foldM_app, IH by lia.
    cbn [mbind result_bind foldM vertical_xor Nat.add].
    set (p := (length W - S t)%nat).
    replace (Z.of_nat (length W - t) - 1) with (Z.of_nat p) by lia.
    replace (Z.of_nat p - Z.of_nat stride - 1)
      with (Z.of_nat (p - (stride + 1))) by lia.
    destruct (lookup_lt_is_Some_2 W p) as [a Ha]; [lia|].
    destruct (lookup_lt_is_Some_2 W (p - (stride + 1))) as [b Hb]; [lia|].
    rewrite (getitem_nat _ p a)
      by (rewrite lookup_app_l by (rewrite length_take; lia);
          rewrite lookup_take_lt by lia; done).
    cbn [mbind result_bind].
    rewrite (getitem_nat _ (p - (stride + 1)) b)
      by (rewrite lookup_app_l by (rewrite length_take; lia);
          rewrite lookup_take_lt by lia; done).
    cbn [mbind result_bind].
    rewrite setitem_nat
      by (rewrite length_app, length_take, length_drop, xor_prev_length; lia).
    cbn [mbind result_bind]. do 2 f_equal.
    apply list_eq. intros i.
    destruct (decide (i = p)) as [->|Hi].
    + rewrite list_lookup_insert_eq
        by (rewrite length_app, length_take, length_drop, xor_prev_length; lia).
      rewrite lookup_app_r by (rewrite length_take; lia).
      rewrite length_take, lookup_drop.
      replace (p + (p - p `min` length W))%nat with p by lia.
      rewrite (xor_prev_lookup _ _ _ a Ha).
      rewrite decide_False by lia. by rewrite Hb.
    + rewrite list_lookup_insert_ne by done.
      destruct (decide (i < p)%nat).
      * rewrite !lookup_app_l by (rewrite length_take; lia).
        by rewrite !lookup_take_lt by lia.
      * rewrite !lookup_app_r by (rewrite length_take; lia).
        rewrite !length_take, !lookup_drop. f_equal. lia.
Qed.

Lemma xor_prev_take (n : nat) (W : list Z) :
  take n (xor_prev n W) = take n W.
Proof.
  apply list_eq. intros i. destruct (decide (i < n)%nat) as [Hi|Hi].
  - rewrite !lookup_take_lt by done.
    destruct (W !! i) as [a|] eqn:Ha.
    + rewrite (xor_prev_lookup _ _ _ a Ha), decide_True by done.
      by rewrite Z.lxor_0_r.
    + apply lookup_ge_None. rewrite xor_prev_length. by apply lookup_ge_None.
  - by rewrite !lookup_take_ge by lia.
Qed.

Lemma vertical_filter_spec (stride h : nat) (W : list Z) :
  length W = ((stride + 1) * h)%nat →
  vertical_filter stride h W (Z.of_nat (length W + 1))
  = Ok (xor_prev (stride + 1) W).
Proof.
  intros HW. unfold vertical_filter. case_decide as Hh.
  - subst h. f_equal.
    rewrite <- (take_ge W (stride + 1)) at 1 by lia.
    rewrite <- xor_prev_take. apply take_ge. rewrite xor_prev_length. lia.
  - replace (Z.of_nat (length W + 1) - 1) with (Z.of_nat (length W)) by lia.
    destruct h as [|h].
    + rewrite Nat.mul_0_r in *. destruct W; [|done]. done.
    + rewrite vertical_xor_spec by (rewrite HW; lia).
      cbn [mbind result_bind]. f_equal.
      replace (length W - (stride + 1) * (S h - 1))%nat with (stride + 1)%nat
        by (rewrite HW; lia).
      by rewrite <- xor_prev_take, take_drop.
Qed.

Lemma VerticalIX_spec (srcview workview : list Z) (w h : nat) (rows : list nat) :
  let stride := Nat.shiftr w 1 in
  length workview = ((stride + 1) * h)%nat →
  length rows = h →
  Forall (λ r, r * stride + stride ≤ length srcview)%nat rows →
  VerticalIX srcview workview w h (Some <$> rows)
  = Ok (xor_prev (stride + 1) (place_rows srcview stride workview rows)).
Proof.
  intros stride Hw Hrows Hr. unfold VerticalIX. fold stride.
  pose proof (vertical_copy_spec srcview stride rows [] workview Hr) as Hcopy.
  change (Z.of_nat (length (@nil Z) + 1)) with 1 in Hcopy.
  cbn [app length Nat.add] in Hcopy. rewrite Hcopy by lia.
  cbn [mbind result_bind].
  pose proof (place_rows_length srcview workview stride rows Hr) as Hlen.
  replace (Z.of_nat (length rows * (stride + 1) + 1))
    with (Z.of_nat (length (place_rows srcview stride workview rows) + 1)) by lia.
  apply vertical_filter_spec. lia.
Qed.

(** The bytes of the buffer after the copy loop. *)
Lemma place_rows_lookup (srcview work : list Z) (stride : nat) (rows : list nat)
    (k r j : nat) :
  Forall (λ r, r * stride + stride ≤ length srcview)%nat rows →
  (length rows * (stride + 1) ≤ length work)%nat →
  rows !! k = Some r → (j ≤ stride)%nat →
  place_rows srcview stride work rows !! (k * (stride + 1) + j)%nat
  = match j with
    | O => work !! (k * (stride + 1))%nat
    | S j' => srcview !! (r * stride + j')%nat
    end.
Proof.
  revert work k. induction rows as [|r0 rows IH]; intros work k Hr Hl Hk Hj; [done|].
  apply Forall_cons in Hr as [Hr0 Hr]. simpl in Hl.
  assert (Ht : length (take 1 work) = 1%nat) by (rewrite length_take; lia).
  assert (Hs : length (take stride (drop (r0 * stride) srcview)) = stride)
    by (rewrite length_take, length_drop; lia).
  destruct k as [|k]; simpl in Hk |- *.
  - inversion Hk; subst r0. destruct j as [|j].
    + rewrite lookup_app_l by lia. by rewrite lookup_take_lt by lia.
    + rewrite lookup_app_r by lia. rewrite Ht.
      rewrite lookup_app_l by lia. replace (S j - 1)%nat with j by lia.
      rewrite lookup_take_lt by lia. by rewrite lookup_drop.
  - rewrite lookup_app_r by lia. rewrite Ht.
    rewrite lookup_app_r by lia. rewrite Hs.
    replace (stride + 1 + k * (stride + 1) + j - 1 - stride)%nat
      with (k * (stride + 1) + j)%nat by lia.
    rewrite IH; [|done|rewrite length_drop; lia|done..].
    destruct j; [|done]. rewrite lookup_drop. f_equal; lia.
Qed.

(** The decoder's side of the vertical filter: every byte from the second
    row on is XORed, first row first, with the already restored byte
    [n] places before it. *)
Definition xor_accumulate (n : nat) (l : list Z) : list Z :=
  foldl (λ cur p, <[p := Z.lxor (cur !!! p) (cur !!! (p - n)%nat)]> cur)
        l (seq n (length l - n)).

Lemma xor_accumulate_prev (n : nat) (W : list Z) :
  (0 < n)%nat → xor_accumulate n (xor_prev n W) = W.
Proof.
  intros Hn. unfold xor_accumulate. rewrite xor_prev_length.
  assert (H : ∀ t, (n + t ≤ length W)%nat →
    foldl (λ cur p, <[p := Z.lxor (cur !!! p) (cur !!! (p - n)%nat)]> cur)
      (xor_prev n W) (seq n t)
    = take (n + t) W ++ drop (n + t) (xor_prev n W)).
  { induction t as [|t IH]; intros Ht.
    - simpl. rewrite Nat.add_0_r, <- xor_prev_take. by rewrite take_drop.
    - rewrite seq_S, foldl_app, IH by lia. simpl.
      destruct (lookup_lt_is_Some_2 W (n + t)) as [a Ha]; [lia|].
      destruct (lookup_lt_is_Some_2 W t) as [b Hb]; [lia|].
      assert (Hlen : length (take (n + t) W ++ drop (n + t) (xor_prev n W))
                     = length W).
      { rewrite length_app, length_take, length_drop, xor_prev_length. lia. }
      apply list_eq. intros i.
      destruct (decide (i = n + t)%nat) as [->|Hi].
      + rewrite list_lookup_insert_eq by lia.
        rewrite (list_lookup_total_correct _ (n + t) (Z.lxor a b)).
        2:{ rewrite lookup_app_r by (rewrite length_take; lia).
            rewrite length_take, lookup_drop.
            replace (n + t + (n + t - (n + t) `min` length W))%nat
              with (n + t)%nat by lia.
            rewrite (xor_prev_lookup _ _ _ a Ha), decide_False by lia.
            replace (n + t - n)%nat with t by lia. by rewrite Hb. }
        rewrite (list_lookup_total_correct _ (n + t - n) b).
        2:{ rewrite lookup_app_l by (rewrite length_take; lia).
            rewrite lookup_take_lt by lia.
            by replace (n + t - n)%nat with t by lia. }
        rewrite Z.lxor_assoc, Z.lxor_nilpotent, Z.lxor_0_r.
        rewrite lookup_app_l by (rewrite length_take; lia).
        by rewrite lookup_take_lt by lia.
      + rewrite list_lookup_insert_ne by done.
        destruct (decide (i < n + t)%nat).
        * rewrite !lookup_app_l by (rewrite length_take; lia).
          by rewrite !lookup_take_lt by lia.
        * rewrite !lookup_app_r by (rewrite length_take; lia).
          rewrite !length_take, !lookup_drop. f_equal. lia. }
  destruct (decide (n ≤ length W)%nat) as [Hle|Hgt].
  - rewrite H by lia. rewrite take_ge, drop_ge by (rewrite ?xor_prev_length; lia).
    by rewrite app_nil_r.
  - replace (length W - n)%nat with 0%nat by lia. simpl.
    rewrite <- (take_ge (xor_prev n W) n) by (rewrite xor_prev_length; lia).
    rewrite xor_prev_take. apply take_ge. lia.
Qed.

(** [stride = w >> 1], as every stage computes it. *)
Definition row_stride (w : nat) : nat := Nat.shiftr w 1.

Lemma rows_in_source (srcview : list Z) (stride h : nat) (rows : list nat) :
  length srcview = (stride * h)%nat →
  Forall (λ r, r < h)%nat rows →
  Forall (λ r, r * stride + stride ≤ length srcview)%nat rows.
Proof.
  intros Hs Hr. eapply Forall_impl; [exact Hr|]. intros r Hr'. simpl in *. rewrite Hs. nia.
Qed.

(** The payload of the [h] rows of a WorkBuffer. *)
Definition payload_rows (stride : nat) (work : list Z) (h : nat) : list (list Z) :=
  (λ k, take stride (drop (k * (stride + 1) + 1) work)) <$> seq 0 h.

(** The filter as the specification words it: each row from the second on
    is XORed with the already XORed row before it. *)
Fixpoint spec_xor_rows (prev : list Z) (rows : list (list Z)) : list (list Z) :=
  match rows with
  | [] => []
  | r :: rows' =>
      let r' := zip_with Z.lxor r prev in r' :: spec_xor_rows r' rows'
  end.

Definition spec_vertical_filter (rows : list (list Z)) : list (list Z) :=
  match rows with
  | [] => []
  | r :: rows' => r :: spec_xor_rows r rows'
  end.

(** C5 as stated fails: with three rows in the order 0, 1, 2 the third row
    comes out as row 2 XOR row 1, not as row 2 XOR (row 1 XOR row 0). *)
Lemma VerticalIX_not_cumulative :
  ∃ out, VerticalIX [1; 2; 3; 4; 5; 6; 7; 8; 9; 10; 11; 12] (replicate 15 0) 8 3
           [Some 0; Some 1; Some 2]%nat = Ok out ∧
    payload_rows 4 out 3
    ≠ spec_vertical_filter [[1; 2; 3; 4]; [5; 6; 7; 8]; [9; 10; 11; 12]].
Proof.
  exists [0; 1; 2; 3; 4; 0; 4; 4; 4; 12; 0; 12; 12; 12; 4].
  split; [by vm_compute|]. vm_compute. discriminate.
Qed.

(** C5, as the code has it. The copy loop puts source row [rows[k]] behind
    the leading byte of slot [k] and leaves the leading byte as it was; the
    backward scan then XORs every byte of every slot but the first, the
    leading byte included, with the byte one slot earlier, which at that
    moment still holds its value from before the scan (not an already
    XORed one). With one row the scan is skipped. *)
Theorem VerticalIX_rows (srcview workview : list Z) (w h : nat) (rows : list nat) :
  length srcview = (row_stride w * h)%nat →
  length workview = ((row_stride w + 1) * h)%nat →
  length rows = h →
  Forall (λ r, r < h)%nat rows →
  ∃ out, VerticalIX srcview workview w h (Some <$> rows) = Ok out ∧
    length out = length workview ∧
    (∀ k r j, rows !! k = Some r → (j < row_stride w)%nat →
       out !! (k * (row_stride w + 1) + S j)%nat
       = Some (Z.lxor (srcview !!! (r * row_stride w + j)%nat)
                 match k with
                 | O => 0
                 | S k' => srcview !!! ((rows !!! k') * row_stride w + j)%nat
                 end)) ∧
    (∀ k, (k < h)%nat →
       out !! (k * (row_stride w + 1))%nat
       = Some (Z.lxor (workview !!! (k * (row_stride w + 1))%nat)
                 match k with
                 | O => 0
                 | S k' => workview !!! (k' * (row_stride w + 1))%nat
                 end)) ∧
    (h = 1%nat → out = place_rows srcview (row_stride w) workview rows).
Proof.
  intros Hsrc Hwork Hrows Hlt.
  pose proof (rows_in_source _ _ _ _ Hsrc Hlt) as Hin.
  set (stride := row_stride w) in *.
  set (P := place_rows srcview stride workview rows).
  assert (HP : length P = length workview)
    by (apply place_rows_length; [done|lia]).
  assert (Hl : (length rows * (stride + 1) ≤ length workview)%nat) by lia.
  exists (xor_prev (stride + 1) P). split; [by apply VerticalIX_spec|].
  split; [by rewrite xor_prev_length|]. split; [|split].
  - intros k r j Hk Hj.
    pose proof (lookup_lt_Some _ _ _ Hk) as Hkl.
    assert (Hr : (r < h)%nat) by (by eapply Forall_lookup_1 in Hlt).
    destruct (lookup_lt_is_Some_2 srcview (r * stride + j)) as [a Ha]; [nia|].
    assert (HPa : P !! (k * (stride + 1) + S j)%nat = Some a).
    { unfold P. rewrite (place_rows_lookup _ _ _ _ k r) by (done || lia). done. }
    rewrite (xor_prev_lookup _ _ _ a HPa).
    rewrite (list_lookup_total_correct _ _ _ Ha). do 2 f_equal.
    destruct k as [|k'].
    + by rewrite decide_True by lia.
    + rewrite decide_False by lia.
      destruct (lookup_lt_is_Some_2 rows k') as [r' Hr']; [lia|].
      rewrite (list_lookup_total_correct _ _ _ Hr').
      assert (Hr'h : (r' < h)%nat) by (by eapply Forall_lookup_1 in Hlt).
      destruct (lookup_lt_is_Some_2 srcview (r' * stride + j)) as [b Hb]; [nia|].
      rewrite (list_lookup_total_correct _ _ _ Hb).
      replace (S k' * (stride + 1) + S j - (stride + 1))%nat
        with (k' * (stride + 1) + S j)%nat by lia.
      unfold P. rewrite (place_rows_lookup _ _ _ _ k' r') by (done || lia).
      by rewrite Hb.
  - intros k Hk.
    destruct (lookup_lt_is_Some_2 rows k) as [r Hr]; [lia|].
    destruct (lookup_lt_is_Some_2 workview (k * (stride + 1))) as [a Ha]; [nia|].
    assert (HPa : P !! (k * (stride + 1))%nat = Some a).
    { unfold P. pose proof (place_rows_lookup srcview workview stride rows k r 0) as Hp.
      rewrite Nat.add_0_r in Hp. rewrite Hp by (done || lia). done. }
    rewrite (xor_prev_lookup _ _ _ a HPa).
    rewrite (list_lookup_total_correct _ _ _ Ha). do 2 f_equal.
    destruct k as [|k'].
    + by rewrite decide_True by lia.
    + rewrite decide_False by lia.
      destruct (lookup_lt_is_Some_2 rows k') as [r' Hr']; [lia|].
      destruct (lookup_lt_is_Some_2 workview (k' * (stride + 1))) as [b Hb]; [nia|].
      rewrite (list_lookup_total_correct _ _ _ Hb).
      replace (S k' * (stride + 1) - (stride + 1))%nat
        with (k' * (stride + 1))%nat by lia.
      unfold P. pose proof (place_rows_lookup srcview workview stride rows k' r' 0) as Hp.
      rewrite Nat.add_0_r in Hp. rewrite Hp by (done || lia). by rewrite Hb.
  - intros ->.
    rewrite <- (take_ge P (stride + 1)) at 2 by lia.
    rewrite <- xor_prev_take. symmetry. apply take_ge.
    rewrite xor_prev_length. lia.
Qed.

Lemma VerticalIX_rows_witness :
  let srcview := [1; 2; 3; 4; 5; 6; 7; 8; 9; 10; 11; 12] in
  let workview := replicate 15 0 in
  let rows := [0; 2; 1]%nat in
  ∃ out, VerticalIX srcview workview 8 3 (Some <$> rows) = Ok out ∧
    length out = length workview ∧
    (∀ k r j, rows !! k = Some r → (j < row_stride 8)%nat →
       out !! (k * (row_stride 8 + 1) + S j)%nat
       = Some (Z.lxor (srcview !!! (r * row_stride 8 + j)%nat)
                 match k with
                 | O => 0
                 | S k' => srcview !!! ((rows !!! k') * row_stride 8 + j)%nat
                 end)) ∧
    (∀ k, (k < 3)%nat →
       out !! (k * (row_stride 8 + 1))%nat
       = Some (Z.lxor (workview !!! (k * (row_stride 8 + 1))%nat)
                 match k with
                 | O => 0
                 | S k' => workview !!! (k' * (row_stride 8 + 1))%nat
                 end)) ∧
    (3%nat = 1%nat → out = place_rows srcview (row_stride 8) workview rows).
Proof.
  intros srcview workview rows.
  apply (VerticalIX_rows srcview workview 8 3 rows);
    [reflexivity|reflexivity|reflexivity|].
  repeat constructor.
Defined.

(** ** The horizontal transform: candidates *)

(** One visit of the candidate loop on the payload part of the row: byte
    [i] of the candidate becomes the XOR of the source byte [i] with the
    source byte visited before. The state is [(body, lastbyte)]. *)
Definition delta_step (payload : list Z) (st : list Z * Z) (i : nat)
    : list Z * Z :=
  (<[i := Z.lxor st.2 (payload !!! i)]> st.1, payload !!! i).

Definition delta_fold (payload : list Z) (order : list nat) (st : list Z * Z)
    : list Z * Z :=
  foldl (delta_step payload) st order.

(** The payload of the candidate of a step whose table entry is [order]. *)
Definition hfilter (order : list nat) (payload : list Z) : list Z :=
  (delta_fold payload order (replicate (length payload) 0, 0)).1.

Lemma delta_fold_cons (payload : list Z) (i : nat) (order : list nat)
    (body : list Z) (last : Z) :
  delta_fold payload (i :: order) (body, last)
  = delta_fold payload order
      (<[i := Z.lxor last (payload !!! i)]> body, payload !!! i).
Proof. done. Qed.

Lemma delta_fold_length (payload : list Z) (order : list nat) (body : list Z)
    (last : Z) :
  length (delta_fold payload order (body, last)).1 = length body.
Proof.
  revert body last. induction order as [|i order IH]; intros body last; [done|].
  by rewrite delta_fold_cons, IH, length_insert.
Qed.

Lemma hfilter_length (order : list nat) (payload : list Z) :
  length (hfilter order payload) = length payload.
Proof. unfold hfilter. by rewrite delta_fold_length, length_replicate. Qed.

(** Bytes that are not visited keep their value. *)
Lemma delta_fold_other (payload : list Z) (order : list nat) (body : list Z)
    (last : Z) (i : nat) :
  i ∉ order → (delta_fold payload order (body, last)).1 !! i = body !! i.
Proof.
  revert body last. induction order as [|a order IH]; intros body last Hi; [done|].
  apply not_elem_of_cons in Hi as [Hia Hi].
  rewrite delta_fold_cons, IH by done. by rewrite list_lookup_insert_ne.
Qed.

(** A byte visited once holds the XOR of its source byte with the source
    byte visited just before (0 before the first). *)
Lemma delta_fold_visited (payload : list Z) (order : list nat) (body : list Z)
    (last : Z) (x i : nat) :
  NoDup order → order !! x = Some i → (i < length body)%nat →
  (delta_fold payload order (body, last)).1 !! i
  = Some (Z.lxor match x with
                 | O => last
                 | S x' => payload !!! (order !!! x')
                 end (payload !!! i)).
Proof.
  revert body last x. induction order as [|a order IH]; intros body last x Hnd Hx Hi;
    [done|].
  apply NoDup_cons in Hnd as [Ha Hnd]. rewrite delta_fold_cons.
  destruct x as [|x]; simpl in Hx.
  - inversion Hx; subst a. rewrite delta_fold_other by done.
    by rewrite list_lookup_insert_eq.
  - rewrite (IH _ _ x) by (rewrite ?length_insert; done).
    destruct x as [|x]; [by inversion Hx|done].
Qed.

(** When every position is visited, the body the loop starts from does
    not matter. *)
Lemma delta_fold_covered (payload : list Z) (order : list nat) (b1 b2 : list Z)
    (last : Z) :
  length b1 = length b2 →
  (∀ i, i ∉ order → b1 !! i = b2 !! i) →
  (delta_fold payload order (b1, last)).1 = (delta_fold payload order (b2, last)).1.
Proof.
  revert b1 b2 last. induction order as [|a order IH]; intros b1 b2 last Hlen Hag.
  - apply list_eq. intros i. apply Hag. apply not_elem_of_nil.
  - rewrite !delta_fold_cons. apply IH.
    + by rewrite !length_insert.
    + intros i Hi. destruct (decide (i = a)) as [->|Hne].
      * destruct (decide (a < length b1)%nat).
        -- by rewrite !list_lookup_insert_eq by lia.
        -- rewrite !(proj2 (lookup_ge_None _ _)); [done| |];
             rewrite length_insert; lia.
      * rewrite !list_lookup_insert_ne by done. apply Hag.
        rewrite elem_of_cons. tauto.
Qed.

Lemma hfilter_any_start (order : list nat) (payload body : list Z) :
  order ≡ₚ seq 0 (length payload) → length body = length payload →
  (delta_fold payload order (body, 0)).1 = hfilter order payload.
Proof.
  intros Hp Hlen. unfold hfilter. apply delta_fold_covered.
  - by rewrite length_replicate.
  - intros i Hi. rewrite Hp, elem_of_seq in Hi.
    rewrite !(proj2 (lookup_ge_None _ _)); [done| |];
      rewrite ?length_replicate; lia.
Qed.

(** The rows of [rowbuf]: one per step, led by the step. *)
Definition rowbuf_ok (stride : nat) (rowbuf : gmap nat (list Z)) : Prop :=
  ∀ s, (s < 0x51)%nat →
    ∃ body, rowbuf !! s = Some (Z.of_nat s :: body) ∧ length body = stride.

Section candidates.
Variables (workview : list Z) (stride rowstart : nat).
Hypothesis row_inside : (rowstart + stride ≤ length workview)%nat.

Definition row_payload : list Z := take stride (drop rowstart workview).

Lemma row_payload_length : length row_payload = stride.
Proof using row_inside.
  unfold row_payload. rewrite length_take, length_drop. lia.
Qed.

Lemma row_payload_lookup (i : nat) :
  (i < stride)%nat → workview !! (rowstart + i)%nat = Some (row_payload !!! i).
Proof using row_inside.
  intros Hi. destruct (lookup_lt_is_Some_2 workview (rowstart + i)) as [a Ha]; [lia|].
  rewrite Ha. f_equal. symmetry. apply list_lookup_total_correct.
  unfold row_payload. rewrite lookup_take_lt by done. by rewrite lookup_drop.
Qed.

(** Lines 81-84 as a fold over the table entry. *)
Lemma candidate_loop (hrz : nat) (m : Z) (done todo : list nat)
    (rowbuf : gmap nat (list Z)) (body : list Z) (last : Z) :
  Forall (λ i, i < stride)%nat todo → length body = stride →
  rowbuf !! hrz = Some (m :: body) →
  foldM (candidate_byte workview rowstart hrz (Some <$> (done ++ todo)))
    (rowbuf, last) (seq (length done) (length todo))
  = Ok (<[hrz := m :: (delta_fold row_payload todo (body, last)).1]> rowbuf,
        (delta_fold row_payload todo (body, last)).2).
Proof using row_inside.
  revert done rowbuf body last.
  induction todo as [|i todo IH]; intros done rowbuf body last Hlt Hlen Hrow.
  - simpl. by rewrite insert_id.
  - apply Forall_cons in Hlt as [Hi Hlt]. rewrite delta_fold_cons.
    cbn [length seq foldM candidate_byte].
    assert (Hlk : (Some <$> done ++ i :: todo) !! length done = Some (Some i)).
    { rewrite list_lookup_fmap, lookup_app_r by lia.
      by rewrite Nat.sub_diag. }
    rewrite (getitem_nat _ _ _ Hlk).
    cbn [mbind result_bind as_int].
    rewrite <- Nat2Z.inj_add.
    rewrite (getitem_nat _ _ _ (row_payload_lookup i Hi)).
    unfold getkey. rewrite Hrow. cbn [mbind result_bind].
    replace (Z.of_nat i + 1) with (Z.of_nat (S i)) by lia.
    rewrite setitem_nat by (simpl; lia). cbn [mbind result_bind].
    cbn [insert list_insert].
    replace (done ++ i :: todo) with ((done ++ [i]) ++ todo)
      by (by rewrite <- app_assoc).
    replace (S (length done)) with (length (done ++ [i]))
      by (rewrite length_app; simpl; lia).
    rewrite (IH _ _ (<[i:=Z.lxor last (row_payload !!! i)]> body));
      [|done|by rewrite length_insert|by rewrite lookup_insert_eq].
    by rewrite insert_insert_eq.
Qed.
End candidates.

(** The table [Compress] hands to [HorizontalIX]. *)
Definition lookup_ok (stride : nat) (hrz_lookup : gmap nat (list (option nat))) : Prop :=
  ∀ s, (1 ≤ s < 0x51)%nat →
    hrz_lookup !! s = Some (Some <$> interlace_perm stride s).

Lemma MakeInterlaceTable_lookup_ok (stride : nat) :
  ∃ hrz_lookup, MakeInterlaceTable stride hrz_steps = Ok hrz_lookup ∧
    lookup_ok stride hrz_lookup.
Proof.
  destruct (MakeInterlaceTable_lookup stride hrz_steps) as (t & Hrun & Hlk).
  exists t. split; [done|]. intros s Hs. rewrite Hlk.
  rewrite decide_True; [done|]. split; [lia|].
  unfold hrz_steps, range. apply elem_of_seq. lia.
Qed.

(** The candidate of step [s] for a row of payload [payload]: the step,
    then the payload itself for step 0 and its filtered form otherwise. *)
Definition candidate (stride : nat) (payload : list Z) (s : nat) : list Z :=
  Z.of_nat s :: (if decide (s = 0%nat) then payload
                 else hfilter (interlace_perm stride s) payload).

Lemma candidate_length (stride : nat) (payload : list Z) (s : nat) :
  length payload = stride → length (candidate stride payload s) = S stride.
Proof.
  intros Hp. unfold candidate. simpl. case_decide; [by rewrite Hp|].
  by rewrite hfilter_length, Hp.
Qed.

Section build_candidates.
Variables (workview : list Z) (stride rowstart : nat).
Variable hrz_lookup : gmap nat (list (option nat)).
Hypothesis row_inside : (rowstart + stride ≤ length workview)%nat.
Hypothesis table_ok : lookup_ok stride hrz_lookup.

#[local] Abbreviation payload := (row_payload workview stride rowstart).

Lemma candidate_row_spec (rowbuf : gmap nat (list Z)) (s : nat) (body : list Z) :
  (1 ≤ s < 0x51)%nat →
  rowbuf !! s = Some (Z.of_nat s :: body) → length body = stride →
  candidate_row workview stride rowstart hrz_lookup rowbuf s
  = Ok (<[s := candidate stride payload s]> rowbuf).
Proof using row_inside table_ok.
  intros Hs Hrow Hbody. unfold candidate_row.
  rewrite decide_False by lia. unfold getkey. rewrite (table_ok s Hs).
  cbn [mbind result_bind].
  pose proof (interlace_perm_Permutation stride s ltac:(lia)) as Hperm.
  pose proof (Permutation_length Hperm) as Hlen. rewrite length_seq in Hlen.
  pose proof (candidate_loop workview stride rowstart row_inside s (Z.of_nat s)
                [] (interlace_perm stride s) rowbuf body 0) as Hloop.
  cbn [app length] in Hloop. rewrite Hlen in Hloop. unfold range.
  rewrite Hloop; [|apply Forall_forall; intros i Hi; rewrite Hperm in Hi;
                    apply elem_of_seq in Hi; lia|done|done].
  cbn [mbind result_bind]. do 2 f_equal. unfold candidate.
  rewrite decide_False by lia. f_equal.
  apply hfilter_any_start; rewrite row_payload_length; done.
Qed.

Lemma candidates_fold (steps : list nat) (rowbuf : gmap nat (list Z)) :
  Forall (λ s, s < 0x51)%nat steps →
  rowbuf_ok stride rowbuf →
  ∃ rowbuf', foldM (candidate_row workview stride rowstart hrz_lookup)
               rowbuf steps = Ok rowbuf' ∧
    ∀ s, rowbuf' !! s = if decide (s ∈ steps ∧ s ≠ 0%nat)
                        then Some (candidate stride payload s)
                        else rowbuf !! s.
Proof using row_inside table_ok.
  revert rowbuf. induction steps as [|s steps IH]; intros rowbuf Hlt Hok.
  - exists rowbuf. split; [done|]. intros s.
    rewrite decide_False; [done|]. rewrite elem_of_nil. tauto.
  - apply Forall_cons in Hlt as [Hs Hlt]. cbn [foldM].
    destruct (decide (s = 0%nat)) as [->|Hs0].
    + change (candidate_row workview stride rowstart hrz_lookup rowbuf 0)
        with (Ok rowbuf). cbn [mbind result_bind].
      destruct (IH rowbuf Hlt Hok) as (rb' & Hrun & Hlk).
      exists rb'. split; [done|]. intros k. rewrite Hlk.
      destruct (decide (k ∈ steps ∧ k ≠ 0%nat)) as [Hk|Hk].
      * rewrite decide_True; [done|]. rewrite elem_of_cons. tauto.
      * rewrite decide_False; [done|]. rewrite elem_of_cons.
        intros [[?|?] ?]; [done|tauto].
    + destruct (Hok s Hs) as (body & Hrow & Hbody).
      rewrite (candidate_row_spec rowbuf s body) by (done || lia).
      cbn [mbind result_bind].
      destruct (IH (<[s := candidate stride payload s]> rowbuf) Hlt)
        as (rb' & Hrun & Hlk).
      { intros k Hk. destruct (decide (k = s)) as [->|Hne].
        - rewrite lookup_insert_eq. eexists. split; [done|].
          case_decide; [done|]. by rewrite hfilter_length, row_payload_length.
        - rewrite lookup_insert_ne by done. by apply Hok. }
      exists rb'. split; [done|]. intros k. rewrite Hlk.
      destruct (decide (k ∈ steps ∧ k ≠ 0%nat)) as [Hk|Hk].
      * rewrite decide_True; [done|]. rewrite elem_of_cons. tauto.
      * destruct (decide (k = s)) as [->|Hne].
        -- rewrite lookup_insert_eq, decide_True; [done|].
           rewrite elem_of_cons. tauto.
        -- rewrite lookup_insert_ne by done.
           rewrite decide_False; [done|]. rewrite elem_of_cons. tauto.
Qed.

(** Lines 76-84: whatever the rows of [rowbuf] held, they now hold the
    candidates of this row. *)
Lemma build_candidates_spec (rowbuf : gmap nat (list Z)) :
  rowbuf_ok stride rowbuf →
  ∃ rowbuf', build_candidates workview stride rowstart hrz_lookup rowbuf
             = Ok rowbuf' ∧
    (∀ s, (s < 0x51)%nat → rowbuf' !! s = Some (candidate stride payload s)) ∧
    (∀ s, (0x51 ≤ s)%nat → rowbuf' !! s = rowbuf !! s).
Proof using row_inside table_ok.
  intros Hok. unfold build_candidates.
  destruct (Hok 0%nat ltac:(lia)) as (body0 & Hrow0 & Hbody0).
  unfold getkey. rewrite Hrow0. cbn [mbind result_bind].
  assert (Hset : ba_setslice (Z.of_nat 0 :: body0) 1 (1 + stride)
                   (slice workview rowstart (rowstart + stride))
                 = candidate stride payload 0).
  { unfold ba_setslice. change 1 with (Z.of_nat 1).
    rewrite <- !Nat2Z.inj_add, !clamp_nat, slice_nat by done.
    cbn [length]. rewrite Hbody0.
    replace (Nat.min 1 (S stride)) with 1%nat by lia.
    replace (Nat.max 1 (Nat.min (1 + stride) (S stride))) with (S stride) by lia.
    rewrite (drop_ge (_ :: body0)) by (cbn [length]; lia).
    by rewrite app_nil_r. }
  rewrite Hset.
  destruct (candidates_fold hrz_steps (<[0%nat := candidate stride payload 0]> rowbuf))
    as (rb' & Hrun & Hlk).
  { apply Forall_forall. intros s Hs. apply elem_of_seq in Hs. lia. }
  { intros k Hk. destruct (decide (k = 0%nat)) as [->|Hne].
    - rewrite lookup_insert_eq. eexists. split; [done|].
      simpl. by rewrite row_payload_length.
    - rewrite lookup_insert_ne by done. by apply Hok. }
  exists rb'. split; [done|]. split.
  - intros s Hs. rewrite Hlk. destruct (decide (s = 0%nat)) as [->|Hne].
    + rewrite decide_False by tauto. by rewrite lookup_insert_eq.
    + rewrite decide_True; [done|]. split; [|done].
      unfold hrz_steps, range. apply elem_of_seq. lia.
  - intros s Hs. rewrite Hlk. rewrite decide_False.
    + rewrite lookup_insert_ne by lia. done.
    + unfold hrz_steps, range. rewrite elem_of_seq. lia.
Qed.
End build_candidates.

(** ** The horizontal transform: estimate and selection *)

(** The estimate of lines 92-105 as a fold over the bytes of the row. *)
Definition cost (rowstart : Z) (row : list Z) : Z :=
  (foldl estimate_update (0, 0, rowstart) row).1.2.

Lemma estimate_loop (pre suf : list Z) (st : Z * Z * Z) :
  foldM (estimate_byte (pre ++ suf)) st (seq (length pre) (length suf))
  = Ok (foldl estimate_update st suf).
Proof.
  revert pre st. induction suf as [|b suf IH]; intros pre st; [done|].
  cbn [length seq foldM foldl].
  assert (Hb : estimate_byte (pre ++ b :: suf) st (length pre)
               = Ok (estimate_update st b)).
  { unfold estimate_byte.
    by rewrite (getitem_nat _ _ b)
      by (rewrite lookup_app_r, Nat.sub_diag by lia; done). }
  rewrite Hb. cbn [mbind result_bind].
  replace (pre ++ b :: suf) with ((pre ++ [b]) ++ suf) by (by rewrite <- app_assoc).
  replace (S (length pre)) with (length (pre ++ [b]))
    by (rewrite length_app; simpl; lia).
  apply IH.
Qed.

Lemma estimate_bits_spec (row : list Z) (stride : nat) (rowstart : Z) :
  length row = S stride → estimate_bits row stride rowstart = Ok (cost rowstart row).
Proof.
  intros Hlen. unfold estimate_bits, range, cost.
  replace (stride + 1)%nat with (length row) by lia.
  rewrite (estimate_loop [] row). cbn [mbind result_bind].
  by destruct (foldl estimate_update (0, 0, rowstart) row) as [[? ?] ?].
Qed.

(** Lines 106-108 for a candidate of cost [cost_of hrz]. *)
Definition select_update (cost_of : nat → Z) (st : Z * option nat) (hrz : nat)
    : Z * option nat :=
  if cost_of hrz <? st.1 then (cost_of hrz, Some hrz) else st.

Lemma select_loop (rowbuf : gmap nat (list Z)) (stride : nat) (rowstart : Z)
    (cands : nat → list Z) (steps : list nat) (st : Z * option nat) :
  Forall (λ s, rowbuf !! s = Some (cands s) ∧ length (cands s) = S stride) steps →
  foldM (select_step rowbuf stride rowstart) st steps
  = Ok (foldl (select_update (λ s, cost rowstart (cands s))) st steps).
Proof.
  revert st. induction steps as [|s steps IH]; intros st Hs; [done|].
  apply Forall_cons in Hs as [[Hrow Hlen] Hs].
  cbn [foldM foldl]. destruct st as [bestbits besthrz].
  assert (Hstep : select_step rowbuf stride rowstart (bestbits, besthrz) s
                  = Ok (select_update (λ s, cost rowstart (cands s))
                          (bestbits, besthrz) s)).
  { unfold select_step, getkey, select_update. rewrite Hrow.
    cbn [mbind result_bind]. rewrite estimate_bits_spec by done.
    cbn [mbind result_bind fst].
    by destruct (cost rowstart (cands s) <? bestbits). }
  rewrite Hstep. cbn [mbind result_bind]. by apply IH.
Qed.

(** What a run of the selection loop leaves: a lower bound of all the
    costs seen, and either the state it started from or the first
    candidate that reaches that bound. *)
Lemma select_fold_min (cost_of : nat → Z) (steps : list nat) (v0 : Z)
    (o0 : option nat) :
  ∃ v o, foldl (select_update cost_of) (v0, o0) steps = (v, o) ∧
    v ≤ v0 ∧ Forall (λ s, v ≤ cost_of s) steps ∧
    ((v = v0 ∧ o = o0) ∨
     ∃ l1 b l2, steps = l1 ++ b :: l2 ∧ o = Some b ∧ v = cost_of b ∧ v < v0 ∧
       Forall (λ s, cost_of b < cost_of s) l1).
Proof.
  induction steps as [|s steps IH] using rev_ind.
  - exists v0, o0. repeat split; [lia|constructor|by left].
  - destruct IH as (v & o & Hrun & Hle & Hall & Hcase).
    rewrite foldl_app, Hrun. cbn [foldl]. unfold select_update at 1. cbn [fst snd].
    destruct (Z.ltb_spec (cost_of s) v) as [Hlt|Hge].
    + exists (cost_of s), (Some s). repeat split; [lia| |].
      * apply Forall_app. split; [|by repeat constructor].
        eapply Forall_impl; [exact Hall|]. intros; simpl in *; lia.
      * right. exists steps, s, []. repeat split; [lia|].
        eapply Forall_impl; [exact Hall|]. intros; simpl in *; lia.
    + exists v, o. repeat split; [done| |].
      * apply Forall_app. split; [done|]. by repeat constructor.
      * destruct Hcase as [?|(l1 & b & l2 & -> & ? & ? & ? & ?)]; [by left|].
        right. exists l1, b, (l2 ++ [s]). rewrite <- app_assoc. by repeat split.
Qed.

(** The step kept for a row, [besthrz] being what the previous row left. *)
Definition best_step (cost_of : nat → Z) (besthrz : option nat) : option nat :=
  (foldl (select_update cost_of) (0xFFFF, besthrz) hrz_steps).2.

Lemma best_step_range (cost_of : nat → Z) (besthrz : option nat) (b : nat) :
  (∀ b0, besthrz = Some b0 → (b0 < 0x51)%nat) →
  best_step cost_of besthrz = Some b → (b < 0x51)%nat.
Proof.
  intros Hb0. unfold best_step.
  destruct (select_fold_min cost_of hrz_steps 0xFFFF besthrz)
    as (v & o & Hrun & _ & _ & Hcase).
  rewrite Hrun. cbn [snd]. intros ->.
  destruct Hcase as [[_ ?]|(l1 & b' & l2 & Hsplit & Ho & _)]; [by apply Hb0|].
  inversion Ho; subst b'.
  assert (Hin : b ∈ hrz_steps).
  { rewrite Hsplit. apply elem_of_app. right. apply elem_of_cons. by left. }
  unfold hrz_steps, range in Hin. apply elem_of_seq in Hin. lia.
Qed.

(** With some candidate cheaper than the initial [0xFFFF] the step kept is
    the first of the cheapest. *)
Lemma best_step_min (cost_of : nat → Z) (besthrz : option nat) (s0 : nat) :
  (s0 < 0x51)%nat → cost_of s0 < 0xFFFF →
  ∃ b, best_step cost_of besthrz = Some b ∧ (b < 0x51)%nat ∧
    (∀ s, (s < 0x51)%nat → cost_of b ≤ cost_of s) ∧
    (∀ s, (s < b)%nat → cost_of b < cost_of s).
Proof.
  intros Hs0 Hc0. unfold best_step.
  destruct (select_fold_min cost_of hrz_steps 0xFFFF besthrz)
    as (v & o & Hrun & Hle & Hall & Hcase).
  rewrite Hrun. cbn [snd].
  assert (Hv : v ≤ cost_of s0).
  { eapply Forall_forall in Hall; [exact Hall|].
    unfold hrz_steps, range. apply elem_of_seq. lia. }
  destruct Hcase as [[-> _]|(l1 & b & l2 & Hsplit & -> & -> & _ & Hl1)]; [lia|].
  assert (Hl1seq : l1 = seq 0 b ∧ (b < 0x51)%nat).
  { unfold hrz_steps, range in Hsplit.
    assert (Hb : seq 0 0x51 !! length l1 = Some b)
      by (rewrite Hsplit, lookup_app_r, Nat.sub_diag by lia; done).
    apply lookup_seq in Hb as [Hb Hlt]. simpl in Hb. subst b. split; [|done].
    apply (f_equal (take (length l1))) in Hsplit.
    rewrite take_app_length, take_seq, Nat.min_l in Hsplit by lia. done. }
  destruct Hl1seq as [-> Hb].
  exists b. repeat split; [done| |].
  - intros s Hs. eapply Forall_forall in Hall; [exact Hall|].
    unfold hrz_steps, range. apply elem_of_seq. lia.
  - intros s Hs. eapply Forall_forall in Hl1; [exact Hl1|].
    apply elem_of_seq. lia.
Qed.

(** ** The horizontal transform: rows *)

(** The cost of the candidate of step [s] for the row at [rowstart]. *)
Definition candidate_cost (stride rowstart : nat) (payload : list Z) (s : nat) : Z :=
  cost rowstart (candidate stride payload s).

Section horizontal_row.
Variables (stride : nat) (hrz_lookup : gmap nat (list (option nat))).
Hypothesis table_ok : lookup_ok stride hrz_lookup.

(** Lines 74-113 for the row whose leading byte is at [length pre]. *)
Lemma horizontal_row_spec (pre work : list Z) (rowbuf : gmap nat (list Z))
    (besthrz : option nat) (y : nat) :
  (stride + 1 ≤ length work)%nat →
  rowbuf_ok stride rowbuf →
  (∀ b0, besthrz = Some b0 → (b0 < 0x51)%nat) →
  let payload := take stride (drop 1 work) in
  ∃ rowbuf', rowbuf_ok stride rowbuf' ∧
    horizontal_row stride hrz_lookup
      (pre ++ work, rowbuf, Z.of_nat (length pre + 1), besthrz) y
    = match best_step (candidate_cost stride (length pre + 1) payload) besthrz with
      | None => Raise UnboundLocalError
      | Some b =>
          Ok ((pre ++ candidate stride payload b) ++ drop (stride + 1) work,
              rowbuf',
              Z.of_nat (length (pre ++ candidate stride payload b) + 1),
              Some b)
      end.
Proof using table_ok.
  intros Hwork Hok Hbest payload.
  assert (Hin : (length pre + 1 + stride ≤ length (pre ++ work))%nat)
    by (rewrite length_app; lia).
  assert (Hpay : row_payload (pre ++ work) stride (length pre + 1) = payload).
  { unfold row_payload, payload. by rewrite drop_app_add. }
  assert (Hplen : length payload = stride).
  { unfold payload. rewrite length_take, length_drop. lia. }
  destruct (build_candidates_spec (pre ++ work) stride (length pre + 1)
              hrz_lookup Hin table_ok rowbuf Hok) as (rb' & Hbuild & Hc & _).
  rewrite Hpay in Hc.
  assert (Hok' : rowbuf_ok stride rb').
  { intros s Hs. rewrite (Hc s Hs). eexists. split; [done|].
    case_decide; [done|]. by rewrite hfilter_length. }
  exists rb'. split; [done|].
  unfold horizontal_row. rewrite Hbuild. cbn [mbind result_bind].
  rewrite (select_loop rb' stride _ (candidate stride payload)).
  2:{ apply Forall_forall. intros s Hs. apply elem_of_seq in Hs.
      split; [apply Hc; lia|by apply candidate_length]. }
  cbn [mbind result_bind]. unfold best_step, candidate_cost.
  destruct (foldl _ _ hrz_steps) as [v o] eqn:Hfold. cbn [snd].
  destruct o as [b|]; cbn [bound mbind result_bind]; [|done].
  assert (Hb : (b < 0x51)%nat).
  { apply (best_step_range (λ s, cost (Z.of_nat (length pre + 1))
                                   (candidate stride payload s)) besthrz b Hbest).
    unfold best_step. by rewrite Hfold. }
  unfold getkey. rewrite (Hc b Hb). cbn [mbind result_bind].
  set (cand := candidate stride payload b).
  assert (Hclen : length cand = S stride) by (by apply candidate_length).
  replace (Z.of_nat (length pre + 1) - 1) with (Z.of_nat (length pre)) by lia.
  replace (Z.of_nat (length pre + 1) + Z.of_nat stride)
    with (Z.of_nat (length pre + length cand)) by lia.
  rewrite mv_setslice_nat by (rewrite length_app; lia).
  cbn [mbind result_bind].
  rewrite take_app_length, drop_app_add, Hclen.
  rewrite <- app_assoc, length_app, Hclen.
  replace (stride + 1)%nat with (S stride) by lia.
  by replace (Z.of_nat (length pre + S stride) + 1)
    with (Z.of_nat (length pre + S stride + 1)) by lia.
Qed.

(** The [n] rows of [work], the first at [rowstart - 1], after the
    search; [None] when no candidate was ever kept. *)
Fixpoint hix_rows (rowstart : nat) (besthrz : option nat) (n : nat)
    (work : list Z) : option (list Z) :=
  match n with
  | O => Some work
  | S n' =>
      let payload := take stride (drop 1 work) in
      match best_step (candidate_cost stride rowstart payload) besthrz with
      | None => None
      | Some b =>
          rest ← hix_rows (rowstart + stride + 1) (Some b) n'
                   (drop (stride + 1) work);
          Some (candidate stride payload b ++ rest)
      end
  end.

Lemma horizontal_rows_spec (n y0 : nat) (pre work : list Z)
    (rowbuf : gmap nat (list Z)) (besthrz : option nat) :
  (n * (stride + 1) ≤ length work)%nat →
  rowbuf_ok stride rowbuf →
  (∀ b0, besthrz = Some b0 → (b0 < 0x51)%nat) →
  ∃ rowbuf' rowstart' besthrz', rowbuf_ok stride rowbuf' ∧
    foldM (horizontal_row stride hrz_lookup)
      (pre ++ work, rowbuf, Z.of_nat (length pre + 1), besthrz) (seq y0 n)
    = match hix_rows (length pre + 1) besthrz n work with
      | None => Raise UnboundLocalError
      | Some out => Ok (pre ++ out, rowbuf', rowstart', besthrz')
      end.
Proof using table_ok.
  revert y0 pre work rowbuf besthrz.
  induction n as [|n IH]; intros y0 pre work rowbuf besthrz Hlen Hok Hbest.
  - exists rowbuf, (Z.of_nat (length pre + 1)), besthrz. by split.
  - cbn [seq foldM hix_rows].
    destruct (horizontal_row_spec pre work rowbuf besthrz y0)
      as (rb1 & Hok1 & Hrow); [lia|done|done|].
    rewrite Hrow. clear Hrow.
    set (payload := take stride (drop 1 work)).
    pose proof (best_step_range (candidate_cost stride (length pre + 1) payload)
                  besthrz) as Hrange.
    destruct (best_step _ besthrz) as [b|]; cbn [mbind result_bind].
    2:{ exists rowbuf, 0, None. by split. }
    assert (Hplen : length payload = stride).
    { unfold payload. rewrite length_take, length_drop. lia. }
    destruct (IH (S y0) (pre ++ candidate stride payload b)
                (drop (stride + 1) work) rb1 (Some b))
      as (rb2 & rs2 & bh2 & Hok2 & Hrest).
    { rewrite length_drop. lia. }
    { done. }
    { intros b0 Hb0. inversion Hb0; subst b0. by apply Hrange. }
    rewrite Hrest.
    replace (length (pre ++ candidate stride payload b) + 1)%nat
      with (length pre + 1 + stride + 1)%nat
      by (rewrite length_app, candidate_length by done; lia).
    exists rb2, rs2, bh2. split; [done|].
    match goal with |- context [hix_rows ?a ?b ?c ?d] =>
      destruct (hix_rows a b c d) as [rest|] end; simpl; [|done].
    by rewrite <- app_assoc.
Qed.
End horizontal_row.

Lemma HorizontalIX_spec (workview : list Z) (rowbuf : gmap nat (list Z))
    (w h : nat) (hrz_lookup : gmap nat (list (option nat))) :
  lookup_ok (row_stride w) hrz_lookup →
  rowbuf_ok (row_stride w) rowbuf →
  (h * (row_stride w + 1) ≤ length workview)%nat →
  ∃ rowbuf', rowbuf_ok (row_stride w) rowbuf' ∧
    HorizontalIX workview rowbuf w h hrz_lookup
    = match hix_rows (row_stride w) 1 None h workview with
      | None => Raise UnboundLocalError
      | Some out => Ok (out, rowbuf')
      end.
Proof.
  intros Htab Hok Hlen. unfold HorizontalIX. fold (row_stride w).
  destruct (horizontal_rows_spec (row_stride w) hrz_lookup Htab h 0 [] workview
              rowbuf None Hlen Hok) as (rb' & rs' & bh' & Hok' & Hrun); [done|].
  exists rb'. split; [done|].
  change (Z.of_nat (length (@nil Z) + 1)) with 1 in Hrun.
  cbn [app length Nat.add] in Hrun. unfold range. rewrite Hrun.
  by destruct (hix_rows _ 1 None h workview).
Qed.

Lemma lookup_ok_unique (stride : nat) (hrz_lookup : gmap nat (list (option nat))) :
  MakeInterlaceTable stride hrz_steps = Ok hrz_lookup → lookup_ok stride hrz_lookup.
Proof.
  intros Hrun. destruct (MakeInterlaceTable_lookup_ok stride) as (t & Ht & Hok).
  rewrite Hrun in Ht. by inversion Ht; subst t.
Qed.

Lemma interlace_perm_NoDup (N s : nat) : (0 < s)%nat → NoDup (interlace_perm N s).
Proof.
  intros Hs. rewrite (interlace_perm_Permutation N s Hs). apply NoDup_seq.
Qed.

Lemma interlace_perm_lt (N s x i : nat) :
  (0 < s)%nat → interlace_perm N s !! x = Some i → (i < N)%nat.
Proof.
  intros Hs Hx. apply list_elem_of_lookup_2 in Hx.
  rewrite (interlace_perm_Permutation N s Hs) in Hx.
  apply elem_of_seq in Hx. lia.
Qed.

(** The candidate payload as the specification words it: the payload
    bytes in the order of the permutation, each from the second on XORed
    with the already filtered byte before it. *)
Fixpoint spec_forward_filter (prev : Z) (l : list Z) : list Z :=
  match l with
  | [] => []
  | b :: l' => let o := Z.lxor b prev in o :: spec_forward_filter o l'
  end.

Definition spec_candidate (order : list nat) (s : nat) (payload : list Z) : list Z :=
  Z.of_nat s :: spec_forward_filter 0 ((λ i, payload !!! i) <$> order).

(** C4 as stated fails, already for step 1 where the permutation is the
    identity: for the payload 1, 2, 4, 8 the candidate is 1, 3, 6, 12
    (each byte XORed with the source byte before it), not 1, 3, 7, 15. *)
Lemma candidate_not_cumulative :
  (hrz_lookup ← MakeInterlaceTable 4 hrz_steps;
   rowbuf ← make_rowbuf 4;
   rowbuf ← build_candidates [0; 1; 2; 4; 8] 4 1 hrz_lookup rowbuf;
   Ok (rowbuf !! 1%nat)) = Ok (Some [1; 1; 3; 6; 12]) ∧
  spec_candidate (interlace_perm 4 1) 1 [1; 2; 4; 8] = [1; 1; 3; 7; 15].
Proof. split; by vm_compute. Qed.

(** C4, as the code has it. For a row inside the WorkBuffer and a step [s]
    in 1..0x50, the RowCandidate built by [HorizontalIX] has the marker
    [s]; its payload keeps every byte at its own position, and the byte at
    the position the permutation lists [x]-th is the source byte there
    XORed with the source byte (not the filtered one) at the position
    listed just before, the position listed first being copied as is. *)
Theorem HorizontalIX_candidate (workview : list Z) (stride rowstart : nat)
    (hrz_lookup : gmap nat (list (option nat))) (rowbuf : gmap nat (list Z))
    (s : nat) :
  (rowstart + stride ≤ length workview)%nat →
  MakeInterlaceTable stride hrz_steps = Ok hrz_lookup →
  rowbuf_ok stride rowbuf →
  (1 ≤ s ≤ 0x50)%nat →
  ∃ rowbuf' cand,
    build_candidates workview stride rowstart hrz_lookup rowbuf = Ok rowbuf' ∧
    rowbuf' !! s = Some (Z.of_nat s :: cand) ∧ length cand = stride ∧
    ∀ x i, interlace_perm stride s !! x = Some i →
      cand !! i
      = Some (Z.lxor match x with
                     | O => 0
                     | S x' => row_payload workview stride rowstart
                                 !!! (interlace_perm stride s !!! x')
                     end (row_payload workview stride rowstart !!! i)).
Proof.
  intros Hin Htab Hok Hs. apply lookup_ok_unique in Htab.
  destruct (build_candidates_spec workview stride rowstart hrz_lookup Hin Htab
              rowbuf Hok) as (rb' & Hrun & Hc & _).
  exists rb', (hfilter (interlace_perm stride s)
                 (row_payload workview stride rowstart)).
  split; [done|]. split.
  { rewrite Hc by lia. unfold candidate. by rewrite decide_False by lia. }
  split; [by rewrite hfilter_length, row_payload_length|].
  intros x i Hx. unfold hfilter. apply delta_fold_visited.
  - apply interlace_perm_NoDup. lia.
  - done.
  - rewrite length_replicate, row_payload_length by done.
    eapply interlace_perm_lt; [|done]. lia.
Qed.

Lemma make_rowbuf_spec (stride : nat) :
  ∃ rowbuf, make_rowbuf stride = Ok rowbuf ∧
    ∀ s, rowbuf !! s = if decide (s < 0x51)%nat
                       then Some (Z.of_nat s :: replicate stride 0) else None.
Proof.
  unfold make_rowbuf.
  assert (H : ∀ (steps : list nat) (rb0 : gmap nat (list Z)),
    Forall (λ s, s < 256)%nat steps →
    ∃ rowbuf,
      foldM (λ rowbuf (hrz : nat),
               row ← ba_setitem (replicate (stride + 1) 0) 0 hrz;
               Ok (<[hrz := row]> rowbuf)) rb0 steps = Ok rowbuf ∧
      ∀ s, rowbuf !! s = if decide (s ∈ steps)
                         then Some (Z.of_nat s :: replicate stride 0)
                         else rb0 !! s).
  { induction steps as [|s steps IH]; intros rb0 Hlt.
    - exists rb0. split; [done|]. intros s. by rewrite decide_False by apply not_elem_of_nil.
    - apply Forall_cons in Hlt as [Hs Hlt]. cbn [foldM].
      assert (Hrow : ba_setitem (replicate (stride + 1) 0) 0 (Z.of_nat s)
                     = Ok (Z.of_nat s :: replicate stride 0)).
      { unfold ba_setitem.
        destruct (Z.leb_spec 0 s); [|lia]. destruct (Z.ltb_spec s 256); [|lia].
        cbn [andb]. rewrite setitem_0 by (rewrite length_replicate; lia).
        by replace (stride + 1)%nat with (S stride) by lia. }
      rewrite Hrow. cbn [mbind result_bind].
      destruct (IH (<[s := Z.of_nat s :: replicate stride 0]> rb0) Hlt)
        as (rb & Hrun & Hlk).
      exists rb. split; [done|]. intros k. rewrite Hlk.
      destruct (decide (k ∈ steps)) as [Hk|Hk].
      + by rewrite decide_True by (rewrite elem_of_cons; tauto).
      + destruct (decide (k = s)) as [->|Hne].
        * by rewrite lookup_insert_eq, decide_True by (rewrite elem_of_cons; tauto).
        * rewrite lookup_insert_ne by done. by rewrite decide_False by (rewrite elem_of_cons; tauto). }
  destruct (H hrz_steps ∅) as (rb & Hrun & Hlk).
  { apply Forall_forall. intros s Hs. apply elem_of_seq in Hs. lia. }
  exists rb. split; [done|]. intros s. rewrite Hlk.
  unfold hrz_steps, range. destruct (decide (s < 0x51)%nat).
  - rewrite decide_True; [done|]. apply elem_of_seq. lia.
  - rewrite decide_False; [done|]. rewrite elem_of_seq. lia.
Qed.

Lemma make_rowbuf_ok (stride : nat) (rowbuf : gmap nat (list Z)) :
  make_rowbuf stride = Ok rowbuf → rowbuf_ok stride rowbuf.
Proof.
  intros Hrun. destruct (make_rowbuf_spec stride) as (rb & Hrb & Hlk).
  rewrite Hrun in Hrb. inversion Hrb; subst rb.
  intros s Hs. rewrite Hlk, decide_True by done.
  eexists. split; [done|]. by rewrite length_replicate.
Qed.

(** The value of a computation that is known to return. *)
Definition value_of {A : Type} (r : result A) (d : A) : A :=
  match r with Ok a => a | _ => d end.

Lemma HorizontalIX_candidate_witness :
  let workview := [0; 1; 2; 4; 8] in
  let hrz_lookup := value_of (MakeInterlaceTable 4 hrz_steps) ∅ in
  let rowbuf := value_of (make_rowbuf 4) ∅ in
  ∃ rowbuf' cand,
    build_candidates workview 4 1 hrz_lookup rowbuf = Ok rowbuf' ∧
    rowbuf' !! 2%nat = Some (Z.of_nat 2 :: cand) ∧ length cand = 4%nat ∧
    ∀ x i, interlace_perm 4 2 !! x = Some i →
      cand !! i
      = Some (Z.lxor match x with
                     | O => 0
                     | S x' => row_payload workview 4 1
                                 !!! (interlace_perm 4 2 !!! x')
                     end (row_payload workview 4 1 !!! i)).
Proof.
  intros workview hrz_lookup rowbuf.
  apply (HorizontalIX_candidate workview 4 1 hrz_lookup rowbuf 2).
  - simpl. lia.
  - by vm_compute.
  - apply make_rowbuf_ok. by vm_compute.
  - lia.
Defined.

(** ** The delta filters are undone by XOR accumulation *)

(** The decoder's side of the horizontal filter: the positions are
    visited in the order of the permutation, the running XOR of the
    candidate bytes visited so far being the restored byte. *)
Definition xor_accumulate_order (order : list nat) (cand : list Z) : list Z :=
  (foldl (λ st i, let v := Z.lxor st.2 (cand !!! i) in (<[i := v]> st.1, v))
         (cand, 0) order).1.

Lemma xor_accumulate_order_hfilter (order : list nat) (payload : list Z) :
  order ≡ₚ seq 0 (length payload) →
  xor_accumulate_order order (hfilter order payload) = payload.
Proof.
  intros Hperm. set (cand := hfilter order payload).
  assert (Hnd : NoDup order) by (rewrite Hperm; apply NoDup_seq).
  assert (Hclen : length cand = length payload) by apply hfilter_length.
  assert (Hlt : ∀ x i, order !! x = Some i → (i < length payload)%nat).
  { intros x i Hx. apply list_elem_of_lookup_2 in Hx. rewrite Hperm in Hx.
    apply elem_of_seq in Hx. lia. }
  set (prev := λ x : nat, match x with
                          | O => 0
                          | S x' => payload !!! (order !!! x')
                          end).
  assert (Hcand : ∀ x i, order !! x = Some i →
            cand !!! i = Z.lxor (prev x) (payload !!! i)).
  { intros x i Hx. apply list_lookup_total_correct. unfold cand, hfilter.
    apply delta_fold_visited; [done|done|].
    rewrite length_replicate. by eapply Hlt. }
  set (step := λ (st : list Z * Z) (i : nat),
         let v := Z.lxor st.2 (cand !!! i) in (<[i := v]> st.1, v)).
  assert (Hinv : ∀ x, (x ≤ length order)%nat →
    ∃ out, foldl step (cand, 0) (take x order) = (out, prev x) ∧
      length out = length payload ∧
      ∀ i, out !! i = if decide (i ∈ take x order) then Some (payload !!! i)
                      else cand !! i).
  { induction x as [|x IH]; intros Hx.
    - exists cand. split; [done|]. split; [done|]. intros i.
      by rewrite decide_False by apply not_elem_of_nil.
    - destruct IH as (out & Hrun & Hlen & Hout); [lia|].
      destruct (lookup_lt_is_Some_2 order x) as [i Hi]; [lia|].
      rewrite (take_S_r _ _ _ Hi), foldl_app, Hrun. cbn [foldl].
      unfold step at 1. cbn [fst snd].
      rewrite (Hcand x i Hi), <- Z.lxor_assoc, Z.lxor_nilpotent, Z.lxor_0_l.
      exists (<[i := payload !!! i]> out). split.
      { f_equal. unfold prev. by rewrite (list_lookup_total_correct _ _ _ Hi). }
      split; [by rewrite length_insert|]. intros k.
      destruct (decide (k = i)) as [->|Hne].
      + rewrite list_lookup_insert_eq by (rewrite Hlen; by eapply Hlt).
        rewrite decide_True; [done|]. rewrite elem_of_app, list_elem_of_singleton.
        by right.
      + rewrite list_lookup_insert_ne by done. rewrite Hout.
        destruct (decide (k ∈ take x order)) as [Hk|Hk].
        * rewrite decide_True; [done|]. rewrite elem_of_app. by left.
        * rewrite decide_False; [done|].
          rewrite elem_of_app, list_elem_of_singleton. tauto. }
  destruct (Hinv (length order)) as (out & Hrun & Hlen & Hout); [lia|].
  rewrite take_ge in Hrun, Hout by lia.
  unfold xor_accumulate_order. fold step. rewrite Hrun. cbn [fst].
  apply list_eq. intros i. rewrite Hout.
  destruct (decide (i < length payload)%nat) as [Hi|Hi].
  - rewrite decide_True by (rewrite Hperm; apply elem_of_seq; lia).
    destruct (lookup_lt_is_Some_2 payload i Hi) as [a Ha].
    by rewrite Ha, (list_lookup_total_correct _ _ _ Ha).
  - rewrite decide_False by (rewrite Hperm, elem_of_seq; lia).
    rewrite !(proj2 (lookup_ge_None _ _)); [done|lia|lia].
Qed.

(** C7. Both delta filters are undone by XOR accumulation. For a row
    inside the WorkBuffer and a step [s] in 1..0x50, accumulating the
    XOR of the candidate row built by [HorizontalIX] in the order of the
    step's permutation gives back the payload of the row; and accumulating
    forward, from the second row on, the XOR of the output of the backward
    row filter of [VerticalIX] with the row before gives back the buffer
    the filter was applied to. *)
Theorem delta_filters_invert (workview : list Z) (stride rowstart : nat)
    (hrz_lookup : gmap nat (list (option nat))) (rowbuf : gmap nat (list Z))
    (s h : nat) (W : list Z) :
  (rowstart + stride ≤ length workview)%nat →
  MakeInterlaceTable stride hrz_steps = Ok hrz_lookup →
  rowbuf_ok stride rowbuf →
  (1 ≤ s ≤ 0x50)%nat →
  length W = ((stride + 1) * h)%nat →
  (∃ rowbuf' cand,
     candidate_row workview stride rowstart hrz_lookup rowbuf s = Ok rowbuf' ∧
     rowbuf' !! s = Some (Z.of_nat s :: cand) ∧
     xor_accumulate_order (interlace_perm stride s) cand
     = slice workview rowstart (rowstart + stride)%nat) ∧
  (∃ out,
     vertical_filter stride h W (Z.of_nat (length W + 1)) = Ok out ∧
     xor_accumulate (stride + 1) out = W).
Proof.
  intros Hin Htab Hok Hs HW. apply lookup_ok_unique in Htab. split.
  - destruct (Hok s ltac:(lia)) as (body & Hrow & Hbody).
    exists (<[s := candidate stride (row_payload workview stride rowstart) s]> rowbuf),
           (hfilter (interlace_perm stride s) (row_payload workview stride rowstart)).
    split; [by apply (candidate_row_spec _ _ _ _ Hin Htab _ _ body); [lia|..]|].
    split.
    { rewrite lookup_insert_eq. unfold candidate. by rewrite decide_False by lia. }
    rewrite slice_nat by done.
    change (take stride (drop rowstart workview))
      with (row_payload workview stride rowstart).
    apply xor_accumulate_order_hfilter.
    rewrite row_payload_length by done. apply interlace_perm_Permutation. lia.
  - exists (xor_prev (stride + 1) W). split; [by apply vertical_filter_spec|].
    apply xor_accumulate_prev. lia.
Qed.

Lemma delta_filters_invert_witness :
  let workview := [0; 1; 2; 4; 8; 0; 16; 32; 64; 128] in
  let hrz_lookup := value_of (MakeInterlaceTable 4 hrz_steps) ∅ in
  let rowbuf := value_of (make_rowbuf 4) ∅ in
  (∃ rowbuf' cand,
     candidate_row workview 4 6 hrz_lookup rowbuf 3 = Ok rowbuf' ∧
     rowbuf' !! 3%nat = Some (Z.of_nat 3 :: cand) ∧
     xor_accumulate_order (interlace_perm 4 3) cand
     = slice workview 6%nat (6 + 4)%nat) ∧
  (∃ out,
     vertical_filter 4 2 workview (Z.of_nat (length workview + 1)) = Ok out ∧
     xor_accumulate (4 + 1) out = workview).
Proof.
  intros workview hrz_lookup rowbuf.
  apply (delta_filters_invert workview 4 6 hrz_lookup rowbuf 3 2 workview).
  - simpl. lia.
  - by vm_compute.
  - apply make_rowbuf_ok. by vm_compute.
  - lia.
  - reflexivity.
Defined.

(** ** The estimate in closed form *)

(** The bytes of the row that are not zero. *)
Definition nonzero_bytes (row : list Z) : nat :=
  length (filter (λ b, b ≠ 0) row).

(** Byte [x] of the row closes a run of eight zero bytes that fills one
    group of the estimate's alignment counter; the counter starts at
    [rowstart] on byte 0 and wraps after the byte at which it reaches a
    multiple of 8. *)
Definition ends_zero_group (rowstart : nat) (row : list Z) (x : nat) : bool :=
  (7 <=? x)%nat && ((rowstart + x + 1) mod 8 =? 0)%nat
  && forallb (λ b, b =? 0) (take 8 (drop (x - 7) row)).

Definition zero_groups (rowstart : nat) (row : list Z) : nat :=
  length (filter (λ x, ends_zero_group rowstart row x = true) (seq 0 (length row))).

(** The estimate as the specification words it: 8 bits per nonzero byte
    and 8 bits of flag overhead for every aligned 8-byte group of the
    linear buffer that holds a nonzero byte of the row; byte [x] of the
    row sits at position [rowstart - 1 + x]. *)
Definition spec_cost (rowstart : nat) (row : list Z) : Z :=
  8 * Z.of_nat (nonzero_bytes row)
  + 8 * Z.of_nat (length (remove_dups
            ((λ x, (rowstart - 1 + x) / 8)%nat
               <$> filter (λ x, row !!! x ≠ 0) (seq 0 (length row))))).

(** C6 as stated fails: the candidate 1, 255, 0, 0, 0 of the first row is
    estimated at 16 bits, its group is not charged any flag overhead. *)
Lemma estimate_no_flag_overhead :
  estimate_bits [1; 255; 0; 0; 0] 4 1 = Ok 16 ∧
  spec_cost 1 [1; 255; 0; 0; 0] = 24.
Proof. split; by vm_compute. Qed.

(** The zero bytes at the end of a list. *)
Fixpoint zrun_rev (l : list Z) : nat :=
  match l with
  | [] => O
  | b :: l' => if b =? 0 then S (zrun_rev l') else O
  end.

Definition zrun (l : list Z) : nat := zrun_rev (reverse l).

Lemma zrun_snoc (l : list Z) (b : Z) :
  zrun (l ++ [b]) = if b =? 0 then S (zrun l) else O.
Proof. unfold zrun. by rewrite reverse_snoc. Qed.

Lemma zrun_ge (l : list Z) (n : nat) :
  (n ≤ zrun l)%nat
  ↔ (n ≤ length l)%nat ∧ forallb (λ b, b =? 0) (drop (length l - n) l) = true.
Proof.
  revert n. induction l as [|b l IH] using rev_ind; intros n.
  - unfold zrun. simpl. split; [intros; split; [lia|by destruct n]|lia].
  - rewrite zrun_snoc, length_app. simpl. destruct n as [|n].
    + rewrite drop_ge by (rewrite length_app; simpl; lia). simpl.
      split; [intros; split; [lia|done]|lia].
    + replace (length l + 1 - S n)%nat with (length l - n)%nat by lia.
      destruct (decide (n ≤ length l)%nat) as [Hn|Hn].
      * rewrite drop_app_le by lia. rewrite forallb_app. cbn [forallb].
        rewrite andb_true_r, andb_true_iff. pose proof (IH n) as Hz.
        destruct (Z.eqb_spec b 0) as [Hb|Hb].
        -- split; [intros ?; split; [lia|split; [apply Hz; lia|done]]|].
           intros (_ & ? & _). apply le_n_S, Hz. done.
        -- split; [lia|]. intros (_ & _ & ?). done.
      * pose proof (IH n) as Hz. destruct (b =? 0); split; lia.
Qed.

Lemma ends_zero_group_prefix (rowstart : nat) (pre suf : list Z) (x : nat) :
  (x < length pre)%nat →
  ends_zero_group rowstart (pre ++ suf) x = ends_zero_group rowstart pre x.
Proof.
  intros Hx. unfold ends_zero_group. destruct (Nat.leb_spec 7 x); [|done].
  do 2 f_equal. rewrite drop_app_le by lia.
  rewrite take_app_le by (rewrite length_drop; lia). done.
Qed.

Lemma ends_zero_group_last (rowstart : nat) (pre : list Z) (b : Z) :
  ends_zero_group rowstart (pre ++ [b]) (length pre) = true
  ↔ ((rowstart + length pre) mod 8 = 7)%nat ∧ b = 0 ∧ (7 ≤ zrun pre)%nat.
Proof.
  unfold ends_zero_group. rewrite !andb_true_iff, Nat.leb_le, Nat.eqb_eq.
  assert (Hmod : ((rowstart + length pre + 1) mod 8 = 0
                  ↔ (rowstart + length pre) mod 8 = 7)%nat).
  { pose proof (Nat.div_mod_eq (rowstart + length pre) 8).
    pose proof (Nat.div_mod_eq (rowstart + length pre + 1) 8).
    pose proof (Nat.mod_upper_bound (rowstart + length pre) 8).
    pose proof (Nat.mod_upper_bound (rowstart + length pre + 1) 8). lia. }
  rewrite Hmod.
  pose proof (zrun_ge (pre ++ [b]) 8) as Hz.
  rewrite zrun_snoc, length_app in Hz. simpl in Hz.
  replace (length pre + 1 - 8)%nat with (length pre - 7)%nat in Hz by lia.
  replace (length pre + 1)%nat with (S (length pre)) in Hz by lia.
  split.
  - intros [[Hlen Hg] Hall]. split; [done|].
    rewrite take_ge in Hall by (rewrite length_drop, length_app; simpl; lia).
    apply proj2 in Hz. specialize (Hz (conj (le_n_S _ _ Hlen) Hall)).
    destruct (Z.eqb_spec b 0) as [Hb|Hb]; [|lia].
    split; [done|lia].
  - intros (Hg & -> & Hrun). simpl in Hz.
    assert (Hlen : (7 ≤ length pre)%nat).
    { pose proof (proj1 (zrun_ge pre 7) Hrun). lia. }
    split; [done|].
    rewrite take_ge by (rewrite length_drop, length_app; simpl; lia).
    apply Hz. lia.
Qed.

Lemma zero_groups_snoc (rowstart : nat) (pre : list Z) (b : Z) :
  zero_groups rowstart (pre ++ [b])
  = (zero_groups rowstart pre
     + if ends_zero_group rowstart (pre ++ [b]) (length pre) then 1 else 0)%nat.
Proof.
  unfold zero_groups. rewrite length_app. simpl. rewrite Nat.add_1_r, seq_S.
  rewrite filter_app, length_app. f_equal.
  - f_equal. apply filter_ext_in, Forall_forall. intros x Hx.
    apply elem_of_seq in Hx.
    by rewrite ends_zero_group_prefix by lia.
  - simpl. rewrite filter_cons, filter_nil.
    destruct (ends_zero_group rowstart (pre ++ [b]) (length pre));
      by case_decide.
Qed.

Lemma nonzero_bytes_snoc (pre : list Z) (b : Z) :
  nonzero_bytes (pre ++ [b])
  = (nonzero_bytes pre + if (b =? 0)%Z then 0 else 1)%nat.
Proof.
  unfold nonzero_bytes. rewrite filter_app, length_app. f_equal.
  rewrite filter_cons, filter_nil.
  destruct (Z.eqb_spec b 0); by case_decide.
Qed.

(** The state of the estimate loop after the bytes [pre] of a row. *)
#[local] Ltac fin :=
  repeat split; repeat case_decide; rewrite ?Z.mod_small by lia; lia.

Lemma estimate_invariant (rowstart : nat) (pre : list Z) :
  ∃ nullrun bits align,
    foldl estimate_update (0, 0, Z.of_nat rowstart) pre = (nullrun, bits, align) ∧
    nullrun = Z.of_nat (Nat.min (zrun pre) ((rowstart + length pre) mod 8)) ∧
    bits = 8 * Z.of_nat (nonzero_bytes pre) - 8 * Z.of_nat (zero_groups rowstart pre) ∧
    align mod 8 = Z.of_nat ((rowstart + length pre) mod 8).
Proof.
  induction pre as [|b pre IH] using rev_ind.
  - exists 0, 0, (Z.of_nat rowstart). repeat split.
    rewrite Nat.add_0_r. by rewrite Nat2Z.inj_mod.
  - destruct IH as (nullrun & bits & align & Hrun & Hnull & Hbits & Halign).
    rewrite foldl_app, Hrun. cbn [foldl]. unfold estimate_update.
    rewrite zero_groups_snoc, nonzero_bytes_snoc, zrun_snoc, length_app.
    simpl length.
    pose proof (ends_zero_group_last rowstart pre b) as Hend.
    set (g := ((rowstart + length pre) mod 8)%nat) in *.
    assert (Hg : (g < 8)%nat) by (apply Nat.mod_upper_bound; lia).
    assert (Hg' : ((rowstart + (length pre + 1)) mod 8
                   = if decide (g = 7%nat) then 0 else S g)%nat).
    { unfold g. pose proof (Nat.div_mod_eq (rowstart + length pre) 8).
      pose proof (Nat.div_mod_eq (rowstart + (length pre + 1)) 8).
      pose proof (Nat.mod_upper_bound (rowstart + (length pre + 1)) 8).
      fold g in H. case_decide; lia. }
    rewrite Hg'. rewrite !land_7.
    assert (Ha : (align + 1) mod 8 = if decide (g = 7%nat) then 0 else Z.of_nat (S g)).
    { case_decide; zdm. }
    rewrite Ha.
    destruct (Z.eqb_spec b 0) as [Hb|Hb]; cbn [negb].
    + destruct (ends_zero_group rowstart (pre ++ [b]) (length pre)) eqn:He.
      * destruct (proj1 Hend eq_refl) as (Hg7 & _ & Hz).
        rewrite decide_True by done.
        assert (Hn : (nullrun + 1) mod 8 = 0) by zdm.
        rewrite Hn. cbn [Z.eqb].
        eexists _, _, _. split; [done|]. fin.
      * assert (Hno : ¬ (g = 7%nat ∧ (7 ≤ zrun pre)%nat)).
        { intros [? ?]. by assert (false = true) by (by apply Hend). }
        case_decide as Hg7.
        -- assert (Hn : (nullrun + 1) mod 8 ≠ 0) by zdm.
           apply Z.eqb_neq in Hn. rewrite Hn. cbn [Z.eqb].
           eexists _, _, _. split; [done|]. fin.
        -- assert (Hn : (nullrun + 1) mod 8 = nullrun + 1) by zdm.
           rewrite Hn.
           assert (Hn0 : (nullrun + 1 =? 0) = false) by (apply Z.eqb_neq; lia).
           rewrite Hn0.
           assert (Hs : (Z.of_nat (S g) =? 0) = false) by (apply Z.eqb_neq; lia).
           rewrite Hs.
           eexists _, _, _. split; [done|]. fin.
    + assert (He : ends_zero_group rowstart (pre ++ [b]) (length pre) = false).
      { destruct (ends_zero_group _ _ _) eqn:He; [|done].
        by destruct (proj1 Hend eq_refl) as (_ & ? & _). }
      rewrite He.
      assert (Hs : (Z.of_nat (S g) =? 0) = false) by (apply Z.eqb_neq; lia).
      case_decide; rewrite ?Hs; cbn [Z.eqb];
        (eexists _, _, _; split; [done|]; fin).
Qed.

Lemma cost_closed_form (rowstart : nat) (row : list Z) :
  cost (Z.of_nat rowstart) row
  = 8 * Z.of_nat (nonzero_bytes row) - 8 * Z.of_nat (zero_groups rowstart row).
Proof.
  unfold cost.
  destruct (estimate_invariant rowstart row) as (n & bits & a & Hrun & _ & Hb & _).
  by rewrite Hrun.
Qed.

(** C6, as the code has it. The estimate of a candidate row is 8 bits for
    every nonzero byte, less 8 bits for every run of eight zero bytes that
    fills one whole group of the alignment counter; zero bytes are free
    and a group holding a nonzero byte is charged nothing for its flag.
    The counter starts at [rowstart], the buffer position of the first
    payload byte, on the marker byte, and wraps every 8 bytes whatever the
    row boundaries. *)
Theorem estimate_bits_cost_model (row : list Z) (stride rowstart : nat) :
  length row = S stride →
  estimate_bits row stride (Z.of_nat rowstart)
  = Ok (8 * Z.of_nat (nonzero_bytes row)
        - 8 * Z.of_nat (zero_groups rowstart row)).
Proof.
  intros Hlen. rewrite estimate_bits_spec by done. f_equal.
  apply cost_closed_form.
Qed.

Lemma estimate_bits_cost_model_witness :
  estimate_bits [0; 0; 0; 0; 0; 0; 0; 0; 0; 0; 0; 0; 0; 0; 0; 7; 0] 16 18%nat
  = Ok (8 * Z.of_nat (nonzero_bytes [0; 0; 0; 0; 0; 0; 0; 0; 0; 0; 0; 0; 0; 0; 0; 7; 0])
        - 8 * Z.of_nat (zero_groups 18
                          [0; 0; 0; 0; 0; 0; 0; 0; 0; 0; 0; 0; 0; 0; 0; 7; 0])).
Proof.
  apply (estimate_bits_cost_model
           [0; 0; 0; 0; 0; 0; 0; 0; 0; 0; 0; 0; 0; 0; 0; 7; 0] 16 18).
  reflexivity.
Defined.

(** ** The horizontal search keeps the cheapest candidate *)

Lemma cost_le (rowstart : nat) (row : list Z) :
  cost (Z.of_nat rowstart) row ≤ 8 * Z.of_nat (length row).
Proof.
  rewrite cost_closed_form. unfold nonzero_bytes.
  pose proof (length_filter (λ b, b ≠ 0) row). lia.
Qed.

Lemma row_stride_half (w : nat) : row_stride w = (w / 2)%nat.
Proof. unfold row_stride. by rewrite Nat.shiftr_div_pow2. Qed.

(** With rows short enough for a first candidate to beat [0xFFFF], every
    row of the result is the first cheapest candidate of the row it
    replaces. *)
Lemma hix_rows_cheapest (stride n rowstart : nat) (besthrz : option nat)
    (work : list Z) :
  (n * (stride + 1) ≤ length work)%nat →
  8 * Z.of_nat (S stride) < 0xFFFF →
  ∃ out, hix_rows stride rowstart besthrz n work = Some out ∧
    length out = length work ∧
    ∀ y, (y < n)%nat →
      let payload := take stride (drop (y * (stride + 1) + 1) work) in
      let rs := (rowstart + y * (stride + 1))%nat in
      ∃ b, (b < 0x51)%nat ∧
        take (stride + 1) (drop (y * (stride + 1)) out)
        = candidate stride payload b ∧
        (∀ s, (s < 0x51)%nat →
           candidate_cost stride rs payload b ≤ candidate_cost stride rs payload s) ∧
        (∀ s, (s < b)%nat →
           candidate_cost stride rs payload b < candidate_cost stride rs payload s).
Proof.
  intros Hlen Hsmall. revert rowstart besthrz work Hlen.
  induction n as [|n IH]; intros rowstart besthrz work Hlen.
  - exists work. split; [done|]. split; [done|]. intros y Hy. lia.
  - cbn [hix_rows].
    set (payload0 := take stride (drop 1 work)).
    assert (Hp0 : length payload0 = stride).
    { unfold payload0. rewrite length_take, length_drop. lia. }
    destruct (best_step_min (candidate_cost stride rowstart payload0) besthrz 0)
      as (b & Hbest & Hb & Hmin & Hfirst); [lia| |].
    { unfold candidate_cost.
      pose proof (cost_le rowstart (candidate stride payload0 0)) as Hc.
      rewrite candidate_length in Hc by done. lia. }
    rewrite Hbest.
    destruct (IH (rowstart + stride + 1)%nat (Some b) (drop (stride + 1) work))
      as (rest & Hrest & Hrlen & Hrows).
    { rewrite length_drop. lia. }
    rewrite Hrest. simpl.
    exists (candidate stride payload0 b ++ rest). split; [done|].
    assert (Hclen : length (candidate stride payload0 b) = S stride)
      by (by apply candidate_length).
    split.
    { rewrite length_app, Hclen, Hrlen, length_drop. lia. }
    intros y Hy. destruct y as [|y].
    + exists b. split; [done|]. cbn [Nat.mul Nat.add]. rewrite drop_0.
      rewrite Nat.add_0_r.
      split; [by rewrite take_app_length' by lia|]. split; [done|done].
    + destruct (Hrows y ltac:(lia)) as (b' & Hb' & Hrow & Hmin' & Hfirst').
      exists b'. split; [done|].
      assert (Hidx : drop (S y * (stride + 1) + 1) work
                     = drop (y * (stride + 1) + 1) (drop (stride + 1) work))
        by (rewrite drop_drop; f_equal; lia).
      assert (Hout : drop (S y * (stride + 1)) (candidate stride payload0 b ++ rest)
                     = drop (y * (stride + 1)) rest).
      { replace (S y * (stride + 1))%nat
          with (length (candidate stride payload0 b) + y * (stride + 1))%nat
          by (rewrite Hclen; lia).
        by rewrite drop_app_add. }
      assert (Hrs : (rowstart + S y * (stride + 1)
                     = rowstart + stride + 1 + y * (stride + 1))%nat) by lia.
      rewrite Hidx, Hout, Hrs. by repeat split.
Qed.

(** C8. For an image no wider than 640 pixels, [HorizontalIX] replaces
    each row of the WorkBuffer, marker and payload, by one of the
    candidates built for that row: the one whose estimate is the lowest
    among the steps 0..0x50 and, among candidates of equal estimate, the
    one of the lowest step. *)
Theorem HorizontalIX_keeps_cheapest (workview : list Z) (rowbuf : gmap nat (list Z))
    (w h : nat) (hrz_lookup : gmap nat (list (option nat))) :
  MakeInterlaceTable (row_stride w) hrz_steps = Ok hrz_lookup →
  rowbuf_ok (row_stride w) rowbuf →
  length workview = (h * (row_stride w + 1))%nat →
  (w ≤ 640)%nat →
  ∃ out rowbuf', HorizontalIX workview rowbuf w h hrz_lookup = Ok (out, rowbuf') ∧
    length out = length workview ∧
    ∀ y, (y < h)%nat →
      let rowstart := (y * (row_stride w + 1) + 1)%nat in
      ∃ cands b row_b cost_b,
        build_candidates workview (row_stride w) rowstart hrz_lookup rowbuf
          = Ok cands ∧
        (b ≤ 0x50)%nat ∧ cands !! b = Some row_b ∧
        estimate_bits row_b (row_stride w) rowstart = Ok cost_b ∧
        take (row_stride w + 1) (drop (y * (row_stride w + 1)) out) = row_b ∧
        ∀ s, (s ≤ 0x50)%nat → ∃ row_s cost_s,
          cands !! s = Some row_s ∧
          estimate_bits row_s (row_stride w) rowstart = Ok cost_s ∧
          cost_b ≤ cost_s ∧ ((s < b)%nat → cost_b < cost_s).
Proof.
  intros Htab Hok Hlen Hw. apply lookup_ok_unique in Htab.
  set (stride := row_stride w) in *.
  assert (Hstride : (stride ≤ 320)%nat).
  { unfold stride. rewrite row_stride_half.
    pose proof (Nat.div_mod_eq w 2). lia. }
  destruct (HorizontalIX_spec workview rowbuf w h hrz_lookup Htab Hok)
    as (rb' & _ & Hrun); [fold stride; lia|]. fold stride in Hrun.
  destruct (hix_rows_cheapest stride h 1 None workview) as (out & Hrows & Holen & Hy);
    [lia|lia|].
  rewrite Hrows in Hrun. exists out, rb'. split; [done|]. split; [done|].
  intros y Hylt rowstart.
  destruct (Hy y Hylt) as (b & Hb & Hrow & Hmin & Hfirst).
  assert (Hin : (rowstart + stride ≤ length workview)%nat) by (unfold rowstart; nia).
  destruct (build_candidates_spec workview stride rowstart hrz_lookup Hin Htab
              rowbuf Hok) as (cands & Hbuild & Hc & _).
  set (payload := take stride (drop (y * (stride + 1) + 1) workview)) in *.
  change (row_payload workview stride rowstart) with payload in Hc.
  assert (Hplen : length payload = stride).
  { unfold payload. rewrite length_take, length_drop. unfold rowstart in Hin. lia. }
  replace (1 + y * (stride + 1))%nat with rowstart in Hmin, Hfirst
    by (unfold rowstart; lia).
  unfold candidate_cost in Hmin, Hfirst.
  exists cands, b, (candidate stride payload b),
         (cost (Z.of_nat rowstart) (candidate stride payload b)).
  split; [done|]. split; [lia|]. split; [by apply Hc|].
  split; [by apply estimate_bits_spec, candidate_length|]. split; [done|].
  intros s Hs.
  exists (candidate stride payload s),
         (cost (Z.of_nat rowstart) (candidate stride payload s)).
  split; [apply Hc; lia|].
  split; [by apply estimate_bits_spec, candidate_length|].
  split; [apply Hmin; lia|apply Hfirst].
Qed.

Lemma HorizontalIX_keeps_cheapest_witness :
  let workview := [0; 255; 255; 255; 255; 0; 1; 2; 4; 8] in
  let hrz_lookup := value_of (MakeInterlaceTable (row_stride 8) hrz_steps) ∅ in
  let rowbuf := value_of (make_rowbuf (row_stride 8)) ∅ in
  ∃ out rowbuf', HorizontalIX workview rowbuf 8 2 hrz_lookup = Ok (out, rowbuf') ∧
    length out = length workview ∧
    ∀ y, (y < 2)%nat →
      let rowstart := (y * (row_stride 8 + 1) + 1)%nat in
      ∃ cands b row_b cost_b,
        build_candidates workview (row_stride 8) rowstart hrz_lookup rowbuf
          = Ok cands ∧
        (b ≤ 0x50)%nat ∧ cands !! b = Some row_b ∧
        estimate_bits row_b (row_stride 8) rowstart = Ok cost_b ∧
        take (row_stride 8 + 1) (drop (y * (row_stride 8 + 1)) out) = row_b ∧
        ∀ s, (s ≤ 0x50)%nat → ∃ row_s cost_s,
          cands !! s = Some row_s ∧
          estimate_bits row_s (row_stride 8) rowstart = Ok cost_s ∧
          cost_b ≤ cost_s ∧ ((s < b)%nat → cost_b < cost_s).
Proof.
  intros workview hrz_lookup rowbuf.
  apply (HorizontalIX_keeps_cheapest workview rowbuf 8 2 hrz_lookup).
  - by vm_compute.
  - apply make_rowbuf_ok. by vm_compute.
  - reflexivity.
  - lia.
Defined.

(** ** The script body: what a successful run has checked and written *)

Lemma bind_Ok {A B : Type} (m : result A) (f : A → result B) (b : B) :
  m ≫= f = Ok b → ∃ a, m = Ok a ∧ f a = Ok b.
Proof. destruct m as [a| |]; [|done..]. intros Hf. by exists a. Qed.

Lemma bytearray_of_Ok (l e : list Z) :
  bytearray_of l = Ok e → e = l ∧ Forall (λ v, 0 ≤ v < 256) l.
Proof.
  unfold bytearray_of. destruct (forallb _ l) eqn:Hall; [|done].
  intros [= <-]. split; [done|]. apply Forall_forall. intros v Hv.
  apply list_elem_of_In in Hv.
  pose proof (proj1 (forallb_forall _ l) Hall v Hv) as Hb.
  apply andb_true_iff in Hb as [? ?]. lia.
Qed.

Lemma getitem_total (l : list Z) (n : nat) :
  (n < length l)%nat → getitem l n = Ok (l !!! n).
Proof.
  intros Hn. destruct (lookup_lt_is_Some_2 l n Hn) as [a Ha].
  by rewrite (getitem_nat _ _ _ Ha), (list_lookup_total_correct _ _ _ Ha).
Qed.

Lemma ba_setitem_Ok (l l' : list Z) (n : nat) (v : Z) :
  ba_setitem l n v = Ok l' →
  0 ≤ v < 256 ∧ (n < length l)%nat ∧ l' = <[n := v]> l.
Proof.
  unfold ba_setitem, setitem, norm_index.
  destruct (Z.leb_spec 0 v); [|done]. destruct (Z.ltb_spec v 256); [|done].
  cbn [andb]. destruct (Z.leb_spec 0 n); [|lia].
  destruct (Z.ltb_spec n (length l)); [|done].
  rewrite Nat2Z.id. intros [= <-]. repeat split; lia.
Qed.

(** The palette after lines 196-200 has 48 entries: those of the image,
    cut after the 48th or followed by zeros. *)
Lemma fit_palette_lookup (palette : list Z) :
  length (fit_palette palette) = 48%nat ∧
  ∀ i, (i < 48)%nat → fit_palette palette !! i = Some (default 0 (palette !! i)).
Proof.
  unfold fit_palette.
  destruct (Nat.ltb_spec (length palette) 48) as [Hlt|Hge].
  - split; [rewrite length_app, length_replicate; lia|]. intros i Hi.
    destruct (decide (i < length palette)%nat) as [Hin|Hout].
    + rewrite lookup_app_l by done.
      destruct (lookup_lt_is_Some_2 palette i Hin) as [a Ha]. by rewrite Ha.
    + rewrite lookup_app_r by lia. rewrite lookup_replicate_2 by lia.
      by rewrite (proj2 (lookup_ge_None palette i)) by lia.
  - destruct (Nat.ltb_spec 48 (length palette)) as [Hgt|Heq].
    + change (slice palette 0 48)
        with (slice palette (Z.of_nat 0) (Z.of_nat (0 + 48))).
      rewrite (slice_nat palette 0 48) by (simpl; lia). rewrite drop_0.
      split; [rewrite length_take; lia|]. intros i Hi.
      rewrite lookup_take_lt by done.
      destruct (lookup_lt_is_Some_2 palette i ltac:(lia)) as [a Ha]. by rewrite Ha.
    + split; [lia|]. intros i Hi.
      destruct (lookup_lt_is_Some_2 palette i ltac:(lia)) as [a Ha]. by rewrite Ha.
Qed.

(** The two bytes of palette entry [k]: red and blue nibbles, then green. *)
Definition packed_entry (palette : list Z) (k : nat) : list Z :=
  [Z.lor (Z.land (palette !!! (3 * k)%nat) 0xF0)
         (Z.shiftr (palette !!! (3 * k + 2)%nat) 4);
   Z.shiftr (palette !!! (3 * k + 1)%nat) 4].

Definition packed_palette (palette : list Z) : list Z :=
  concat (packed_entry palette <$> seq 0 16).

Lemma palette_fold_Ok (palette outbuf outbuf' : list Z) (k n : nat) :
  length palette = 48%nat → (k + n ≤ 16)%nat →
  foldM (palette_entry palette) outbuf (seq k n) = Ok outbuf' →
  outbuf' = outbuf ++ concat (packed_entry palette <$> seq k n).
Proof.
  intros Hlen. revert k outbuf. induction n as [|n IH]; intros k outbuf Hk Hrun.
  - simpl in *. inversion Hrun. by rewrite app_nil_r.
  - cbn [seq foldM] in Hrun. apply bind_Ok in Hrun as (ob1 & Hent & Hrun).
    apply IH in Hrun; [|lia]. subst outbuf'.
    cbn [seq fmap list_fmap concat]. rewrite app_assoc. f_equal.
    unfold palette_entry in Hent.
    rewrite <- (Nat2Z.inj_add _ 2), <- (Nat2Z.inj_add _ 1) in Hent.
    rewrite !getitem_total in Hent by lia. cbn [mbind result_bind] in Hent.
    apply bind_Ok in Hent as (e & He & Hob). apply bytearray_of_Ok in He as [-> _].
    by inversion Hob.
Qed.

Lemma compress_trial_best (srcview : list Z) (w h : nat)
    (hrz_lookup vrt_lookup : gmap nat (list (option nat)))
    (st st' : trial_state) (vrt : nat) :
  compress_trial srcview w h hrz_lookup vrt_lookup st vrt = Ok st' →
  t_best st' = t_best st ∨ ∃ buf, t_best st' = Some (buf, vrt).
Proof.
  unfold compress_trial. intros Hrun.
  apply bind_Ok in Hrun as (vl & _ & Hrun).
  apply bind_Ok in Hrun as (wv & _ & Hrun).
  apply bind_Ok in Hrun as ([wv' rb] & _ & Hrun).
  apply bind_Ok in Hrun as ([wo fv] & _ & Hrun).
  destruct (t_bestofs st <? wo); inversion Hrun; simpl; eauto.
Qed.

Lemma Compress_vrt (srcbuf : list Z) (w h : nat) (buf : list Z) (vrt : nat) :
  Compress srcbuf w h = Ok (buf, vrt) → vrt = 2%nat ∨ vrt = 1%nat ∨ vrt = 4%nat.
Proof.
  unfold Compress. intros Hrun.
  apply bind_Ok in Hrun as (hl & _ & Hrun).
  apply bind_Ok in Hrun as (vl & _ & Hrun).
  apply bind_Ok in Hrun as (rb & _ & Hrun).
  apply bind_Ok in Hrun as (st & Hfold & Hbest).
  cbn [foldM] in Hfold.
  apply bind_Ok in Hfold as (st1 & H1 & Hfold).
  apply bind_Ok in Hfold as (st2 & H2 & Hfold).
  apply bind_Ok in Hfold as (st3 & H3 & Hfold).
  inversion Hfold; subst st3.
  apply compress_trial_best in H1, H2, H3. simpl in H1.
  assert (Hb : t_best st = Some (buf, vrt)).
  { destruct (t_best st) as [[b v]|]; [|done]. by inversion Hbest. }
  destruct H1 as [H1|[? H1]], H2 as [H2|[? H2]], H3 as [H3|[? H3]];
    first [ left; congruence | right; left; congruence
          | right; right; congruence | exfalso; congruence ].
Qed.

(** The pixels and the width the plane splitter is given (lines 225-233):
    those of the image, padded on the right to a multiple of 8 when the
    width is not one. *)
Definition padded_bitmap (img : image) : list Z :=
  if negb (img_width img mod 8 =? 0)%nat
  then pad_image (img_width img) (img_height img) (img_data img)
  else img_data img.

Definition padded_width (img : image) : nat :=
  if negb (img_width img mod 8 =? 0)%nat then pad_width (img_width img)
  else img_width img.

(** The 16 bytes of the image descriptor, the payload length at +4. *)
Definition descriptor (w h : nat) (len : nat) (x y : Z) : list Z :=
  [Z.land w 0xFF; Z.shiftr w 8; Z.land h 0xFF; Z.shiftr h 8;
   Z.land len 0xFF; Z.shiftr len 8; 0; 0; 4; 0;
   Z.land x 0xFF; Z.shiftr x 8; Z.land y 0xFF; Z.shiftr y 8; 0; 0].

Lemma packed_palette_length (palette : list Z) :
  length (packed_palette palette) = 32%nat.
Proof. done. Qed.

Lemma make_gpc_parts (img : image) (x y : Z) (out : list Z) :
  make_gpc img x y = Ok out →
  ∃ planebuf compressed_data bestvrt,
    split_planes (padded_bitmap img) (padded_width img) = Ok planebuf ∧
    Compress planebuf (padded_width img) (img_height img)
      = Ok (compressed_data, bestvrt) ∧
    (bestvrt = 2 ∨ bestvrt = 1 ∨ bestvrt = 4)%nat ∧
    out = signature ++ [0] ++ [Z.of_nat bestvrt; 0; 0; 0]
          ++ [0x30; 0; 0; 0] ++ [0x54; 0; 0; 0] ++ replicate 20 0
          ++ [16; 0; 2; 0] ++ packed_palette (fit_palette (img_palette img))
          ++ descriptor (img_width img) (img_height img)
               (length compressed_data) x y
          ++ compressed_data ∧
    take 4 (drop 0x30 out) = [16; 0; 2; 0] ∧
    drop 0x54 out
    = descriptor (img_width img) (img_height img) (length compressed_data) x y
      ++ compressed_data.
Proof.
  unfold make_gpc. intros Hrun.
  destruct (negb (img_mode_P img)); [done|].
  destruct (640 <? img_width img)%nat; [done|].
  destruct (400 <? img_height img)%nat; [done|].
  cbn [bytearray_of forallb andb Z.leb Z.ltb Z.compare Pos.compare
       Pos.compare_cont mbind result_bind] in Hrun.
  apply bind_Ok in Hrun as (ob & Hpal & Hrun).
  apply palette_fold_Ok in Hpal; [|apply fit_palette_lookup|lia].
  fold (packed_palette (fit_palette (img_palette img))) in Hpal.
  apply bind_Ok in Hrun as (bs & Hbs & Hrun).
  apply bytearray_of_Ok in Hbs as [-> _].
  fold (padded_bitmap img) (padded_width img).
  assert (Hsplit : ∀ k : list Z → nat → result (list Z),
            (let '(bitmap, w) :=
               if negb (img_width img mod 8 =? 0)%nat
               then (pad_image (img_width img) (img_height img) (img_data img),
                     pad_width (img_width img))
               else (img_data img, img_width img) in k bitmap w)
            = k (padded_bitmap img) (padded_width img)).
  { intros k. unfold padded_bitmap, padded_width.
    by destruct (negb (img_width img mod 8 =? 0)%nat). }
  rewrite Hsplit in Hrun. clear Hsplit.
  apply bind_Ok in Hrun as (planebuf & Hplanes & Hrun).
  apply bind_Ok in Hrun as ([cd vrt] & Hcomp & Hrun).
  exists planebuf, cd, vrt. split; [done|]. split; [done|].
  pose proof (Compress_vrt _ _ _ _ _ Hcomp) as Hvrt. split; [done|].
  change 16 with (Z.of_nat 16) in Hrun at 1.
  apply bind_Ok in Hrun as (o1 & H1 & Hrun).
  change 17 with (Z.of_nat 17) in Hrun at 1.
  apply bind_Ok in Hrun as (o2 & H2 & Hrun).
  change 88 with (Z.of_nat 88) in Hrun at 1.
  apply bind_Ok in Hrun as (o3 & H3 & Hrun).
  change 89 with (Z.of_nat 89) in Hrun at 1.
  apply bind_Ok in Hrun as (o4 & H4 & Hrun).
  apply ba_setitem_Ok in H1 as (_ & _ & ->), H2 as (_ & _ & ->),
    H3 as (_ & _ & ->), H4 as (_ & _ & ->).
  inversion Hrun as [Hout]. clear Hrun. subst ob.
  set (pal := packed_palette (fit_palette (img_palette img))).
  assert (Hlen : length pal = 32%nat) by apply packed_palette_length.
  assert (Hhead : ∀ v : nat, (v = 2 ∨ v = 1 ∨ v = 4)%nat →
            <[17%nat := Z.shiftr v 8]>
              (<[16%nat := Z.land v 255]>
                 ((((signature ++ replicate 5 0) ++ [48; 0; 0; 0; 84; 0; 0; 0])
                     ++ replicate 20 0) ++ [16; 0; 2; 0]))
            = signature ++ [0] ++ [Z.of_nat v; 0; 0; 0] ++ [0x30; 0; 0; 0]
              ++ [0x54; 0; 0; 0] ++ replicate 20 0 ++ [16; 0; 2; 0]).
  { by intros v [->|[->| ->]]. }
  set (head := signature ++ [0] ++ [Z.of_nat vrt; 0; 0; 0] ++ [0x30; 0; 0; 0]
               ++ [0x54; 0; 0; 0] ++ replicate 20 0 ++ [16; 0; 2; 0]) in *.
  assert (Hhlen : length head = 52%nat) by done.
  set (desc0 := [Z.land (img_width img) 255; Z.shiftr (img_width img) 8;
                 Z.land (img_height img) 255; Z.shiftr (img_height img) 8;
                 0; 0; 0; 0; 4; 0; Z.land x 255; Z.shiftr x 8;
                 Z.land y 255; Z.shiftr y 8; 0; 0]).
  assert (E : <[89%nat := Z.shiftr (length cd) 8]>
                (<[88%nat := Z.land (length cd) 255]>
                   (<[17%nat := Z.shiftr vrt 8]>
                      (<[16%nat := Z.land vrt 255]>
                         ((((((signature ++ replicate 5 0)
                                ++ [48; 0; 0; 0; 84; 0; 0; 0])
                               ++ replicate 20 0) ++ [16; 0; 2; 0]) ++ pal)
                            ++ desc0))))
              = head ++ pal
                ++ descriptor (img_width img) (img_height img) (length cd) x y).
  { rewrite <- (app_assoc _ pal desc0).
    rewrite (insert_app_l _ (pal ++ desc0) 16) by (simpl; lia).
    rewrite (insert_app_l _ (pal ++ desc0) 17) by (rewrite length_insert; simpl; lia).
    rewrite (Hhead vrt Hvrt). fold head.
    rewrite (insert_app_r_alt head) by lia.
    rewrite (insert_app_r_alt pal) by lia.
    rewrite (insert_app_r_alt head) by (rewrite ?length_app, ?length_insert; lia).
    rewrite (insert_app_r_alt pal) by lia.
    rewrite Hhlen, Hlen. done. }
  change (((((((signature ++ replicate 5 0) ++ [48; 0; 0; 0; 84; 0; 0; 0])
                ++ replicate 20 0) ++ [16; 0; 2; 0])
              ++ packed_palette (fit_palette (img_palette img))) ++ desc0))
    with ((((((signature ++ replicate 5 0) ++ [48; 0; 0; 0; 84; 0; 0; 0])
                ++ replicate 20 0) ++ [16; 0; 2; 0]) ++ pal) ++ desc0).
  rewrite E. clear E Hout.
  assert (Hfull : (head ++ pal
                   ++ descriptor (img_width img) (img_height img) (length cd) x y)
                  ++ cd
                  = head ++ pal
                    ++ descriptor (img_width img) (img_height img) (length cd) x y
                    ++ cd) by (by rewrite <- !app_assoc).
  rewrite Hfull. split; [by unfold head; rewrite <- !app_assoc|].
  split.
  - rewrite <- (take_drop 48 head), <- app_assoc.
    rewrite drop_app_length' by (rewrite length_take; lia). done.
  - rewrite app_assoc.
    rewrite drop_app_length' by (rewrite length_app; lia). done.
Qed.

(** The bytes of a written file. A run that returns has produced, in this
    order: the 15 signature characters and a zero byte (0x00), the
    vertical step as a 4-byte little-endian word (0x10), the pointers 0x30
    and 0x54 (0x14 and 0x18), zeros up to 0x30, the palette dimensions
    16, 0, 2, 0 (0x30), the 16 packed palette entries (0x34), the 16-byte
    image descriptor (0x54) carrying the width and height of the image as
    opened, the low 16 bits of the payload length at +4, the constant 4 at
    +8 and the coordinates at +10 and +12, and then the payload of
    [Compress] (0x64), computed on the padded bitmap. *)
Theorem make_gpc_layout (img : image) (x y : Z) (out : list Z) :
  make_gpc img x y = Ok out →
  ∃ planebuf compressed_data bestvrt,
    split_planes (padded_bitmap img) (padded_width img) = Ok planebuf ∧
    Compress planebuf (padded_width img) (img_height img)
      = Ok (compressed_data, bestvrt) ∧
    (bestvrt = 2 ∨ bestvrt = 1 ∨ bestvrt = 4)%nat ∧
    out = signature ++ [0] ++ [Z.of_nat bestvrt; 0; 0; 0]
          ++ [0x30; 0; 0; 0] ++ [0x54; 0; 0; 0] ++ replicate 20 0
          ++ [16; 0; 2; 0] ++ packed_palette (fit_palette (img_palette img))
          ++ descriptor (img_width img) (img_height img)
               (length compressed_data) x y
          ++ compressed_data ∧
    take 4 (drop 0x30 out) = [16; 0; 2; 0] ∧
    drop 0x54 out
    = descriptor (img_width img) (img_height img) (length compressed_data) x y
      ++ compressed_data.
Proof.
  intros Hrun. exact (make_gpc_parts img x y out Hrun).
Qed.

Lemma make_gpc_layout_witness :
  let img := Image true 2 2 [255; 0; 0; 0; 255; 0; 16; 32; 48] [1; 1; 1; 1] in
  let out := value_of (make_gpc img 3 5) [] in
  ∃ planebuf compressed_data bestvrt,
    split_planes (padded_bitmap img) (padded_width img) = Ok planebuf ∧
    Compress planebuf (padded_width img) (img_height img)
      = Ok (compressed_data, bestvrt) ∧
    (bestvrt = 2 ∨ bestvrt = 1 ∨ bestvrt = 4)%nat ∧
    out = signature ++ [0] ++ [Z.of_nat bestvrt; 0; 0; 0]
          ++ [0x30; 0; 0; 0] ++ [0x54; 0; 0; 0] ++ replicate 20 0
          ++ [16; 0; 2; 0] ++ packed_palette (fit_palette (img_palette img))
          ++ descriptor (img_width img) (img_height img)
               (length compressed_data) 3 5
          ++ compressed_data ∧
    take 4 (drop 0x30 out) = [16; 0; 2; 0] ∧
    drop 0x54 out
    = descriptor (img_width img) (img_height img) (length compressed_data) 3 5
      ++ compressed_data.
Proof.
  intros img out. apply (make_gpc_layout img 3 5 out). by vm_compute.
Defined.

Lemma shiftr_8_byte (v : Z) : 0 ≤ Z.shiftr v 8 < 256 ↔ 0 ≤ v < 65536.
Proof. rewrite Z.shiftr_div_pow2 by lia. change (2 ^ 8) with 256. zdm. Qed.

(** What the script has checked when it returns. A file is produced only
    from a palette image at most 640 wide and 400 high, with both
    coordinates in 0..65535 (a negative or larger one stops the script on
    the [bytearray] of the descriptor) and a payload shorter than 65536
    bytes (a longer one stops it on [outbuf[0x59]]). *)
Theorem make_gpc_accepts (img : image) (x y : Z) (out : list Z) :
  make_gpc img x y = Ok out →
  img_mode_P img = true ∧
  (img_width img ≤ 640)%nat ∧ (img_height img ≤ 400)%nat ∧
  0 ≤ x < 65536 ∧ 0 ≤ y < 65536 ∧
  0x64 ≤ Z.of_nat (length out) < 0x64 + 65536.
Proof.
  unfold make_gpc. intros Hrun.
  destruct (img_mode_P img); [|done]. cbn [negb] in Hrun.
  destruct (Nat.ltb_spec 640 (img_width img)); [done|].
  destruct (Nat.ltb_spec 400 (img_height img)); [done|].
  cbn [bytearray_of forallb andb Z.leb Z.ltb Z.compare Pos.compare
       Pos.compare_cont mbind result_bind] in Hrun.
  apply bind_Ok in Hrun as (ob & Hpal & Hrun).
  apply palette_fold_Ok in Hpal; [|apply fit_palette_lookup|lia].
  apply bind_Ok in Hrun as (bs & Hbs & Hrun).
  apply bytearray_of_Ok in Hbs as [-> Hbytes].
  destruct (if negb (img_width img mod 8 =? 0)%nat
            then (pad_image (img_width img) (img_height img) (img_data img),
                  pad_width (img_width img))
            else (img_data img, img_width img)) as [bitmap w].
  apply bind_Ok in Hrun as (planebuf & _ & Hrun).
  apply bind_Ok in Hrun as ([cd vrt] & _ & Hrun).
  change 16 with (Z.of_nat 16) in Hrun at 1.
  apply bind_Ok in Hrun as (o1 & H1 & Hrun).
  change 17 with (Z.of_nat 17) in Hrun at 1.
  apply bind_Ok in Hrun as (o2 & H2 & Hrun).
  change 88 with (Z.of_nat 88) in Hrun at 1.
  apply bind_Ok in Hrun as (o3 & H3 & Hrun).
  change 89 with (Z.of_nat 89) in Hrun at 1.
  apply bind_Ok in Hrun as (o4 & H4 & Hrun).
  apply ba_setitem_Ok in H1 as (_ & _ & ->), H2 as (_ & _ & ->),
    H3 as (_ & _ & ->), H4 as (Hlen & _ & ->).
  inversion Hrun as [Hout]. clear Hrun.
  apply shiftr_8_byte in Hlen.
  assert (Hx : 0 ≤ Z.shiftr x 8 < 256).
  { eapply Forall_lookup_1 with (i := 11%nat) in Hbytes; [exact Hbytes|done]. }
  assert (Hy : 0 ≤ Z.shiftr y 8 < 256).
  { eapply Forall_lookup_1 with (i := 13%nat) in Hbytes; [exact Hbytes|done]. }
  apply shiftr_8_byte in Hx, Hy.
  assert (Hol : length out = (100 + length cd)%nat).
  { rewrite <- Hout, length_app, !length_insert. subst ob.
    rewrite !length_app. simpl. lia. }
  rewrite Hout. repeat split; lia.
Qed.

Lemma make_gpc_accepts_witness :
  let img := Image true 2 2 [255; 0; 0; 0; 255; 0; 16; 32; 48] [1; 1; 1; 1] in
  let out := value_of (make_gpc img 3 5) [] in
  img_mode_P img = true ∧
  (img_width img ≤ 640)%nat ∧ (img_height img ≤ 400)%nat ∧
  0 ≤ 3 < 65536 ∧ 0 ≤ 5 < 65536 ∧
  0x64 ≤ Z.of_nat (length out) < 0x64 + 65536.
Proof.
  intros img out. apply (make_gpc_accepts img 3 5 out). by vm_compute.
Defined.

(** ** Encode and the previous content of its destination *)

(** Two runs agree: both return and the values are related, or both stop
    on the same exception. *)
Definition res_rel {A B : Type} (R : A → B → Prop) (r1 : result A) (r2 : result B)
    : Prop :=
  match r1, r2 with
  | Ok a, Ok b => R a b
  | Raise e1, Raise e2 => e1 = e2
  | OutOfFuel, OutOfFuel => True
  | _, _ => False
  end.

Lemma res_rel_bind {A B A' B' : Type} (R : A → B → Prop) (R' : A' → B' → Prop)
    (m1 : result A) (m2 : result B) (f1 : A → result A') (f2 : B → result B') :
  res_rel R m1 m2 →
  (∀ a b, R a b → res_rel R' (f1 a) (f2 b)) →
  res_rel R' (m1 ≫= f1) (m2 ≫= f2).
Proof.
  destruct m1 as [a|e1|], m2 as [b|e2|]; simpl; try done.
  intros HR Hf. by apply Hf.
Qed.

(** Two destinations of one length that hold the same bytes from
    [writeofs] on, as far as [writeofs] is a position of the buffer. *)
Definition same_tail (writeofs : Z) (fv1 fv2 : list Z) : Prop :=
  length fv1 = length fv2 ∧
  (0 ≤ writeofs → drop (Z.to_nat writeofs) fv1 = drop (Z.to_nat writeofs) fv2).

Lemma setitem_same_tail (writeofs v : Z) (fv1 fv2 : list Z) :
  same_tail writeofs fv1 fv2 →
  res_rel (same_tail (writeofs - 1))
    (setitem fv1 (writeofs - 1) v) (setitem fv2 (writeofs - 1) v).
Proof.
  intros [Hlen Htail]. unfold setitem. rewrite <- Hlen.
  destruct (norm_index (length fv1) (writeofs - 1)) as [n|] eqn:Hn; simpl; [|done].
  split; [by rewrite !length_insert|]. intros Hpos.
  unfold norm_index in Hn. destruct (Z.leb_spec 0 (writeofs - 1)); [|lia].
  destruct (Z.ltb_spec (writeofs - 1) (length fv1)); [|done].
  inversion Hn; subst n. clear Hn.
  set (n := Z.to_nat (writeofs - 1)).
  rewrite !drop_insert_ge, Nat.sub_diag by lia.
  specialize (Htail ltac:(lia)).
  replace (Z.to_nat writeofs) with (S n) in Htail by lia.
  destruct (drop n fv1) as [|a1 t1] eqn:H1.
  { apply (f_equal length) in H1. rewrite length_drop in H1. simpl in H1. lia. }
  destruct (drop n fv2) as [|a2 t2] eqn:H2.
  { apply (f_equal length) in H2. rewrite length_drop in H2. simpl in H2. lia. }
  simpl. f_equal.
  assert (Ht1 : drop (S n) fv1 = t1).
  { replace (S n) with (n + 1)%nat by lia. by rewrite <- drop_drop, H1. }
  assert (Ht2 : drop (S n) fv2 = t2).
  { replace (S n) with (n + 1)%nat by lia. by rewrite <- drop_drop, H2. }
  congruence.
Qed.

(** The states of two runs of the loop on one WorkBuffer. *)
Definition enc_rel (st1 st2 : enc_state) : Prop :=
  st_flagA st1 = st_flagA st2 ∧ st_flagB st1 = st_flagB st2 ∧
  st_flagAbitsleft st1 = st_flagAbitsleft st2 ∧
  st_flagBbitsleft st1 = st_flagBbitsleft st2 ∧
  st_writeofs st1 = st_writeofs st2 ∧
  same_tail (st_writeofs st1) (st_finalview st1) (st_finalview st2).

#[local] Ltac rel_done :=
  simpl; unfold enc_rel; simpl; repeat (split; [done|]); done.

Lemma encode_flags_rel (flagA flagB flagAbitsleft flagBbitsleft writeofs : Z)
    (fv1 fv2 : list Z) :
  same_tail writeofs fv1 fv2 →
  res_rel enc_rel
    (encode_flags flagA flagB flagAbitsleft flagBbitsleft writeofs fv1)
    (encode_flags flagA flagB flagAbitsleft flagBbitsleft writeofs fv2).
Proof.
  intros Htail. unfold encode_flags.
  destruct (flagBbitsleft - 1 =? 0); [|rel_done].
  eapply (res_rel_bind
            (λ a b : Z * Z * list Z,
               a.1.1 = b.1.1 ∧ a.1.2 = b.1.2 ∧ same_tail a.1.2 a.2 b.2)).
  - destruct (negb (flagB =? 0)); [|rel_done].
    eapply res_rel_bind; [by apply setitem_same_tail|].
    intros a b Hab. rel_done.
  - intros [[fa1 wo1] f1] [[fa2 wo2] f2] (HfA & Hwo & Hf). simpl in *. subst.
    destruct (flagAbitsleft - 1 =? 0); [|rel_done].
    eapply res_rel_bind; [by apply setitem_same_tail|].
    intros a b Hab. rel_done.
Qed.

Lemma encode_loop_rel (workview : list Z) (readofs : nat) (st1 st2 : enc_state) :
  enc_rel st1 st2 →
  res_rel enc_rel (encode_loop workview readofs st1)
    (encode_loop workview readofs st2).
Proof.
  revert st1 st2. induction readofs as [|r IH]; intros st1 st2 Hrel; [done|].
  destruct Hrel as (HA & HB & HAb & HBb & Hwo & Htail).
  cbn [encode_loop]. rewrite HA, HB, HAb, HBb, <- Hwo.
  destruct (getitem workview r) as [b|e|]; cbn [mbind result_bind];
    [|by simpl..].
  eapply (res_rel_bind
            (λ a b : Z * Z * list Z,
               a.1.1 = b.1.1 ∧ a.1.2 = b.1.2 ∧ same_tail a.1.2 a.2 b.2)).
  - destruct (negb (b =? 0)); [|rel_done].
    eapply res_rel_bind; [by apply setitem_same_tail|].
    intros a c Hac. rel_done.
  - intros [[fb1 wo1] f1] [[fb2 wo2] f2] (HfB & Hwo' & Hf). simpl in *. subst.
    eapply (res_rel_bind enc_rel); [by apply encode_flags_rel|].
    by intros; apply IH.
Qed.

Lemma Encode_same_tail (workview fv1 fv2 : list Z) :
  length fv1 = length fv2 →
  res_rel (λ r1 r2 : Z * list Z, r1.1 = r2.1 ∧ same_tail r1.1 r1.2 r2.2)
    (Encode workview fv1) (Encode workview fv2).
Proof.
  intros Hlen. unfold Encode. rewrite <- Hlen.
  eapply (res_rel_bind enc_rel).
  - apply encode_loop_rel. repeat split; try done. cbn [st_writeofs st_finalview].
    intros _. rewrite Nat2Z.id, !drop_ge by lia. done.
  - intros st1 st2 (_ & _ & _ & _ & Hwo & Htail). simpl. by split.
Qed.

Lemma setitem_Ok_length {A : Type} (l l' : list A) (i : Z) (v : A) :
  setitem l i v = Ok l' → length l' = length l.
Proof.
  unfold setitem. destruct (norm_index (length l) i); [|done].
  intros [= <-]. apply length_insert.
Qed.

Lemma encode_flags_length (flagA flagB flagAbitsleft flagBbitsleft writeofs : Z)
    (fv : list Z) (st : enc_state) :
  encode_flags flagA flagB flagAbitsleft flagBbitsleft writeofs fv = Ok st →
  length (st_finalview st) = length fv.
Proof.
  unfold encode_flags. destruct (flagBbitsleft - 1 =? 0); [|by intros [= <-]].
  intros Hrun. apply bind_Ok in Hrun as ([[fa wo] f1] & Hb & Hrun).
  assert (H1 : length f1 = length fv).
  { destruct (negb (flagB =? 0)); [|by inversion Hb].
    apply bind_Ok in Hb as (f & Hset & Hb). inversion Hb; subst.
    by eapply setitem_Ok_length. }
  destruct (flagAbitsleft - 1 =? 0); [|by inversion Hrun].
  apply bind_Ok in Hrun as (f & Hset & Hrun). inversion Hrun; subst. simpl.
  apply setitem_Ok_length in Hset. lia.
Qed.

Lemma encode_loop_length (workview : list Z) (readofs : nat) (st st' : enc_state) :
  encode_loop workview readofs st = Ok st' →
  length (st_finalview st') = length (st_finalview st).
Proof.
  revert st. induction readofs as [|r IH]; intros st Hrun.
  - by inversion Hrun.
  - cbn [encode_loop] in Hrun.
    apply bind_Ok in Hrun as (b & _ & Hrun).
    apply bind_Ok in Hrun as ([[fb wo] f1] & Hb & Hrun).
    apply bind_Ok in Hrun as (st1 & Hflags & Hrun).
    apply IH in Hrun. apply encode_flags_length in Hflags.
    assert (H1 : length f1 = length (st_finalview st)).
    { destruct (negb (b =? 0)); [|by inversion Hb].
      apply bind_Ok in Hb as (f & Hset & Hb). inversion Hb; subst.
      by eapply setitem_Ok_length. }
    lia.
Qed.

Lemma Encode_length (workview finalview finalview' : list Z) (writeofs : Z) :
  Encode workview finalview = Ok (writeofs, finalview') →
  length finalview' = length finalview.
Proof.
  unfold Encode. intros Hrun. apply bind_Ok in Hrun as (st & Hloop & Hrun).
  inversion Hrun; subst. by apply encode_loop_length in Hloop.
Qed.

(** ** Compress and the buffers it reuses *)

Lemma hix_rows_S (stride n rowstart : nat) (besthrz : option nat) (work : list Z) :
  hix_rows stride rowstart besthrz (S n) work
  = match best_step (candidate_cost stride rowstart (take stride (drop 1 work)))
            besthrz with
    | None => None
    | Some b =>
        match hix_rows stride (rowstart + stride + 1) (Some b) n
                (drop (stride + 1) work) with
        | None => None
        | Some rest => Some (candidate stride (take stride (drop 1 work)) b ++ rest)
        end
    end.
Proof. reflexivity. Qed.

Lemma hix_rows_length (stride n rowstart : nat) (besthrz : option nat)
    (work out : list Z) :
  (n * (stride + 1) ≤ length work)%nat →
  hix_rows stride rowstart besthrz n work = Some out → length out = length work.
Proof.
  revert rowstart besthrz work out.
  induction n as [|n IH]; intros rowstart besthrz work out Hlen Hrun.
  - apply Some_inj in Hrun. by subst.
  - rewrite hix_rows_S in Hrun.
    destruct (best_step _ besthrz) as [b|]; [|done].
    destruct (hix_rows stride _ (Some b) n _) as [rest|] eqn:Hrest; [|done].
    apply Some_inj in Hrun. subst out.
    apply IH in Hrest; [|rewrite length_drop; lia].
    rewrite length_app, candidate_length, Hrest, length_drop; [lia|].
    rewrite length_take, length_drop. lia.
Qed.

(** The search reads the payload bytes of the rows only: the leading bytes
    left by an earlier use of the buffer do not matter. *)
Lemma hix_rows_ext (stride n rowstart : nat) (besthrz : option nat)
    (work1 work2 : list Z) :
  length work1 = length work2 →
  (n * (stride + 1) ≤ length work1)%nat →
  (∀ k j, (k < n)%nat → (j < stride)%nat →
     work1 !! (k * (stride + 1) + S j)%nat = work2 !! (k * (stride + 1) + S j)%nat) →
  drop (n * (stride + 1)) work1 = drop (n * (stride + 1)) work2 →
  hix_rows stride rowstart besthrz n work1 = hix_rows stride rowstart besthrz n work2.
Proof.
  revert rowstart besthrz work1 work2.
  induction n as [|n IH]; intros rowstart besthrz work1 work2 Hlen Hn Hpay Hrest.
  - simpl in *. by rewrite !drop_0 in Hrest; subst.
  - rewrite !hix_rows_S.
    assert (Hp : take stride (drop 1 work1) = take stride (drop 1 work2)).
    { apply list_eq. intros j. destruct (decide (j < stride)%nat) as [Hj|Hj].
      - rewrite !lookup_take_lt, !lookup_drop by done. apply (Hpay 0%nat j); lia.
      - by rewrite !lookup_take_ge by lia. }
    rewrite Hp. destruct (best_step _ besthrz) as [b|]; [|done].
    rewrite (IH _ (Some b) (drop (stride + 1) work1) (drop (stride + 1) work2));
      [done|by rewrite !length_drop, Hlen|rewrite length_drop; lia| |].
    + intros k j Hk Hj. rewrite !lookup_drop.
      replace (stride + 1 + (k * (stride + 1) + S j))%nat
        with (S k * (stride + 1) + S j)%nat by lia.
      apply Hpay; lia.
    + rewrite !drop_drop.
      by replace (stride + 1 + n * (stride + 1))%nat with (S n * (stride + 1))%nat
        by lia.
Qed.

(** After [VerticalIX] the payload bytes do not depend on what the
    WorkBuffer held before. *)
Lemma vertical_payload_agree (srcview wv1 wv2 : list Z) (stride h : nat)
    (rows : list nat) (k j : nat) :
  length wv1 = ((stride + 1) * h)%nat → length wv2 = ((stride + 1) * h)%nat →
  length rows = h →
  Forall (λ r, r * stride + stride ≤ length srcview)%nat rows →
  (k < h)%nat → (j < stride)%nat →
  xor_prev (stride + 1) (place_rows srcview stride wv1 rows)
    !! (k * (stride + 1) + S j)%nat
  = xor_prev (stride + 1) (place_rows srcview stride wv2 rows)
      !! (k * (stride + 1) + S j)%nat.
Proof.
  intros H1 H2 Hrows Hin Hk Hj.
  destruct (lookup_lt_is_Some_2 rows k) as [r Hr]; [lia|].
  assert (Hri : (r * stride + stride ≤ length srcview)%nat)
    by (by eapply Forall_lookup_1 in Hin).
  destruct (lookup_lt_is_Some_2 srcview (r * stride + j)) as [a Ha]; [lia|].
  assert (HP : ∀ wv, length wv = ((stride + 1) * h)%nat →
            place_rows srcview stride wv rows !! (k * (stride + 1) + S j)%nat
            = Some a).
  { intros wv Hwv. rewrite (place_rows_lookup _ _ _ _ k r) by (done || lia). done. }
  rewrite (xor_prev_lookup _ _ _ a (HP wv1 H1)).
  rewrite (xor_prev_lookup _ _ _ a (HP wv2 H2)).
  do 2 f_equal. case_decide; [done|]. f_equal.
  destruct k as [|k']; [lia|].
  replace (S k' * (stride + 1) + S j - (stride + 1))%nat
    with (k' * (stride + 1) + S j)%nat by lia.
  destruct (lookup_lt_is_Some_2 rows k') as [r' Hr']; [lia|].
  by rewrite !(place_rows_lookup _ _ _ _ k' r') by (done || lia).
Qed.

(** One trial of [Compress] on buffers of its own: the body of the loop
    with [workbuf], [rowbuf] and [finalbuf] allocated afresh, as lines
    164-172 allocate them; the state is [(bestofs, best)]. *)
Definition fresh_trial (srcview : list Z) (w h : nat)
    (hrz_lookup vrt_lookup : gmap nat (list (option nat)))
    (st : Z * option (list Z * nat)) (vrt : nat)
    : result (Z * option (list Z * nat)) :=
  let stride := Nat.shiftr w 1 in
  rowbuf ← make_rowbuf stride;
  let workview := replicate ((stride + 1) * h) 0 in
  let finalview := replicate (length workview * 8 / 7) 0 in
  vrt_list ← getkey vrt_lookup vrt;
  workview ← VerticalIX srcview workview w h vrt_list;
  '(workview, _) ← HorizontalIX workview rowbuf w h hrz_lookup;
  '(writeofs, finalview) ← Encode workview finalview;
  if st.1 <? writeofs
  then Ok (writeofs, Some (slice_from finalview writeofs, vrt))
  else Ok st.

(** [Compress] with no buffer shared between the trials. *)
Definition Compress_fresh (srcbuf : list Z) (w h : nat) : result (list Z * nat) :=
  let stride := Nat.shiftr w 1 in
  hrz_lookup ← MakeInterlaceTable stride hrz_steps;
  vrt_lookup ← MakeInterlaceTable h [1; 2; 4]%nat;
  st ← foldM (fresh_trial srcbuf w h hrz_lookup vrt_lookup) (0, None)
         [2; 1; 4]%nat;
  bound st.2.

(** What the buffers of [Compress] satisfy between two trials. *)
Definition trial_inv (stride h : nat) (st : trial_state) : Prop :=
  length (t_workview st) = ((stride + 1) * h)%nat ∧
  rowbuf_ok stride (t_rowbuf st) ∧
  length (t_finalview st) = ((stride + 1) * h * 8 / 7)%nat ∧
  0 ≤ t_bestofs st.

Lemma foldM_rel {A S1 S2 : Type} (R : S1 → S2 → Prop)
    (f1 : S1 → A → result S1) (f2 : S2 → A → result S2) (l : list A)
    (s1 : S1) (s2 : S2) :
  (∀ a s1 s2, a ∈ l → R s1 s2 → res_rel R (f1 s1 a) (f2 s2 a)) →
  R s1 s2 → res_rel R (foldM f1 s1 l) (foldM f2 s2 l).
Proof.
  revert s1 s2. induction l as [|a l IH]; intros s1 s2 Hf HR; [done|].
  cbn [foldM]. eapply res_rel_bind.
  - apply Hf; [by left|done].
  - intros t1 t2 Ht. apply IH; [|done].
    intros b u1 u2 Hb Hu. apply Hf; [by right|done].
Qed.

Lemma res_rel_eq {A : Type} (r1 r2 : result A) : res_rel eq r1 r2 → r1 = r2.
Proof. destruct r1, r2; simpl; try done; by intros ->. Qed.

Lemma slice_from_same_tail (writeofs : Z) (fv1 fv2 : list Z) :
  0 ≤ writeofs → same_tail writeofs fv1 fv2 →
  slice_from fv1 writeofs = slice_from fv2 writeofs.
Proof.
  intros Hpos [Hlen Htail]. specialize (Htail Hpos). unfold slice_from, clamp.
  destruct (Z.ltb_spec writeofs 0); [lia|]. rewrite <- Hlen.
  destruct (decide (Z.to_nat writeofs ≤ length fv1)%nat).
  - by rewrite Nat.min_l by done.
  - rewrite Nat.min_r by lia. by rewrite !drop_ge by lia.
Qed.

Section trial.
Variables (srcview : list Z) (w h : nat).
Variables (hrz_lookup vrt_lookup : gmap nat (list (option nat))).
Hypothesis src_length : length srcview = (row_stride w * h)%nat.
Hypothesis hrz_ok : lookup_ok (row_stride w) hrz_lookup.

(** One trial on the shared buffers does what it does on fresh ones. *)
Lemma compress_trial_fresh (st : trial_state) (vrt : nat) (rows : list nat) :
  trial_inv (row_stride w) h st →
  vrt_lookup !! vrt = Some (Some <$> rows) →
  length rows = h → Forall (λ r, r < h)%nat rows →
  res_rel (λ st' fr, trial_inv (row_stride w) h st' ∧
                     t_bestofs st' = fr.1 ∧ t_best st' = fr.2)
    (compress_trial srcview w h hrz_lookup vrt_lookup st vrt)
    (fresh_trial srcview w h hrz_lookup vrt_lookup (t_bestofs st, t_best st) vrt).
Proof using src_length hrz_ok.
  intros (Hwv & Hrb & Hfv & Hofs) Hvrt Hrows Hlt.
  pose proof (rows_in_source _ _ _ _ src_length Hlt) as Hin.
  unfold compress_trial, fresh_trial. fold (row_stride w).
  set (stride := row_stride w) in *.
  destruct (make_rowbuf_spec stride) as (rb0 & Hrb0 & _).
  rewrite Hrb0. cbn [mbind result_bind].
  pose proof (make_rowbuf_ok _ _ Hrb0) as Hrb0ok.
  unfold getkey. rewrite Hvrt. cbn [mbind result_bind].
  set (wv0 := replicate ((stride + 1) * h) 0).
  assert (Hwv0 : length wv0 = ((stride + 1) * h)%nat) by apply length_replicate.
  rewrite (VerticalIX_spec srcview (t_workview st) w h rows) by done.
  rewrite (VerticalIX_spec srcview wv0 w h rows) by done.
  change (Nat.shiftr w 1) with stride. cbn [mbind result_bind].
  set (V1 := xor_prev (stride + 1) (place_rows srcview stride (t_workview st) rows)).
  set (V0 := xor_prev (stride + 1) (place_rows srcview stride wv0 rows)).
  assert (HV1 : length V1 = ((stride + 1) * h)%nat).
  { unfold V1. rewrite xor_prev_length, place_rows_length; [done|done|lia]. }
  assert (HV0 : length V0 = ((stride + 1) * h)%nat).
  { unfold V0. rewrite xor_prev_length, place_rows_length; [done|done|lia]. }
  destruct (HorizontalIX_spec V1 (t_rowbuf st) w h hrz_lookup hrz_ok Hrb)
    as (rb1' & Hrb1' & Hh1); [fold stride; lia|].
  destruct (HorizontalIX_spec V0 rb0 w h hrz_lookup hrz_ok Hrb0ok)
    as (rb0' & Hrb0' & Hh0); [fold stride; lia|].
  rewrite Hh1, Hh0. fold stride.
  rewrite (hix_rows_ext stride h 1 None V0 V1);
    [|lia|lia| |by rewrite !drop_ge by lia].
  2:{ intros k j Hk Hj. unfold V0, V1.
      by apply (vertical_payload_agree srcview wv0 (t_workview st) stride h). }
  destruct (hix_rows stride 1 None h V1) as [out|] eqn:Hout; [|done].
  cbn [mbind result_bind].
  assert (Holen : length out = length V1).
  { eapply hix_rows_length; [|exact Hout]. lia. }
  pose proof (Encode_same_tail out (t_finalview st)
                (replicate (length wv0 * 8 / 7) 0)) as Henc.
  assert (Hfl : length (t_finalview st)
                = length (replicate (length wv0 * 8 / 7) 0))
    by (by rewrite length_replicate, Hwv0).
  specialize (Henc Hfl).
  destruct (Encode out (t_finalview st)) as [[wo1 f1]|e1|] eqn:He1;
    destruct (Encode out (replicate (length wv0 * 8 / 7) 0)) as [[wo2 f2]|e2|];
    try done.
  cbn [res_rel fst snd] in Henc.
  destruct Henc as [<- Htail]. cbn [mbind result_bind fst snd].
  apply Encode_length in He1.
  destruct (Z.ltb_spec (t_bestofs st) wo1) as [Hbetter|Hworse];
    cbn [res_rel fst snd t_bestofs t_best].
  - split; [|split; [done|]].
    + unfold trial_inv. cbn [t_workview t_rowbuf t_finalview t_bestofs].
      split; [lia|]. split; [done|]. split; [by rewrite He1|lia].
    + do 2 f_equal. apply slice_from_same_tail; [lia|done].
  - split; [|by split].
    unfold trial_inv. cbn [t_workview t_rowbuf t_finalview t_bestofs].
    split; [lia|]. split; [done|]. split; [by rewrite He1|lia].
Qed.
End trial.

Lemma Compress_eq_fresh (srcbuf : list Z) (w h : nat) :
  length srcbuf = (row_stride w * h)%nat →
  Compress srcbuf w h = Compress_fresh srcbuf w h.
Proof.
  intros Hsrc. unfold Compress, Compress_fresh. fold (row_stride w).
  set (stride := row_stride w) in *.
  destruct (MakeInterlaceTable_lookup_ok stride) as (hl & Hhl & Hok).
  rewrite Hhl. cbn [mbind result_bind].
  destruct (MakeInterlaceTable_lookup h [1; 2; 4]%nat) as (vl & Hvl & Hlk).
  rewrite Hvl. cbn [mbind result_bind].
  destruct (make_rowbuf_spec stride) as (rb & Hrb & _).
  rewrite Hrb. cbn [mbind result_bind].
  apply res_rel_eq.
  eapply (res_rel_bind
            (λ (st : trial_state) (fr : Z * option (list Z * nat)),
               trial_inv stride h st ∧ t_bestofs st = fr.1 ∧ t_best st = fr.2)).
  - apply foldM_rel.
    + intros vrt st [ofs best] Hvrt (Hinv & Hofs & Hbest). simpl in Hofs, Hbest.
      subst ofs best.
      assert (Hv : (0 < vrt)%nat ∧ vrt ∈ [1; 2; 4]%nat).
      { rewrite !elem_of_cons in Hvrt |- *.
        destruct Hvrt as [->|[->|[->|Hnil]]]; [split; [lia|tauto]..|].
        by apply elem_of_nil in Hnil. }
      destruct Hv as [Hpos Hmem].
      pose proof (interlace_perm_Permutation h vrt Hpos) as Hperm.
      apply (compress_trial_fresh srcbuf w h hl vl Hsrc Hok st vrt
               (interlace_perm h vrt)); [done| | |].
      * rewrite Hlk. rewrite decide_True; [done|]. split; [lia|done].
      * by rewrite (Permutation_length Hperm), length_seq.
      * apply Forall_forall. intros r Hr. rewrite Hperm in Hr.
        apply elem_of_seq in Hr. lia.
    + split; [|done]. unfold trial_inv. simpl.
      rewrite !length_replicate. split; [done|]. split; [|done].
      by apply make_rowbuf_ok.
  - intros st [ofs best] (_ & _ & Hbest). simpl in Hbest. subst best. simpl.
    by destruct (t_best st).
Qed.

(** [Compress] reuses [workbuf], [rowbuf] and [finalbuf] from one trial to
    the next, yet for a plane buffer of [(w >> 1) * h] bytes it returns,
    or fails, exactly as if every trial had started on freshly allocated
    buffers: the stale row markers, candidate rows and output bytes of an
    earlier trial never reach a later result. *)
Theorem Compress_as_on_fresh_buffers (srcbuf : list Z) (w h : nat) :
  length srcbuf = (row_stride w * h)%nat →
  Compress srcbuf w h = Compress_fresh srcbuf w h.
Proof.
  intros Hsrc. rewrite (Compress_eq_fresh srcbuf w h Hsrc). reflexivity.
Qed.

Lemma Compress_as_on_fresh_buffers_witness :
  Compress [192; 0; 0; 0; 192; 0; 0; 0] 8 2
  = Compress_fresh [192; 0; 0; 0; 192; 0; 0; 0] 8 2.
Proof.
  apply (Compress_as_on_fresh_buffers [192; 0; 0; 0; 192; 0; 0; 0] 8 2).
  reflexivity.
Defined.

(** ** Encode: the stream can be decoded *)

(** The eight bits of a flag byte, the highest first. *)
Definition bits8 (z : Z) : list bool :=
  [Z.testbit z 7; Z.testbit z 6; Z.testbit z 5; Z.testbit z 4;
   Z.testbit z 3; Z.testbit z 2; Z.testbit z 1; Z.testbit z 0].

(** A reader of the stream, written from the format: [fa] holds the bits
    of the current flag A byte that are still to be used (one per group of
    8 source bytes), [fb] those of the current flag B byte (one per source
    byte). With no group open, the next flag A bit says whether a flag B
    byte follows in the stream or the group is all zero. *)
Definition open_group (fa fb : list bool) (s : list Z)
    : list bool * list bool * list Z :=
  match fb with
  | _ :: _ => (fa, fb, s)
  | [] =>
      let '(fa, s) := match fa with
                      | _ :: _ => (fa, s)
                      | [] => (bits8 (hd 0 s), tl s)
                      end in
      match fa with
      | true :: fa' => (fa', bits8 (hd 0 s), tl s)
      | _ :: fa' => (fa', replicate 8 false, s)
      | [] => ([], replicate 8 false, s)
      end
  end.

(** The next [n] source bytes. *)
Fixpoint dec (n : nat) (fa fb : list bool) (s : list Z) : list Z :=
  match n with
  | O => []
  | S n' =>
      let '(fa, fb, s) := open_group fa fb s in
      match fb with
      | true :: fb' => hd 0 s :: dec n' fa fb' (tl s)
      | _ :: fb' => 0 :: dec n' fa fb' s
      | [] => 0 :: dec n' fa [] s
      end
  end.

(** The [L] source bytes of a stream. *)
Definition decode (L : nat) (stream : list Z) : list Z := dec L [] [] stream.

(** A flag byte after one more step of the backward scan: shifted right,
    with the top bit set for a literal (resp. a flag B byte). *)
Definition shift_in (b : bool) (f : Z) : Z :=
  if b then Z.lor (Z.shiftr f 1) 0x80 else Z.shiftr f 1.

Lemma byte_cases (P : Z → bool) :
  forallb P (seqZ 0 256) = true → ∀ f, 0 ≤ f < 256 → P f = true.
Proof.
  intros Hall f Hf. apply (proj1 (forallb_forall P (seqZ 0 256)) Hall).
  apply list_elem_of_In, elem_of_seqZ. lia.
Qed.

Lemma shift_in_bits (b : bool) (f : Z) :
  0 ≤ f < 256 →
  bits8 (shift_in b f) = b :: take 7 (bits8 f) ∧ 0 ≤ shift_in b f < 256.
Proof.
  intros Hf.
  pose proof (byte_cases
    (λ f, bool_decide (bits8 (shift_in true f) = true :: take 7 (bits8 f)
                       ∧ 0 ≤ shift_in true f < 256)
          && bool_decide (bits8 (shift_in false f) = false :: take 7 (bits8 f)
                          ∧ 0 ≤ shift_in false f < 256))
    ltac:(by vm_compute) f Hf) as Hc.
  apply andb_true_iff in Hc as [Ht Hff].
  apply bool_decide_eq_true in Ht, Hff. by destruct b.
Qed.

#[local] Ltac ndm := zify; Z.div_mod_to_equations; lia.

Lemma bits8_length (z : Z) : length (bits8 z) = 8%nat.
Proof. done. Qed.

Lemma dec_S_cons (n : nat) (fa : list bool) (b : bool) (fb : list bool)
    (s : list Z) :
  dec (S n) fa (b :: fb) s
  = if b then hd 0 s :: dec n fa fb (tl s) else 0 :: dec n fa fb s.
Proof. by destruct b. Qed.

Lemma dec_S_nil (n : nat) (fa : list bool) (s : list Z)
    (fa' fb' : list bool) (s' : list Z) :
  open_group fa [] s = (fa', fb', s') → fb' ≠ [] →
  dec (S n) fa [] s = dec (S n) fa' fb' s'.
Proof.
  intros Ho Hne. destruct fb' as [|b fb']; [done|].
  rewrite dec_S_cons. cbn [dec]. rewrite Ho. by destruct b.
Qed.

Lemma open_group_cons (a : bool) (fa : list bool) (s : list Z) :
  open_group (a :: fa) [] s
  = (fa, if a then bits8 (hd 0 s) else replicate 8 false, if a then tl s else s).
Proof. by destruct a. Qed.

Lemma open_group_nil (s : list Z) :
  open_group [] [] s = open_group (bits8 (hd 0 s)) [] (tl s).
Proof. done. Qed.

(** The reader uses one flag B bit per byte, and one flag A bit per started
    group of 8 bytes: bits beyond those do not matter. *)
Lemma dec_fb_app (n : nat) (fa fa2 fb extra : list bool) (s : list Z) :
  (n ≤ length fb)%nat → dec n fa (fb ++ extra) s = dec n fa2 fb s.
Proof.
  revert fb s. induction n as [|n IH]; intros fb s Hn; [done|].
  destruct fb as [|b fb]; [simpl in Hn; lia|].
  rewrite <- app_comm_cons, !dec_S_cons. simpl in Hn.
  destruct b; rewrite IH by lia; done.
Qed.

Lemma dec_fa_app (n : nat) (fa extra fb : list bool) (s : list Z) :
  (n ≤ length fb + 8 * length fa)%nat →
  dec n (fa ++ extra) fb s = dec n fa fb s.
Proof.
  revert fa fb s. induction n as [|n IH]; intros fa fb s Hn; [done|].
  destruct fb as [|b fb].
  - destruct fa as [|a fa]; [simpl in Hn; lia|].
    rewrite <- app_comm_cons.
    set (fbn := if a then bits8 (hd 0 s) else replicate 8 false).
    assert (Hlen : length fbn = 8%nat) by (by destruct a).
    destruct fbn as [|b fbn'] eqn:Hfbn; [done|].
    rewrite (dec_S_nil n _ s (fa ++ extra) (b :: fbn') (if a then tl s else s));
      [|by rewrite open_group_cons; fold fbn; rewrite Hfbn|done].
    rewrite (dec_S_nil n (a :: fa) s fa (b :: fbn') (if a then tl s else s));
      [|by rewrite open_group_cons; fold fbn; rewrite Hfbn|done].
    rewrite !dec_S_cons. simpl in Hn, Hlen.
    destruct b; rewrite IH by lia; done.
  - rewrite !dec_S_cons. simpl in Hn.
    destruct b; rewrite IH by lia; done.
Qed.

Lemma dec_literal_step (n : nat) (fa X : list bool) (p : nat) (lit : bool)
    (b : Z) (s rest : list Z) :
  (p ≤ 7)%nat →
  dec n fa (take p X) s = rest →
  (if lit then True else b = 0) →
  dec (S n) fa (take (S p) (lit :: take 7 X)) (if lit then b :: s else s)
  = b :: rest.
Proof.
  intros Hp Hd Hb. cbn [take]. rewrite take_take, Nat.min_l by lia.
  rewrite dec_S_cons. destruct lit; simpl; subst; done.
Qed.

Lemma dec_group_step (n : nat) (fa : list bool) (g : nat) (fB : Z)
    (s out : list Z) :
  (g ≤ 8)%nat → (g = 8 ∨ S n ≤ g)%nat →
  dec (S n) fa (take g (bits8 fB)) s = out →
  dec (S n) (negb (fB =? 0) :: fa) []
      (if negb (fB =? 0) then fB :: s else s) = out.
Proof.
  intros Hg Hn Hd.
  assert (Hfull : dec (S n) fa (bits8 fB) s = out).
  { destruct Hn as [->|Hn]; [done|].
    rewrite <- (take_drop g (bits8 fB)), (dec_fb_app _ fa fa); [done|].
    rewrite length_take, bits8_length. lia. }
  destruct (Z.eqb_spec fB 0) as [->|Hnz]; cbn [negb].
  - by rewrite (dec_S_nil n _ s fa (replicate 8 false) s).
  - by rewrite (dec_S_nil n _ (fB :: s) fa (bits8 fB) s).
Qed.

Lemma dec_block_step (n k : nat) (fA : Z) (s out : list Z) :
  (k ≤ 8)%nat → (k = 8 ∨ S n ≤ 8 * k)%nat →
  dec (S n) (take k (bits8 fA)) [] s = out →
  dec (S n) [] [] (fA :: s) = out.
Proof.
  intros Hk Hn Hd.
  assert (Hfull : dec (S n) (bits8 fA) [] s = out).
  { destruct Hn as [->|Hn]; [done|].
    rewrite <- (take_drop k (bits8 fA)), dec_fa_app; [done|].
    rewrite length_take, bits8_length. simpl. lia. }
  rewrite <- Hfull. cbn [dec]. by rewrite open_group_nil.
Qed.

(** ** Encode as a function of the source bytes *)

(** Lines 143-156 on the stream [s] written so far, its first byte being
    the one at [writeofs]: with [r] source bytes still to scan, a group of 8
    closes when [r] is a multiple of 8, and a group of 64 when [r] is a
    multiple of 64. *)
Definition emit_flags (r : nat) (fA fB : Z) (s : list Z) : Z * list Z :=
  if (r mod 8 =? 0)%nat then
    let present := negb (fB =? 0) in
    let fA := shift_in present fA in
    let s := if present then fB :: s else s in
    if (r mod 64 =? 0)%nat then (fA, fA :: s) else (fA, s)
  else (fA, s).

(** Lines 135-156: the flags and the stream after the scan of the first
    [r] source bytes, from the last one back to the first. *)
Fixpoint emit (W : list Z) (r : nat) (fA fB : Z) (s : list Z)
    : Z * Z * list Z :=
  match r with
  | O => (fA, fB, s)
  | S r' =>
      let b := default 0 (W !! r') in
      let lit := negb (b =? 0) in
      let fB := shift_in lit fB in
      let s := if lit then b :: s else s in
      let '(fA, s) := emit_flags r' fA fB s in
      emit W r' fA fB s
  end.

(** The stream of a whole buffer. *)
Definition encoded (W : list Z) : list Z := (emit W (length W) 0 0 []).2.

(** The worst-case size of the stream of [r] source bytes: every byte a
    literal, one flag B byte per started group of 8 and one flag A byte per
    started group of 64. *)
Definition worst_case (r : nat) : nat := (r + (r + 7) / 8 + (r + 63) / 64)%nat.

Lemma worst_case_S (r : nat) :
  worst_case (S r)
  = (worst_case r + 1 + (if (r mod 8 =? 0)%nat then 1 else 0)
     + (if (r mod 64 =? 0)%nat then 1 else 0))%nat.
Proof.
  unfold worst_case.
  destruct (Nat.eqb_spec (r mod 8) 0); destruct (Nat.eqb_spec (r mod 64) 0); ndm.
Qed.

Lemma emit_flags_length (r : nat) (fA fB : Z) (s : list Z) :
  (length s ≤ length (emit_flags r fA fB s).2
   ≤ length s + (if (r mod 8 =? 0)%nat then 1 else 0)
     + (if (r mod 64 =? 0)%nat then 1 else 0))%nat.
Proof.
  unfold emit_flags.
  destruct (r mod 8 =? 0)%nat; [|simpl; lia].
  destruct (negb (fB =? 0)); destruct (r mod 64 =? 0)%nat; simpl; lia.
Qed.

Lemma emit_length (W : list Z) (r : nat) (fA fB : Z) (s : list Z) :
  (length s ≤ length (emit W r fA fB s).2 ≤ length s + worst_case r)%nat.
Proof.
  revert fA fB s. induction r as [|r IH]; intros fA fB s.
  - simpl. lia.
  - cbn [emit]. rewrite worst_case_S.
    set (b := default 0 (W !! r)). set (lit := negb (b =? 0)).
    set (s1 := if lit then b :: s else s).
    pose proof (emit_flags_length r fA (shift_in lit fB) s1) as Hf.
    destruct (emit_flags r fA (shift_in lit fB) s1) as [fA2 s2].
    specialize (IH fA2 (shift_in lit fB) s2). cbn [snd] in Hf.
    assert (length s ≤ length s1 ≤ length s + 1)%nat
      by (subst s1; destruct lit; simpl; lia).
    lia.
Qed.

(** *** The loop computes [emit] *)

(** The destination [fv], once [Encode] has come down to offset [wo]: the
    bytes below [wo] are those of the initial buffer [fv0], the bytes from
    [wo] on are the stream [s]. *)
Definition holds (fv0 : list Z) (wo : nat) (fv s : list Z) : Prop :=
  length fv = length fv0 ∧ (wo ≤ length fv)%nat
  ∧ take wo fv = take wo fv0 ∧ drop wo fv = s.

Lemma holds_length (fv0 : list Z) (wo : nat) (fv s : list Z) :
  holds fv0 wo fv s → (wo + length s = length fv0)%nat.
Proof.
  intros (Hlen & Hwo & _ & Hs). rewrite <- Hs, length_drop. lia.
Qed.

Lemma write_holds (fv0 : list Z) (wo : nat) (fv s : list Z) (v : Z) :
  holds fv0 wo fv s → (length s < length fv0)%nat →
  ∃ wo' fv', wo = S wo' ∧ setitem fv (Z.of_nat wo - 1) v = Ok fv'
             ∧ holds fv0 wo' fv' (v :: s).
Proof.
  intros H Hcap. pose proof (holds_length _ _ _ _ H) as Hl.
  destruct H as (Hlen & Hwo & Hpre & Hs).
  destruct wo as [|wo']; [lia|].
  exists wo', (<[wo' := v]> fv). split; [done|]. split.
  { replace (Z.of_nat (S wo') - 1) with (Z.of_nat wo') by lia.
    apply setitem_nat. lia. }
  split; [by rewrite length_insert|]. split; [rewrite length_insert; lia|].
  split.
  - rewrite take_insert_ge by lia.
    apply (f_equal (take wo')) in Hpre.
    by rewrite !take_take, Nat.min_l in Hpre by lia.
  - rewrite <- Hs. destruct (lookup_lt_is_Some_2 fv wo' ltac:(lia)) as [x Hx].
    rewrite (drop_S (<[wo' := v]> fv) v wo')
      by (apply list_lookup_insert_eq; lia).
    f_equal. by rewrite drop_insert_lt by lia.
Qed.

Lemma bits_left_step (r : nat) :
  if (r mod 8 =? 0)%nat then
    bits_left_B (S r) - 1 = 0 ∧ bits_left_B r = 8
    ∧ (if (r mod 64 =? 0)%nat
       then bits_left_A (S r) - 1 = 0 ∧ bits_left_A r = 8
       else bits_left_A (S r) - 1 ≠ 0 ∧ bits_left_A (S r) - 1 = bits_left_A r)
  else bits_left_B (S r) - 1 ≠ 0 ∧ bits_left_B (S r) - 1 = bits_left_B r
       ∧ bits_left_A (S r) = bits_left_A r.
Proof.
  unfold bits_left_A, bits_left_B.
  destruct (Nat.eqb_spec (r mod 8) 0); [destruct (Nat.eqb_spec (r mod 64) 0)|];
    repeat case_match; rewrite ?Z.eqb_eq, ?Z.eqb_neq in *; ndm.
Qed.

Lemma encode_flags_emit (fv0 : list Z) (r : nat) (fA fB : Z) (wo : nat)
    (fv s : list Z) :
  holds fv0 wo fv s →
  (length (emit_flags r fA fB s).2 ≤ length fv0)%nat →
  ∃ (wo' : nat) fv',
    encode_flags fA fB (bits_left_A (S r)) (bits_left_B (S r)) wo fv
    = Ok (EncState (emit_flags r fA fB s).1 fB (bits_left_A r) (bits_left_B r)
            wo' fv')
    ∧ holds fv0 wo' fv' (emit_flags r fA fB s).2.
Proof.
  intros H Hcap. pose proof (bits_left_step r) as Hstep.
  unfold encode_flags, emit_flags in *.
  destruct (r mod 8 =? 0)%nat.
  - destruct Hstep as (HB & -> & HA). rewrite (proj2 (Z.eqb_eq _ _) HB).
    unfold shift_in in *.
    assert (∃ (wo1 : nat) fv1,
      (if negb (fB =? 0)
       then (let writeofs := Z.of_nat wo - 1 in
             finalview ← setitem fv writeofs fB;
             Ok (Z.lor (Z.shiftr fA 1) 128, writeofs, finalview))
       else Ok (Z.shiftr fA 1, Z.of_nat wo, fv))
      = Ok (if negb (fB =? 0) then Z.lor (Z.shiftr fA 1) 128 else Z.shiftr fA 1,
            Z.of_nat wo1, fv1)
      ∧ holds fv0 wo1 fv1 (if negb (fB =? 0) then fB :: s else s))
      as (wo1 & fv1 & Heq & H1).
    { destruct (negb (fB =? 0)).
      - destruct (write_holds fv0 wo fv s fB H) as (wo1 & fv1 & -> & Hset & H1).
        { destruct (r mod 64 =? 0)%nat; simpl in Hcap; lia. }
        exists wo1, fv1. cbn zeta. rewrite Hset. cbn [mbind result_bind].
        split; [|done]. do 3 f_equal. lia.
      - by exists wo, fv. }
    cbn zeta in Heq. rewrite Heq. cbn [mbind result_bind].
    set (fA1 := if negb (fB =? 0) then Z.lor (Z.shiftr fA 1) 128
                else Z.shiftr fA 1) in *.
    set (s1 := if negb (fB =? 0) then fB :: s else s) in *.
    destruct (r mod 64 =? 0)%nat.
    + destruct HA as (HA & ->). rewrite (proj2 (Z.eqb_eq _ _) HA).
      destruct (write_holds fv0 wo1 fv1 s1 fA1 H1) as (wo2 & fv2 & -> & Hset & H2).
      { simpl in Hcap. lia. }
      rewrite Hset. cbn [mbind result_bind fst snd].
      exists wo2, fv2. split; [|done]. do 2 f_equal. lia.
    + destruct HA as (HA & <-). rewrite (proj2 (Z.eqb_neq _ _) HA).
      by exists wo1, fv1.
  - destruct Hstep as (HB & <- & <-). rewrite (proj2 (Z.eqb_neq _ _) HB).
    by exists wo, fv.
Qed.

Lemma encode_loop_emit (fv0 W : list Z) (r : nat) :
  ∀ (fA fB : Z) (wo : nat) (fv s : list Z),
    (r ≤ length W)%nat →
    holds fv0 wo fv s →
    (length (emit W r fA fB s).2 ≤ length fv0)%nat →
    ∃ (wo' : nat) fv',
      encode_loop W r
        (EncState fA fB (bits_left_A r) (bits_left_B r) wo fv)
      = Ok (EncState (emit W r fA fB s).1.1 (emit W r fA fB s).1.2 8 8 wo' fv')
      ∧ holds fv0 wo' fv' (emit W r fA fB s).2.
Proof.
  induction r as [|r IH]; intros fA fB wo fv s Hr H Hcap.
  - by exists wo, fv.
  - destruct (lookup_lt_is_Some_2 W r ltac:(lia)) as [b Hb].
    cbn [encode_loop emit st_flagA st_flagB st_flagAbitsleft st_flagBbitsleft
         st_writeofs st_finalview] in *.
    rewrite (getitem_nat _ r b Hb). rewrite Hb in *. cbn [from_option id] in *.
    cbn [mbind result_bind].
    set (lit := negb (b =? 0)) in *.
    set (fB1 := shift_in lit fB) in *.
    set (s1 := if lit then b :: s else s) in *.
    pose proof (emit_flags_length r fA fB1 s1) as Hfl.
    assert (∃ (wo1 : nat) fv1,
      (if lit
       then (let writeofs := Z.of_nat wo - 1 in
             finalview ← setitem fv writeofs b;
             Ok (Z.lor (Z.shiftr fB 1) 128, writeofs, finalview))
       else Ok (Z.shiftr fB 1, Z.of_nat wo, fv))
      = Ok (fB1, Z.of_nat wo1, fv1) ∧ holds fv0 wo1 fv1 s1)
      as (wo1 & fv1 & Heq & H1).
    { subst fB1 s1. destruct lit.
      - destruct (write_holds fv0 wo fv s b H) as (wo1 & fv1 & -> & Hset & H1).
        { destruct (emit_flags r fA (shift_in true fB) (b :: s)) as [fA2 s2].
          pose proof (emit_length W r fA2 (shift_in true fB) s2).
          cbn [snd length] in *. lia. }
        exists wo1, fv1. cbn zeta. rewrite Hset. cbn [mbind result_bind].
        split; [|done]. do 3 f_equal. lia.
      - by exists wo, fv. }
    cbn zeta in Heq |- *. rewrite Heq. cbn [mbind result_bind].
    destruct (encode_flags_emit fv0 r fA fB1 wo1 fv1 s1 H1)
      as (wo2 & fv2 & -> & H2).
    { destruct (emit_flags r fA fB1 s1) as [fA2 s2].
      pose proof (emit_length W r fA2 fB1 s2). cbn [snd] in *. lia. }
    cbn [mbind result_bind].
    destruct (emit_flags r fA fB1 s1) as [fA2 s2]. cbn [fst snd] in *.
    apply IH; [lia|done|done].
Qed.

Lemma Encode_emit (W fv : list Z) :
  (length (encoded W) ≤ length fv)%nat →
  Encode W fv
  = Ok (Z.of_nat (length fv - length (encoded W)),
        take (length fv - length (encoded W)) fv ++ encoded W).
Proof.
  intros Hcap. rewrite Encode_initial_counters.
  destruct (encode_loop_emit fv W (length W) 0 0 (length fv) fv [])
    as (wo & fv' & -> & H); [done| |done|].
  { split; [done|]. split; [done|]. split; [done|]. by rewrite drop_all. }
  cbn [mbind result_bind st_writeofs st_finalview]. fold (encoded W) in H.
  pose proof (holds_length _ _ _ _ H) as Hl.
  destruct H as (Hlen & Hwo & Hpre & Hs).
  replace (length fv - length (encoded W))%nat with wo by lia.
  by rewrite <- Hpre, <- Hs, take_drop.
Qed.

(** *** The stream decodes to the source *)

(** With [r] bytes still to scan, [p] counts the bytes of the open group
    of 8 already scanned and [q] the closed groups of the open group of
    64. Their flags are the top [p] bits of flag B and the top [q] bits of
    flag A, which is all the reader needs to produce the bytes from [r]
    on. *)
Lemma emit_decodes (W : list Z) (r : nat) :
  ∀ (fA fB : Z) (s : list Z) (p q : nat),
    (r ≤ length W)%nat →
    0 ≤ fA < 256 → 0 ≤ fB < 256 →
    ((r mod 8 = 0 → p = 0) ∧ p + r mod 8 ≤ 8
     ∧ (r mod 8 ≠ 0 → p + r mod 8 = 8 ∨ p = length W - r))%nat →
    ((((r + 7) / 8) mod 8 = 0 → q = 0) ∧ q + ((r + 7) / 8) mod 8 ≤ 8
     ∧ (((r + 7) / 8) mod 8 ≠ 0 →
        q + ((r + 7) / 8) mod 8 = 8 ∨ length W - r ≤ p + 8 * q))%nat →
    dec (length W - r) (take q (bits8 fA)) (take p (bits8 fB)) s = drop r W →
    decode (length W) (emit W r fA fB s).2 = W.
Proof.
  induction r as [|r IH]; intros fA fB s p q Hr HfA HfB Hp Hq Hd.
  - cbn [emit snd].
    assert (p = 0%nat) as -> by (by apply Hp).
    assert (q = 0%nat) as -> by (by apply Hq).
    by rewrite Nat.sub_0_r in Hd.
  - destruct (lookup_lt_is_Some_2 W r ltac:(lia)) as [b Hb].
    cbn [emit]. rewrite Hb. cbn [from_option id].
    set (lit := negb (b =? 0)).
    destruct (shift_in_bits lit fB HfB) as [HbB HfB1].
    set (fB1 := shift_in lit fB) in *.
    set (s1 := if lit then b :: s else s).
    replace (length W - r)%nat with (S (length W - S r)) in * by lia.
    assert (Hp7 : (p ≤ 7)%nat) by ndm.
    assert (Hmid : dec (S (length W - S r)) (take q (bits8 fA))
                     (take (S p) (bits8 fB1)) s1 = drop r W).
    { rewrite (drop_S W b r Hb), HbB. apply dec_literal_step; [done..|].
      subst lit. by destruct (Z.eqb_spec b 0). }
    unfold emit_flags.
    destruct (Nat.eqb_spec (r mod 8) 0) as [Hr8|Hr8].
    + set (present := negb (fB1 =? 0)).
      destruct (shift_in_bits present fA HfA) as [HbA HfA1].
      set (fA1 := shift_in present fA) in *.
      set (s2 := if present then fB1 :: s1 else s1).
      assert (Hq7 : (q ≤ 7)%nat) by ndm.
      assert (Hgrp : dec (S (length W - S r)) (take (S q) (bits8 fA1)) [] s2
                     = drop r W).
      { rewrite HbA. cbn [take]. rewrite take_take, Nat.min_l by lia.
        apply (dec_group_step _ _ (S p)); [lia|ndm|done]. }
      destruct (Nat.eqb_spec (r mod 64) 0) as [Hr64|Hr64].
      * apply (IH fA1 fB1 (fA1 :: s2) 0%nat 0%nat); [lia|done|done|ndm|ndm|].
        apply (dec_block_step _ (S q)); [lia|ndm|done].
      * apply (IH fA1 fB1 s2 0%nat (S q)); [lia|done|done|ndm|ndm|done].
    + apply (IH fA fB1 s1 (S p) q); [lia|done|done|ndm|ndm|done].
Qed.

Lemma encoded_decodes (W : list Z) : decode (length W) (encoded W) = W.
Proof.
  apply (emit_decodes W (length W) 0 0 [] 0%nat 0%nat); [done|lia|lia|ndm|ndm|].
  by rewrite Nat.sub_diag, drop_all.
Qed.

(** *** The returned offset, whatever the size of the destination *)

Lemma encode_flags_offset (r : nat) (fA fB wo : Z) (fv s : list Z)
    (st : enc_state) :
  encode_flags fA fB (bits_left_A (S r)) (bits_left_B (S r)) wo fv = Ok st →
  st_flagA st = (emit_flags r fA fB s).1 ∧ st_flagB st = fB
  ∧ st_flagAbitsleft st = bits_left_A r ∧ st_flagBbitsleft st = bits_left_B r
  ∧ st_writeofs st
    = wo - (Z.of_nat (length (emit_flags r fA fB s).2) - Z.of_nat (length s)).
Proof.
  pose proof (bits_left_step r) as Hstep.
  unfold encode_flags, emit_flags, shift_in.
  destruct (r mod 8 =? 0)%nat.
  - destruct Hstep as (HB & -> & HA). rewrite (proj2 (Z.eqb_eq _ _) HB).
    intros Hrun. apply bind_Ok in Hrun as ([[fa wo1] f1] & Hb & Hrun).
    assert (H1 : fa = (if negb (fB =? 0) then Z.lor (Z.shiftr fA 1) 128
                       else Z.shiftr fA 1)
                 ∧ wo1 = wo - (Z.of_nat (length (if negb (fB =? 0)
                                                  then fB :: s else s))
                               - Z.of_nat (length s))).
    { destruct (negb (fB =? 0)).
      - apply bind_Ok in Hb as (f & _ & Hb). inversion Hb; subst.
        cbn [length]. split; [done|lia].
      - inversion Hb; subst. split; [done|lia]. }
    destruct H1 as [-> ->].
    destruct (r mod 64 =? 0)%nat.
    + destruct HA as (HA & ->). rewrite (proj2 (Z.eqb_eq _ _) HA) in Hrun.
      apply bind_Ok in Hrun as (f & _ & Hrun). inversion Hrun; subst.
      cbn [st_flagA st_flagB st_flagAbitsleft st_flagBbitsleft st_writeofs
           fst snd length]. repeat split; lia.
    + destruct HA as (HA & <-). rewrite (proj2 (Z.eqb_neq _ _) HA) in Hrun.
      inversion Hrun; subst.
      cbn [st_flagA st_flagB st_flagAbitsleft st_flagBbitsleft st_writeofs
           fst snd]. repeat split; lia.
  - destruct Hstep as (HB & <- & <-). rewrite (proj2 (Z.eqb_neq _ _) HB).
    intros Hrun. inversion Hrun; subst.
    cbn [st_flagA st_flagB st_flagAbitsleft st_flagBbitsleft st_writeofs
         fst snd]. repeat split; lia.
Qed.

Lemma encode_loop_offset (W : list Z) (r : nat) :
  ∀ (fA fB wo : Z) (fv s : list Z) (st' : enc_state),
    (r ≤ length W)%nat →
    encode_loop W r (EncState fA fB (bits_left_A r) (bits_left_B r) wo fv)
    = Ok st' →
    st_writeofs st'
    = wo - (Z.of_nat (length (emit W r fA fB s).2) - Z.of_nat (length s)).
Proof.
  induction r as [|r IH]; intros fA fB wo fv s st' Hr Hrun.
  - inversion Hrun; subst. cbn [emit snd st_writeofs]. lia.
  - destruct (lookup_lt_is_Some_2 W r ltac:(lia)) as [b Hb].
    cbn [encode_loop emit st_flagA st_flagB st_flagAbitsleft st_flagBbitsleft
         st_writeofs st_finalview] in *.
    rewrite (getitem_nat _ r b Hb) in Hrun. rewrite Hb. cbn [from_option id].
    cbn [mbind result_bind] in Hrun.
    apply bind_Ok in Hrun as ([[fb wo1] f1] & Hlit & Hrun).
    apply bind_Ok in Hrun as (st1 & Hflags & Hrun).
    set (lit := negb (b =? 0)) in *.
    assert (H1 : fb = shift_in lit fB
                 ∧ wo1 = wo - (Z.of_nat (length (if lit then b :: s else s))
                               - Z.of_nat (length s))).
    { unfold shift_in. destruct lit.
      - apply bind_Ok in Hlit as (f & _ & Hlit). inversion Hlit; subst.
        cbn [length]. split; [done|lia].
      - inversion Hlit; subst. split; [done|lia]. }
    destruct H1 as [-> ->].
    set (fB1 := shift_in lit fB) in *.
    set (s1 := if lit then b :: s else s) in *.
    apply (encode_flags_offset r fA fB1 _ f1 s1) in Hflags
      as (HfA & HfB & HbA & HbB & Hwo).
    destruct (emit_flags r fA fB1 s1) as [fA2 s2]. cbn [fst snd] in *.
    destruct st1 as [a1 b1 c1 d1 e1 g1]. cbn in HfA, HfB, HbA, HbB, Hwo. subst.
    rewrite (IH fA2 fB1 _ g1 s2 st' ltac:(lia) Hrun). lia.
Qed.

Lemma Encode_offset (W fv fv' : list Z) (wo : Z) :
  Encode W fv = Ok (wo, fv') →
  wo = Z.of_nat (length fv) - Z.of_nat (length (encoded W)).
Proof.
  rewrite Encode_initial_counters. intros Hrun.
  apply bind_Ok in Hrun as (st & Hloop & Hrun). inversion Hrun; subst.
  rewrite (encode_loop_offset W (length W) 0 0 _ fv [] st ltac:(done) Hloop).
  unfold encoded. cbn [length]. lia.
Qed.

Lemma emit_length_flagA (W : list Z) (r : nat) (fA fB : Z) (s : list Z) :
  (length s + flagA_bytes r ≤ length (emit W r fA fB s).2)%nat.
Proof.
  revert fA fB s. induction r as [|r IH]; intros fA fB s.
  - cbn. lia.
  - cbn [emit].
    set (b := default 0 (W !! r)). set (lit := negb (b =? 0)).
    set (s1 := if lit then b :: s else s).
    assert (length s ≤ length s1)%nat by (subst s1; destruct lit; simpl; lia).
    assert (Hf : (length s1 + (if (r mod 64 =? 0)%nat then 1 else 0)
                  ≤ length (emit_flags r fA (shift_in lit fB) s1).2)%nat).
    { unfold emit_flags.
      destruct (Nat.eqb_spec (r mod 8) 0); destruct (Nat.eqb_spec (r mod 64) 0);
        try destruct (negb (shift_in lit fB =? 0)); simpl; try lia; ndm. }
    destruct (emit_flags r fA (shift_in lit fB) s1) as [fA2 s2].
    specialize (IH fA2 (shift_in lit fB) s2). cbn [snd] in Hf.
    assert (flagA_bytes (S r)
            = flagA_bytes r + (if (r mod 64 =? 0)%nat then 1 else 0))%nat.
    { unfold flagA_bytes. destruct (Nat.eqb_spec (r mod 64) 0); ndm. }
    lia.
Qed.

Lemma emit_length_nonzero (W : list Z) (r : nat) (fA fB : Z) (s : list Z) :
  Forall (λ b, b ≠ 0) W → (r ≤ length W)%nat →
  length (emit W r fA fB s).2 = (length s + worst_case r)%nat.
Proof.
  intros Hnz. revert fA fB s. induction r as [|r IH]; intros fA fB s Hr.
  - cbn. lia.
  - destruct (lookup_lt_is_Some_2 W r ltac:(lia)) as [b Hb].
    cbn [emit]. rewrite Hb, worst_case_S. cbn [from_option id].
    assert (Hbnz : b ≠ 0)
      by (by apply (proj1 (Forall_lookup _ _) Hnz r b)).
    rewrite (proj2 (Z.eqb_neq _ _) Hbnz). cbn [negb].
    assert (HfB : shift_in true fB ≠ 0).
    { unfold shift_in. intros H0. apply Z.lor_eq_0_iff in H0 as [_ H0]. done. }
    unfold emit_flags. rewrite (proj2 (Z.eqb_neq _ _) HfB). cbn [negb].
    destruct (r mod 8 =? 0)%nat eqn:H8; [destruct (r mod 64 =? 0)%nat eqn:H64|].
    + rewrite IH by lia. cbn [length]. lia.
    + rewrite IH by lia. cbn [length]. lia.
    + rewrite IH by lia. cbn [length].
      destruct (Nat.eqb_spec (r mod 64) 0); [|lia].
      apply Nat.eqb_neq in H8. ndm.
Qed.

(** The sparse encoder is lossless. Whenever [Encode] returns an offset
    that is not negative, the bytes of the destination from that offset on
    are a stream that the reader of the flag A / flag B format turns back
    into the source buffer, and the bytes below the offset are untouched. *)
Theorem Encode_round_trip (W fv fv' : list Z) (wo : Z) :
  Encode W fv = Ok (wo, fv') → 0 ≤ wo →
  decode (length W) (drop (Z.to_nat wo) fv') = W
  ∧ take (Z.to_nat wo) fv' = take (Z.to_nat wo) fv.
Proof.
  intros Hrun Hwo. pose proof (Encode_offset _ _ _ _ Hrun) as Hofs.
  rewrite Encode_emit in Hrun by lia. inversion Hrun as [[Hw Hfv]].
  rewrite Nat2Z.id.
  set (n := (length fv - length (encoded W))%nat).
  assert (Hn : length (take n fv) = n) by (rewrite length_take; lia).
  split.
  - rewrite <- Hn at 1. rewrite drop_app_length. apply encoded_decodes.
  - rewrite <- Hn at 1. by rewrite take_app_length.
Qed.

Lemma Encode_round_trip_witness :
  decode 5 (drop (Z.to_nat 1) [0; 128; 120; 1; 2; 4; 8]) = [0; 1; 2; 4; 8]
  ∧ take (Z.to_nat 1) [0; 128; 120; 1; 2; 4; 8] = take (Z.to_nat 1) [0; 0; 0; 0; 0; 0; 0].
Proof.
  apply (Encode_round_trip [0; 1; 2; 4; 8] [0; 0; 0; 0; 0; 0; 0]
           [0; 128; 120; 1; 2; 4; 8] 1).
  - reflexivity.
  - lia.
Defined.

(** The size of the stream. A destination of [L + ceil(L/8) + ceil(L/64)]
    bytes is always enough for a source of [L] bytes: [Encode] then returns
    an offset inside the destination, having written at most that many
    bytes and at least the [ceil(L/64)] flag A bytes. *)
Theorem Encode_worst_case (W fv : list Z) :
  (worst_case (length W) ≤ length fv)%nat →
  ∃ (wo : nat) (fv' : list Z),
    Encode W fv = Ok (Z.of_nat wo, fv')
    ∧ (length fv - worst_case (length W) ≤ wo
       ≤ length fv - flagA_bytes (length W))%nat.
Proof.
  intros Hcap.
  pose proof (emit_length W (length W) 0 0 []) as Hub.
  pose proof (emit_length_flagA W (length W) 0 0 []) as Hlb.
  fold (encoded W) in Hub, Hlb. cbn [length] in Hub, Hlb.
  eexists _, _. split; [apply Encode_emit; lia|lia].
Qed.

Lemma Encode_worst_case_witness :
  ∃ (wo : nat) (fv' : list Z),
    Encode [0; 1; 2; 4; 8] [0; 0; 0; 0; 0; 0; 0] = Ok (Z.of_nat wo, fv')
    ∧ (length [0; 0; 0; 0; 0; 0; 0] - worst_case (length [0; 1; 2; 4; 8]) ≤ wo
       ≤ length [0; 0; 0; 0; 0; 0; 0] - flagA_bytes (length [0; 1; 2; 4; 8]))%nat.
Proof.
  apply (Encode_worst_case [0; 1; 2; 4; 8] [0; 0; 0; 0; 0; 0; 0]).
  vm_compute. lia.
Defined.

(** That size is reached: on a source without a zero byte, whatever the
    destination, an [Encode] that returns has moved the offset down by
    exactly [L + ceil(L/8) + ceil(L/64)]. *)
Theorem Encode_worst_case_reached (W fv fv' : list Z) (wo : Z) :
  Forall (λ b, b ≠ 0) W →
  Encode W fv = Ok (wo, fv') →
  wo = Z.of_nat (length fv) - Z.of_nat (worst_case (length W)).
Proof.
  intros Hnz Hrun. rewrite (Encode_offset _ _ _ _ Hrun). unfold encoded.
  rewrite emit_length_nonzero by done. cbn [length]. lia.
Qed.

Lemma Encode_worst_case_reached_witness :
  -1 = Z.of_nat (length [0; 0; 0; 0]) - Z.of_nat (worst_case (length [1; 2; 3])).
Proof.
  apply (Encode_worst_case_reached [1; 2; 3] [0; 0; 0; 0] [224; 1; 2; 128] (-1)).
  - repeat constructor; done.
  - reflexivity.
Defined.

(** ** The payload determines the plane buffer *)

(** A reader of the payload, written from the format. The marker byte of
    a row names its horizontal step: step 0 left the payload as it was,
    any other step is undone by XOR accumulation in the order of the
    step's permutation. *)
Definition unfilter_row (stride : nat) (m : Z) (cand : list Z) : list Z :=
  if decide (Z.to_nat m = 0%nat) then cand
  else xor_accumulate_order (interlace_perm stride (Z.to_nat m)) cand.

(** The [n] rows of [work] with their horizontal filters undone and their
    marker bytes cleared. *)
Fixpoint unfilter_rows (stride n : nat) (work : list Z) : list Z :=
  match n with
  | O => []
  | S n' =>
      0 :: unfilter_row stride (default 0 (head work)) (take stride (drop 1 work))
        ++ unfilter_rows stride n' (drop (stride + 1) work)
  end.

(** The slot of the work buffer that holds source row [i]. *)
Definition position (rows : list nat) (i : nat) : nat :=
  default 0%nat (fst <$> list_find (λ r, r = i) rows).

(** The source rows, in their own order, read back from their slots. *)
Definition unplace (stride h : nat) (rows : list nat) (placed : list Z) : list Z :=
  concat ((λ i, take stride (drop (position rows i * (stride + 1) + 1) placed))
            <$> seq 0 h).

(** From the payload and the vertical step back to the plane buffer: the
    flag stream is decoded into the work buffer, the horizontal filter of
    each row is undone, the rows are XOR-accumulated from the top and
    taken back to their place. *)
Definition decompress (w h vrt : nat) (data : list Z) : list Z :=
  let stride := Nat.shiftr w 1 in
  let work := decode ((stride + 1) * h) data in
  let filtered := unfilter_rows stride h work in
  let placed := xor_accumulate (stride + 1) filtered in
  unplace stride h (interlace_perm h vrt) placed.

Lemma unfilter_candidate (stride : nat) (payload : list Z) (b : nat) :
  length payload = stride →
  ∃ body, candidate stride payload b = Z.of_nat b :: body
          ∧ length body = stride
          ∧ unfilter_row stride (Z.of_nat b) body = payload.
Proof.
  intros Hlen. unfold candidate, unfilter_row. rewrite Nat2Z.id.
  destruct (decide (b = 0%nat)) as [->|Hb].
  - by exists payload.
  - exists (hfilter (interlace_perm stride b) payload).
    split; [done|]. split; [by rewrite hfilter_length|].
    apply xor_accumulate_order_hfilter. rewrite Hlen.
    apply interlace_perm_Permutation. lia.
Qed.

Lemma unfilter_hix_rows (stride n : nat) :
  ∀ (rowstart : nat) (besthrz : option nat) (work out : list Z),
    length work = (n * (stride + 1))%nat →
    (∀ k, (k < n)%nat → work !! (k * (stride + 1))%nat = Some 0) →
    hix_rows stride rowstart besthrz n work = Some out →
    unfilter_rows stride n out = work.
Proof.
  induction n as [|n IH]; intros rowstart besthrz work out Hlen Hlead Hrun.
  - by destruct work.
  - rewrite hix_rows_S in Hrun.
    destruct (best_step _ besthrz) as [b|]; [|done].
    destruct (hix_rows stride _ (Some b) n _) as [rest|] eqn:Hrest; [|done].
    apply Some_inj in Hrun. subst out.
    apply IH in Hrest.
    2:{ rewrite length_drop. lia. }
    2:{ intros k Hk. rewrite lookup_drop.
        replace (stride + 1 + k * (stride + 1))%nat with (S k * (stride + 1))%nat
          by lia.
        apply Hlead. lia. }
    set (payload := take stride (drop 1 work)) in *.
    assert (Hpl : length payload = stride).
    { unfold payload. rewrite length_take, length_drop. lia. }
    destruct (unfilter_candidate stride payload b Hpl) as (body & -> & Hbl & Hun).
    cbn [unfilter_rows]. rewrite <- app_comm_cons. cbn [head from_option id].
    replace (drop (stride + 1) (Z.of_nat b :: body ++ rest)) with rest.
    2:{ replace (stride + 1)%nat with (S (length body)) by lia.
        cbn [drop]. by rewrite drop_app_length. }
    change (drop 1 (Z.of_nat b :: body ++ rest)) with (body ++ rest).
    replace (take stride (body ++ rest)) with body
      by (by rewrite <- Hbl, take_app_length).
    rewrite Hun, Hrest.
    specialize (Hlead 0%nat ltac:(lia)). simpl in Hlead.
    destruct work as [|w0 work']; [done|]. simpl in Hlead. inversion Hlead; subst w0.
    unfold payload. cbn [drop]. rewrite drop_0.
    replace (stride + 1)%nat with (S stride) by lia. cbn [drop].
    by rewrite take_drop.
Qed.

Lemma position_lookup (rows : list nat) (i : nat) :
  i ∈ rows → rows !! position rows i = Some i.
Proof.
  intros Hi. unfold position.
  destruct (list_find_elem_of (λ r, r = i) rows i Hi eq_refl) as [[k r] Hf].
  rewrite Hf. cbn. apply list_find_Some in Hf as (Hk & -> & _). done.
Qed.

Lemma concat_rows (stride h : nat) (src : list Z) :
  concat ((λ i, take stride (drop (i * stride) src)) <$> seq 0 h)
  = take (h * stride) src.
Proof.
  induction h as [|h IH]; [done|].
  rewrite seq_S, fmap_app, concat_app, IH. cbn [fmap list_fmap concat Nat.add].
  rewrite app_nil_r, take_take_drop. f_equal. lia.
Qed.

Lemma unplace_place_rows (src work : list Z) (stride h : nat) (rows : list nat) :
  length src = (stride * h)%nat → rows ≡ₚ seq 0 h →
  length work = ((stride + 1) * h)%nat →
  unplace stride h rows (place_rows src stride work rows) = src.
Proof.
  intros Hsrc Hperm Hwork. unfold unplace.
  assert (Hrl : length rows = h) by (by rewrite Hperm, length_seq).
  assert (Hin : Forall (λ r, r * stride + stride ≤ length src)%nat rows).
  { apply Forall_forall. intros r Hr. rewrite Hperm in Hr.
    apply elem_of_seq in Hr. nia. }
  transitivity (take (h * stride) src); [|apply take_ge; lia].
  rewrite <- concat_rows. f_equal. apply list_fmap_ext. intros n i Hi.
  apply lookup_seq in Hi as [-> Hn]. cbn [Nat.add].
  assert (Hk : rows !! position rows n = Some n).
  { apply position_lookup. rewrite Hperm. apply elem_of_seq. lia. }
  set (k := position rows n) in *.
  apply list_eq. intros j. rewrite !lookup_take, !lookup_drop.
  case_decide as Hj; [|done].
  replace (k * (stride + 1) + 1 + j)%nat with (k * (stride + 1) + S j)%nat by lia.
  rewrite (place_rows_lookup src work stride rows k n (S j)); [done|done| |done|lia].
  rewrite Hrl. lia.
Qed.

Lemma Encode_stream (W fv fv' : list Z) (wo : Z) :
  Encode W fv = Ok (wo, fv') → 0 ≤ wo → slice_from fv' wo = encoded W.
Proof.
  intros Hrun Hwo. pose proof (Encode_offset _ _ _ _ Hrun) as Hofs.
  rewrite Encode_emit in Hrun by lia. inversion Hrun as [[Hw Hfv]].
  set (n := (length fv - length (encoded W))%nat).
  assert (Hn : length (take n fv) = n) by (rewrite length_take; lia).
  unfold slice_from. rewrite clamp_nat, Nat.min_l.
  - rewrite <- Hn at 1. by rewrite drop_app_length.
  - rewrite length_app. lia.
Qed.

Lemma vertical_lead_zero (src : list Z) (stride h : nat) (rows : list nat) (k : nat) :
  Forall (λ r, r * stride + stride ≤ length src)%nat rows →
  length rows = h → (k < h)%nat →
  xor_prev (stride + 1)
    (place_rows src stride (replicate ((stride + 1) * h) 0) rows)
    !! (k * (stride + 1))%nat = Some 0.
Proof.
  intros Hin Hrl Hk.
  set (zeros := replicate ((stride + 1) * h) 0).
  assert (Hz : length zeros = ((stride + 1) * h)%nat) by apply length_replicate.
  assert (HP : ∀ k, (k < h)%nat →
            place_rows src stride zeros rows !! (k * (stride + 1))%nat = Some 0).
  { intros k' Hk'.
    destruct (lookup_lt_is_Some_2 rows k' ltac:(lia)) as [r Hr].
    pose proof (place_rows_lookup src zeros stride rows k' r 0 Hin
                  ltac:(lia) Hr ltac:(lia)) as Hl.
    rewrite Nat.add_0_r in Hl. rewrite Hl.
    apply lookup_replicate_2. nia. }
  rewrite (xor_prev_lookup _ _ _ 0 (HP k Hk)). f_equal.
  case_decide as Hlt; [done|].
  destruct k as [|k]; [lia|].
  replace (S k * (stride + 1) - (stride + 1))%nat with (k * (stride + 1))%nat by lia.
  by rewrite HP by lia.
Qed.

Section lossless.
Variables (srcview : list Z) (w h : nat).
Variables (hrz_lookup vrt_lookup : gmap nat (list (option nat))).
Hypothesis src_length : length srcview = (row_stride w * h)%nat.
Hypothesis hrz_ok : lookup_ok (row_stride w) hrz_lookup.

(** What [Compress] has kept so far can be read back. *)
Definition readable (st : Z * option (list Z * nat)) : Prop :=
  0 ≤ st.1 ∧ ∀ d v, st.2 = Some (d, v) → decompress w h v d = srcview.

Lemma fresh_trial_readable (st st' : Z * option (list Z * nat)) (vrt : nat) :
  (0 < vrt)%nat →
  vrt_lookup !! vrt = Some (Some <$> interlace_perm h vrt) →
  readable st →
  fresh_trial srcview w h hrz_lookup vrt_lookup st vrt = Ok st' →
  readable st'.
Proof using src_length hrz_ok.
  intros Hpos Hvrt [Hofs Hbest] Hrun.
  pose proof (interlace_perm_Permutation h vrt Hpos) as Hperm.
  set (rows := interlace_perm h vrt) in *.
  assert (Hrl : length rows = h) by (by rewrite Hperm, length_seq).
  assert (Hlt : Forall (λ r, r < h)%nat rows).
  { apply Forall_forall. intros r Hr. rewrite Hperm in Hr.
    apply elem_of_seq in Hr. lia. }
  pose proof (rows_in_source _ _ _ _ src_length Hlt) as Hin.
  unfold fresh_trial in Hrun. fold (row_stride w) in Hrun.
  set (stride := row_stride w) in *.
  destruct (make_rowbuf_spec stride) as (rb0 & Hrb0 & _).
  rewrite Hrb0 in Hrun. cbn [mbind result_bind] in Hrun.
  pose proof (make_rowbuf_ok _ _ Hrb0) as Hrb0ok.
  unfold getkey in Hrun. rewrite Hvrt in Hrun. cbn [mbind result_bind] in Hrun.
  set (wv0 := replicate ((stride + 1) * h) 0) in *.
  assert (Hwv0 : length wv0 = ((stride + 1) * h)%nat) by apply length_replicate.
  rewrite (VerticalIX_spec srcview wv0 w h rows) in Hrun by done.
  change (Nat.shiftr w 1) with stride in Hrun. cbn [mbind result_bind] in Hrun.
  set (P := place_rows srcview stride wv0 rows) in *.
  set (V := xor_prev (stride + 1) P) in *.
  assert (HV : length V = ((stride + 1) * h)%nat).
  { unfold V, P. rewrite xor_prev_length, place_rows_length; [done|done|lia]. }
  destruct (HorizontalIX_spec V rb0 w h hrz_lookup hrz_ok Hrb0ok)
    as (rb' & _ & Hh); [fold stride; lia|].
  fold stride in Hh. rewrite Hh in Hrun. clear Hh.
  destruct (hix_rows stride 1 None h V) as [out|] eqn:Hout; [|done].
  cbn [mbind result_bind] in Hrun.
  apply bind_Ok in Hrun as ([wo fv'] & Henc & Hrun).
  destruct (Z.ltb_spec st.1 wo) as [Hnew|Hold].
  2:{ inversion Hrun; subst st'. by split. }
  inversion Hrun; subst st'. split; [cbn; lia|]. cbn [snd].
  intros d v [= <- <-].
  rewrite (Encode_stream _ _ _ _ Henc) by lia.
  unfold decompress. change (Nat.shiftr w 1) with stride.
  assert (Hol : length out = ((stride + 1) * h)%nat).
  { rewrite <- HV. apply (hix_rows_length stride h 1 None); [lia|done]. }
  rewrite <- Hol, encoded_decodes.
  rewrite (unfilter_hix_rows stride h 1 None V out); [|lia| |done].
  2:{ intros k Hk. by apply vertical_lead_zero. }
  unfold V. rewrite xor_accumulate_prev by lia.
  apply unplace_place_rows; [lia|done|done].
Qed.

End lossless.

Lemma foldM_invariant {A S : Type} (I : S → Prop) (f : S → A → result S)
    (l : list A) (s0 s : S) :
  (∀ a s s', a ∈ l → I s → f s a = Ok s' → I s') →
  I s0 → foldM f s0 l = Ok s → I s.
Proof.
  revert s0. induction l as [|a l IH]; intros s0 Hf H0 Hrun.
  - by inversion Hrun; subst.
  - cbn [foldM] in Hrun. apply bind_Ok in Hrun as (s1 & H1 & Hrun).
    apply (IH s1); [|by apply (Hf a s0); [left|..]|done].
    intros b t t' Hb. apply Hf. by right.
Qed.

Lemma Compress_readable (srcbuf : list Z) (w h : nat) (data : list Z)
    (vrt : nat) :
  length srcbuf = (row_stride w * h)%nat →
  Compress srcbuf w h = Ok (data, vrt) →
  decompress w h vrt data = srcbuf.
Proof.
  intros Hsrc Hrun. unfold Compress in Hrun. fold (row_stride w) in Hrun.
  set (stride := row_stride w) in *.
  destruct (MakeInterlaceTable_lookup_ok stride) as (hl & Hhl & Hok).
  rewrite Hhl in Hrun. cbn [mbind result_bind] in Hrun.
  destruct (MakeInterlaceTable_lookup h [1; 2; 4]%nat) as (vl & Hvl & Hlk).
  rewrite Hvl in Hrun. cbn [mbind result_bind] in Hrun.
  destruct (make_rowbuf_spec stride) as (rb & Hrb & _).
  rewrite Hrb in Hrun. cbn [mbind result_bind] in Hrun.
  apply bind_Ok in Hrun as (st & Hfold & Hbest).
  apply (foldM_invariant
           (λ st, trial_inv stride h st
                  ∧ readable srcbuf w h (t_bestofs st, t_best st))) in Hfold.
  - destruct Hfold as (_ & _ & Hread).
    destruct (t_best st) as [[d v]|] eqn:Hb; [|done].
    inversion Hbest; subst d v. by apply Hread.
  - intros v s s' Hv (Hinv & Hread) Hstep.
    assert (Hv' : (0 < v)%nat ∧ v ∈ [1; 2; 4]%nat).
    { rewrite !elem_of_cons in Hv |- *.
      destruct Hv as [->|[->|[->|Hnil]]]; [split; [lia|tauto]..|].
      by apply elem_of_nil in Hnil. }
    destruct Hv' as [Hpos Hmem].
    pose proof (interlace_perm_Permutation h v Hpos) as Hperm.
    assert (Hvl' : vl !! v = Some (Some <$> interlace_perm h v)).
    { rewrite Hlk. rewrite decide_True; [done|]. split; [lia|done]. }
    pose proof (compress_trial_fresh srcbuf w h hl vl Hsrc Hok s v
                  (interlace_perm h v) Hinv Hvl') as Hrel.
    rewrite Hstep in Hrel.
    destruct (fresh_trial srcbuf w h hl vl (t_bestofs s, t_best s) v)
      as [[ofs best]| |] eqn:Hfresh.
    + destruct Hrel as (Hinv' & Hofs' & Hbest').
      { by rewrite (Permutation_length Hperm), length_seq. }
      { apply Forall_forall. intros r Hr. rewrite Hperm in Hr.
        apply elem_of_seq in Hr. lia. }
      split; [done|]. cbn [fst snd] in Hofs', Hbest'. rewrite Hofs', Hbest'.
      by apply (fresh_trial_readable srcbuf w h hl vl Hsrc Hok _ _ v Hpos Hvl' Hread).
    + exfalso. apply Hrel.
      { by rewrite (Permutation_length Hperm), length_seq. }
      apply Forall_forall. intros r Hr. rewrite Hperm in Hr.
      apply elem_of_seq in Hr. lia.
    + exfalso. apply Hrel.
      { by rewrite (Permutation_length Hperm), length_seq. }
      apply Forall_forall. intros r Hr. rewrite Hperm in Hr.
      apply elem_of_seq in Hr. lia.
  - split.
    + unfold trial_inv. simpl. rewrite !length_replicate.
      split; [done|]. split; [|done]. by apply make_rowbuf_ok.
    + split; [done|]. by intros d v.
Qed.

(** [Compress] is lossless. For a plane buffer of [(w >> 1) * h] bytes,
    whenever [Compress] returns a payload and a vertical step, the reader
    of the format gets the plane buffer back from them: the flag stream
    decodes to the work buffer, the marker byte of each row tells how to
    undo its horizontal filter, XOR accumulation from the top undoes the
    vertical filter and the permutation of the vertical step takes the
    rows back to their place. *)
Theorem Compress_lossless (srcbuf : list Z) (w h : nat) (data : list Z)
    (vrt : nat) :
  length srcbuf = (row_stride w * h)%nat →
  Compress srcbuf w h = Ok (data, vrt) →
  decompress w h vrt data = srcbuf.
Proof.
  intros Hsrc Hrun. exact (Compress_readable srcbuf w h data vrt Hsrc Hrun).
Qed.

Lemma Compress_lossless_witness :
  decompress 8 3 2 [192; 126; 1; 2; 3; 4; 1; 8; 50; 1; 12; 8]
  = [1; 2; 3; 4; 5; 6; 7; 8; 9; 10; 11; 12].
Proof.
  apply (Compress_lossless [1; 2; 3; 4; 5; 6; 7; 8; 9; 10; 11; 12] 8 3
           [192; 126; 1; 2; 3; 4; 1; 8; 50; 1; 12; 8] 2).
  - reflexivity.
  - by vm_compute.
Defined.

(** ** Compress keeps the smallest payload *)

(** One trial of [Compress] run on its own, on freshly allocated buffers
    (lines 161-172 and 177-179): the offset [Encode] returns and the
    destination buffer. *)
Definition trial_run (srcbuf : list Z) (w h vrt : nat) : result (Z * list Z) :=
  let stride := Nat.shiftr w 1 in
  hrz_lookup ← MakeInterlaceTable stride hrz_steps;
  vrt_lookup ← MakeInterlaceTable h [1; 2; 4]%nat;
  rowbuf ← make_rowbuf stride;
  let workview := replicate ((stride + 1) * h) 0 in
  let finalview := replicate (length workview * 8 / 7) 0 in
  vrt_list ← getkey vrt_lookup vrt;
  workview ← VerticalIX srcbuf workview w h vrt_list;
  '(workview, _) ← HorizontalIX workview rowbuf w h hrz_lookup;
  Encode workview finalview.

(** The place of a vertical step in the order of the trials, 2, 1, 4. *)
Definition trial_rank (vrt : nat) : nat :=
  match vrt with
  | 2 => 0
  | 1 => 1
  | _ => 2
  end%nat.

Lemma fresh_trial_run (srcbuf : list Z) (w h : nat)
    (hl vl : gmap nat (list (option nat))) (st : Z * option (list Z * nat))
    (vrt : nat) :
  MakeInterlaceTable (Nat.shiftr w 1) hrz_steps = Ok hl →
  MakeInterlaceTable h [1; 2; 4]%nat = Ok vl →
  fresh_trial srcbuf w h hl vl st vrt
  = (r ← trial_run srcbuf w h vrt;
     if st.1 <? r.1 then Ok (r.1, Some (slice_from r.2 r.1, vrt)) else Ok st).
Proof.
  intros Hhl Hvl. unfold fresh_trial, trial_run. rewrite Hhl, Hvl.
  cbn [mbind result_bind].
  destruct (make_rowbuf _) as [rb| |]; [|done..]. cbn [mbind result_bind].
  destruct (getkey vl vrt) as [vlist| |]; [|done..]. cbn [mbind result_bind].
  destruct (VerticalIX _ _ _ _ _) as [wv| |]; [|done..]. cbn [mbind result_bind].
  destruct (HorizontalIX _ _ _ _ _) as [[wv' rb']| |]; [|done..].
  cbn [mbind result_bind].
  by destruct (Encode _ _) as [[wo fv]| |].
Qed.

Lemma Compress_trials (srcbuf : list Z) (w h : nat) :
  length srcbuf = (row_stride w * h)%nat →
  Compress srcbuf w h
  = (r2 ← trial_run srcbuf w h 2;
     r1 ← trial_run srcbuf w h 1;
     r4 ← trial_run srcbuf w h 4;
     let st := (0, None) in
     let st := if st.1 <? r2.1 then (r2.1, Some (slice_from r2.2 r2.1, 2%nat))
               else st in
     let st := if st.1 <? r1.1 then (r1.1, Some (slice_from r1.2 r1.1, 1%nat))
               else st in
     let st := if st.1 <? r4.1 then (r4.1, Some (slice_from r4.2 r4.1, 4%nat))
               else st in
     bound st.2).
Proof.
  intros Hsrc. rewrite (Compress_eq_fresh _ _ _ Hsrc). unfold Compress_fresh.
  destruct (MakeInterlaceTable (Nat.shiftr w 1) hrz_steps) as [hl| |] eqn:Hhl.
  2,3: by unfold trial_run; rewrite Hhl.
  destruct (MakeInterlaceTable h [1; 2; 4]%nat) as [vl| |] eqn:Hvl.
  2,3: by unfold trial_run; rewrite Hhl, Hvl.
  cbn [mbind result_bind foldM].
  rewrite !(fresh_trial_run srcbuf w h hl vl _ _ Hhl Hvl).
  destruct (trial_run srcbuf w h 2) as [[wo2 fv2]| |]; [|done..].
  cbn [mbind result_bind fst snd].
  destruct (0 <? wo2); cbn [mbind result_bind];
    rewrite !(fresh_trial_run srcbuf w h hl vl _ _ Hhl Hvl);
    (destruct (trial_run srcbuf w h 1) as [[wo1 fv1]| |]; [|done..]);
    cbn [mbind result_bind fst snd];
    (destruct (_ <? wo1)); cbn [mbind result_bind];
    rewrite !(fresh_trial_run srcbuf w h hl vl _ _ Hhl Hvl);
    (destruct (trial_run srcbuf w h 4) as [[wo4 fv4]| |]; [|done..]);
    cbn [mbind result_bind fst snd];
    by destruct (_ <? wo4).
Qed.

(** [Compress] keeps the smallest payload. For a plane buffer of
    [(w >> 1) * h] bytes, when [Compress] returns, the three trials have
    all returned, the payload is the tail of the destination of the
    returned step from its offset on, that offset is positive and no
    smaller than the offset of any other step, and it is greater than the
    offset of every step tried before: among equal offsets the step tried
    first wins. *)
Theorem Compress_keeps_smallest (srcbuf : list Z) (w h : nat) (data : list Z)
    (vrt : nat) :
  length srcbuf = (row_stride w * h)%nat →
  Compress srcbuf w h = Ok (data, vrt) →
  ∃ wo fv,
    trial_run srcbuf w h vrt = Ok (wo, fv) ∧ 0 < wo ∧ data = slice_from fv wo ∧
    ∀ v', v' ∈ [2; 1; 4]%nat →
      ∃ wo' fv', trial_run srcbuf w h v' = Ok (wo', fv') ∧ wo' ≤ wo
                 ∧ ((trial_rank v' < trial_rank vrt)%nat → wo' < wo).
Proof.
  intros Hsrc Hrun. rewrite (Compress_trials _ _ _ Hsrc) in Hrun.
  apply bind_Ok in Hrun as ([wo2 fv2] & H2 & Hrun).
  apply bind_Ok in Hrun as ([wo1 fv1] & H1 & Hrun).
  apply bind_Ok in Hrun as ([wo4 fv4] & H4 & Hrun).
  cbn [fst snd] in Hrun.
  assert (Hall : ∀ wo : Z, ∀ vrt : nat,
    vrt ∈ [2; 1; 4]%nat →
    wo2 ≤ wo → wo1 ≤ wo → wo4 ≤ wo →
    ((trial_rank 2 < trial_rank vrt)%nat → wo2 < wo) →
    ((trial_rank 1 < trial_rank vrt)%nat → wo1 < wo) →
    ∀ v', v' ∈ [2; 1; 4]%nat →
      ∃ wo' fv', trial_run srcbuf w h v' = Ok (wo', fv') ∧ wo' ≤ wo
                 ∧ ((trial_rank v' < trial_rank vrt)%nat → wo' < wo)).
  { intros wo v Hv Hle2 Hle1 Hle4 Hlt2 Hlt1 v' Hv'.
    rewrite !elem_of_cons in Hv, Hv'.
    destruct Hv' as [->|[->|[->|Hnil]]]; [..|by apply elem_of_nil in Hnil].
    - by exists wo2, fv2.
    - by exists wo1, fv1.
    - exists wo4, fv4. split; [done|]. split; [done|].
      destruct Hv as [->|[->|[->|Hnil]]]; [simpl; lia..|].
      by apply elem_of_nil in Hnil. }
  repeat match type of Hrun with
         | context [Z.ltb ?a ?b] =>
             first [is_var a | constr_eq a 0]; is_var b;
             destruct (Z.ltb_spec a b); cbn [fst snd] in Hrun
         end;
    cbn [bound] in Hrun; inversion Hrun; subst data vrt;
    (eexists _, _; split; [eassumption|]; split; [lia|]; split; [done|];
     apply Hall; [by repeat constructor|simpl; lia..]).
Qed.

Lemma Compress_keeps_smallest_witness :
  ∃ wo fv,
    trial_run [1; 2; 3; 4; 5; 6; 7; 8; 9; 10; 11; 12] 8 3 2 = Ok (wo, fv)
    ∧ 0 < wo
    ∧ [192; 126; 1; 2; 3; 4; 1; 8; 50; 1; 12; 8] = slice_from fv wo
    ∧ ∀ v', v' ∈ [2; 1; 4]%nat →
        ∃ wo' fv',
          trial_run [1; 2; 3; 4; 5; 6; 7; 8; 9; 10; 11; 12] 8 3 v' = Ok (wo', fv')
          ∧ wo' ≤ wo ∧ ((trial_rank v' < trial_rank 2)%nat → wo' < wo).
Proof.
  apply (Compress_keeps_smallest [1; 2; 3; 4; 5; 6; 7; 8; 9; 10; 11; 12] 8 3
           [192; 126; 1; 2; 3; 4; 1; 8; 50; 1; 12; 8] 2).
  - reflexivity.
  - by vm_compute.
Defined.

(** When no trial leaves room in the destination, that is when every
    trial returns an offset that is zero or negative, [bestbuf] is never
    assigned and [Compress] stops on the [return] with an
    [UnboundLocalError]. *)
Theorem Compress_unbound (srcbuf : list Z) (w h : nat) :
  length srcbuf = (row_stride w * h)%nat →
  (∀ v, v ∈ [2; 1; 4]%nat →
     ∃ wo fv, trial_run srcbuf w h v = Ok (wo, fv) ∧ wo ≤ 0) →
  Compress srcbuf w h = Raise UnboundLocalError.
Proof.
  intros Hsrc Hall. rewrite (Compress_trials _ _ _ Hsrc).
  destruct (Hall 2%nat ltac:(by repeat constructor)) as (wo2 & fv2 & -> & H2).
  destruct (Hall 1%nat ltac:(by repeat constructor)) as (wo1 & fv1 & -> & H1).
  destruct (Hall 4%nat ltac:(by repeat constructor)) as (wo4 & fv4 & -> & H4).
  cbn [mbind result_bind fst snd].
  destruct (Z.ltb_spec 0 wo2); [lia|]. cbn [fst snd].
  destruct (Z.ltb_spec 0 wo1); [lia|]. cbn [fst snd].
  destruct (Z.ltb_spec 0 wo4); [lia|]. done.
Qed.

Lemma Compress_unbound_witness :
  Compress [1; 2; 4; 8] 8 1 = Raise UnboundLocalError.
Proof.
  apply (Compress_unbound [1; 2; 4; 8] 8 1).
  - reflexivity.
  - intros v Hv. rewrite !elem_of_cons in Hv.
    destruct Hv as [->|[->|[->|Hnil]]]; [..|by apply elem_of_nil in Hnil].
    + eexists _, _. split; [by vm_compute|lia].
    + eexists _, _. split; [by vm_compute|lia].
    + eexists _, _. split; [by vm_compute|lia].
Defined.

(** ** The plane splitter *)

(** Line 245, for plane [i]: the octet so far takes bit [i] of the next
    pixel as its lowest bit. *)
Definition push_bit (i : nat) (o p : Z) : Z :=
  Z.lor (Z.shiftl o 1) (Z.land (Z.shiftr p i) 1).

(** The byte of plane [i] for the pixels [ps]. *)
Definition plane_byte (i : nat) (ps : list Z) : Z := foldl (push_bit i) 0 ps.

Lemma push_bit_add (i : nat) (o p : Z) :
  push_bit i o p = 2 * o + Z.b2z (Z.testbit p i).
Proof.
  unfold push_bit. rewrite Z.shiftl_mul_pow2 by lia. change (2 ^ 1) with 2.
  assert (Hb : Z.land (Z.shiftr p i) 1 = Z.b2z (Z.testbit p i)).
  { change 1 with (Z.ones 1). rewrite Z.land_ones by lia. change (2 ^ 1) with 2.
    rewrite <- Z.bit0_mod, Z.shiftr_spec by lia. by rewrite Z.add_0_l. }
  rewrite Hb. rewrite <- Z.add_nocarry_lor; [lia|].
  destruct (Z.testbit p i); cbn [Z.b2z]; [|apply Z.land_0_r].
  change 1 with (Z.ones 1). rewrite Z.land_ones by lia. change (2 ^ 1) with 2.
  apply Z.mod_mul. lia.
Qed.

Lemma plane_byte_bits (i : nat) (ps : list Z) :
  length ps = 8%nat →
  0 ≤ plane_byte i ps < 256
  ∧ ∀ t p, ps !! t = Some p →
      Z.testbit (plane_byte i ps) (7 - Z.of_nat t) = Z.testbit p i.
Proof.
  intros Hlen.
  destruct ps as [|p0 [|p1 [|p2 [|p3 [|p4 [|p5 [|p6 [|p7 [|]]]]]]]]]; try done.
  unfold plane_byte. cbn [foldl]. rewrite !push_bit_add.
  split.
  - destruct (Z.testbit p0 i), (Z.testbit p1 i), (Z.testbit p2 i),
      (Z.testbit p3 i), (Z.testbit p4 i), (Z.testbit p5 i), (Z.testbit p6 i),
      (Z.testbit p7 i); cbn [Z.b2z]; lia.
  - intros t p Ht.
    destruct t as [|[|[|[|[|[|[|[|t]]]]]]]]; [..|done].
    all: inversion Ht; subst p; clear Ht.
    all: destruct (Z.testbit p0 i), (Z.testbit p1 i), (Z.testbit p2 i),
      (Z.testbit p3 i), (Z.testbit p4 i), (Z.testbit p5 i), (Z.testbit p6 i),
      (Z.testbit p7 i); reflexivity.
Qed.

Lemma octet_pixel_spec (bitmap : list Z) (a0 a1 a2 a3 : Z) (l : nat) (p : Z) :
  bitmap !! l = Some p →
  octet_pixel bitmap [a0; a1; a2; a3] l
  = Ok [push_bit 0 a0 p; push_bit 1 a1 p; push_bit 2 a2 p; push_bit 3 a3 p].
Proof.
  intros Hp. unfold octet_pixel, range. cbn [seq foldM].
  repeat (first [ rewrite (getitem_nat bitmap l p Hp)
                | erewrite (getitem_nat (A:=Z)) by reflexivity
                | rewrite (setitem_nat (A:=Z)) by (cbn [length]; lia) ];
          cbn [mbind result_bind]).
  reflexivity.
Qed.

Lemma octet_loop (bitmap : list Z) (ps : list Z) :
  ∀ (l : nat) (a0 a1 a2 a3 : Z),
    (∀ t p, ps !! t = Some p → bitmap !! (l + t)%nat = Some p) →
    foldM (octet_pixel bitmap) [a0; a1; a2; a3] (seq l (length ps))
    = Ok [foldl (push_bit 0) a0 ps; foldl (push_bit 1) a1 ps;
          foldl (push_bit 2) a2 ps; foldl (push_bit 3) a3 ps].
Proof.
  induction ps as [|p ps IH]; intros l a0 a1 a2 a3 Hps; [done|].
  cbn [length seq foldM foldl].
  rewrite (octet_pixel_spec _ _ _ _ _ _ p).
  2:{ specialize (Hps 0%nat p eq_refl). by rewrite Nat.add_0_r in Hps. }
  cbn [mbind result_bind]. apply IH. intros t q Ht.
  specialize (Hps (S t) q Ht). by rewrite Nat.add_succ_r in Hps.
Qed.

Lemma ba_setitem_nat (l : list Z) (n : nat) (v : Z) :
  0 ≤ v < 256 → (n < length l)%nat → ba_setitem l n v = Ok (<[n := v]> l).
Proof.
  intros Hv Hn. unfold ba_setitem.
  destruct (Z.leb_spec 0 v); [|lia]. destruct (Z.ltb_spec v 256); [|lia].
  by apply setitem_nat.
Qed.

Lemma store_octets_spec (planebuf : list Z) (b0 b1 b2 b3 : Z) (ofs pw : nat) :
  (ofs + 3 * pw < length planebuf)%nat →
  0 ≤ b0 < 256 → 0 ≤ b1 < 256 → 0 ≤ b2 < 256 → 0 ≤ b3 < 256 →
  foldM (store_octets pw) (planebuf, [b0; b1; b2; b3], Z.of_nat ofs) (range 4)
  = Ok (<[(ofs + 3 * pw)%nat := b3]>
          (<[(ofs + 2 * pw)%nat := b2]>
             (<[(ofs + pw)%nat := b1]> (<[ofs := b0]> planebuf))),
        [0; 0; 0; 0], Z.of_nat (ofs + 4 * pw)).
Proof.
  intros Hlen H0 H1 H2 H3. unfold range. cbn [seq foldM store_octets].
  erewrite (getitem_nat (A:=Z)) by reflexivity. cbn [mbind result_bind store_octets].
  rewrite ba_setitem_nat by (done || lia). cbn [mbind result_bind store_octets].
  rewrite (setitem_nat (A:=Z)) by (rewrite ?length_insert; cbn [length]; lia). cbn [mbind result_bind store_octets].
  erewrite (getitem_nat (A:=Z)) by reflexivity. cbn [mbind result_bind store_octets].
  replace (Z.of_nat ofs + Z.of_nat pw) with (Z.of_nat (ofs + pw)) by lia.
  rewrite ba_setitem_nat by (done || rewrite ?length_insert; lia).
  cbn [mbind result_bind store_octets].
  rewrite (setitem_nat (A:=Z)) by (rewrite ?length_insert; cbn [length]; lia). cbn [mbind result_bind store_octets].
  erewrite (getitem_nat (A:=Z)) by reflexivity. cbn [mbind result_bind store_octets].
  replace (Z.of_nat (ofs + pw) + Z.of_nat pw) with (Z.of_nat (ofs + 2 * pw)) by lia.
  rewrite ba_setitem_nat by (done || rewrite ?length_insert; lia).
  cbn [mbind result_bind store_octets].
  rewrite (setitem_nat (A:=Z)) by (rewrite ?length_insert; cbn [length]; lia). cbn [mbind result_bind store_octets].
  erewrite (getitem_nat (A:=Z)) by reflexivity. cbn [mbind result_bind store_octets].
  replace (Z.of_nat (ofs + 2 * pw) + Z.of_nat pw) with (Z.of_nat (ofs + 3 * pw))
    by lia.
  rewrite ba_setitem_nat by (done || rewrite ?length_insert; lia).
  cbn [mbind result_bind store_octets].
  rewrite (setitem_nat (A:=Z)) by (rewrite ?length_insert; cbn [length]; lia). cbn [mbind result_bind store_octets].
  do 2 f_equal. lia.
Qed.

(** The pixels of the group of 8 that starts at pixel [l]. *)
Definition octet_pixels (bitmap : list Z) (l : nat) : list Z :=
  take 8 (drop l bitmap).

Lemma plane_group_spec (bitmap planebuf : list Z) (pw h y c : nat) :
  (c < pw)%nat → (y < h)%nat →
  length bitmap = (8 * pw * h)%nat → length planebuf = (4 * pw * h)%nat →
  let ps := octet_pixels bitmap (8 * (y * pw + c)) in
  let ofs := (4 * pw * y + c)%nat in
  plane_group bitmap (8 * pw) pw
    (planebuf, [0; 0; 0; 0], Z.of_nat ofs, Z.of_nat (8 * c)) (y * pw + c)
  = Ok (<[(ofs + 3 * pw)%nat := plane_byte 3 ps]>
          (<[(ofs + 2 * pw)%nat := plane_byte 2 ps]>
             (<[(ofs + pw)%nat := plane_byte 1 ps]>
                (<[ofs := plane_byte 0 ps]> planebuf))),
        [0; 0; 0; 0],
        Z.of_nat (if decide (c + 1 = pw)%nat then 4 * pw * (y + 1)
                  else 4 * pw * y + (c + 1))%nat,
        Z.of_nat (if decide (c + 1 = pw)%nat then 0 else 8 * (c + 1))%nat).
Proof.
  intros Hc Hy Hbm Hpb ps ofs. unfold plane_group.
  assert (Hin : (8 * (y * pw + c) + 8 ≤ length bitmap)%nat) by nia.
  assert (Hps : length ps = 8%nat).
  { unfold ps, octet_pixels. rewrite length_take, length_drop. lia. }
  cbn zeta.
  replace (seq (8 * (y * pw + c)) 8) with (seq (8 * (y * pw + c)) (length ps))
    by (by rewrite Hps).
  rewrite (octet_loop bitmap ps).
  2:{ intros t p Ht. unfold ps, octet_pixels in Ht.
      apply lookup_take_Some in Ht as [Ht _]. by rewrite lookup_drop in Ht. }
  cbn [mbind result_bind]. fold (plane_byte 0 ps) (plane_byte 1 ps)
    (plane_byte 2 ps) (plane_byte 3 ps).
  rewrite store_octets_spec;
    [|subst ofs; nia|apply plane_byte_bits, Hps..].
  cbn [mbind result_bind].
  case_decide as Hend.
  - destruct (Z.leb_spec (Z.of_nat (8 * pw)) (Z.of_nat (8 * c) + 8)); [|lia].
    do 3 f_equal. subst ofs. lia.
  - destruct (Z.leb_spec (Z.of_nat (8 * pw)) (Z.of_nat (8 * c) + 8)); [lia|].
    do 2 f_equal; [f_equal; subst ofs; lia|lia].
Qed.

(** The groups of 8 pixels before column [c] of row [y] have their four
    bytes in place. *)
Definition planes_done (bitmap : list Z) (pw y c : nat) (planebuf : list Z)
    : Prop :=
  ∀ y' c' i, (y' < y ∨ (y' = y ∧ c' < c))%nat → (c' < pw)%nat → (i < 4)%nat →
    planebuf !! (4 * pw * y' + i * pw + c')%nat
    = Some (plane_byte i (octet_pixels bitmap (8 * (y' * pw + c')))).

Lemma plane_loop (bitmap : list Z) (pw h : nat) :
  (0 < pw)%nat → length bitmap = (8 * pw * h)%nat →
  ∀ k, (k ≤ h * pw)%nat →
    ∃ y c planebuf,
      k = (y * pw + c)%nat ∧ (c < pw)%nat ∧
      foldM (plane_group bitmap (8 * pw) pw)
        (replicate (4 * pw * h) 0, [0; 0; 0; 0], 0, 0) (range k)
      = Ok (planebuf, [0; 0; 0; 0], Z.of_nat (4 * pw * y + c), Z.of_nat (8 * c))
      ∧ length planebuf = (4 * pw * h)%nat
      ∧ planes_done bitmap pw y c planebuf.
Proof.
  intros Hpw Hbm. induction k as [|k IH]; intros Hk.
  - exists 0%nat, 0%nat, (replicate (4 * pw * h) 0).
    split; [lia|]. split; [done|]. split.
    { cbn. do 3 f_equal; lia. }
    split; [apply length_replicate|]. intros y' c' i [?|[? ?]]; lia.
  - destruct IH as (y & c & pb & -> & Hc & Hrun & Hlen & Hdone); [lia|].
    assert (Hy : (y < h)%nat) by nia.
    unfold range in *. rewrite seq_S, foldM_app, Hrun.
    cbn [mbind result_bind foldM Nat.add].
    rewrite (plane_group_spec bitmap pb pw h y c Hc Hy Hbm Hlen).
    cbn [mbind result_bind].
    set (ps := octet_pixels bitmap (8 * (y * pw + c))).
    set (ofs := (4 * pw * y + c)%nat).
    set (pb' := <[(ofs + 3 * pw)%nat := plane_byte 3 ps]>
                  (<[(ofs + 2 * pw)%nat := plane_byte 2 ps]>
                     (<[(ofs + pw)%nat := plane_byte 1 ps]>
                        (<[ofs := plane_byte 0 ps]> pb)))).
    assert (Hlen' : length pb' = (4 * pw * h)%nat)
      by (unfold pb'; by rewrite !length_insert).
    assert (Hnew : ∀ i, (i < 4)%nat →
              pb' !! (ofs + i * pw)%nat = Some (plane_byte i ps)).
    { intros i Hi. unfold pb'.
      assert (ofs + 3 * pw < length pb)%nat by (subst ofs; nia).
      destruct i as [|[|[|[|i]]]]; [..|lia].
      - rewrite !list_lookup_insert_ne by lia.
        rewrite Nat.add_0_r. apply list_lookup_insert_eq. lia.
      - rewrite !list_lookup_insert_ne by lia.
        rewrite Nat.mul_1_l. apply list_lookup_insert_eq.
        rewrite ?length_insert. lia.
      - rewrite !list_lookup_insert_ne by lia.
        apply list_lookup_insert_eq. rewrite ?length_insert. lia.
      - apply list_lookup_insert_eq. rewrite ?length_insert. lia. }
    assert (Hold : ∀ y' c' i, (y' < y ∨ (y' = y ∧ c' < c))%nat →
              (c' < pw)%nat → (i < 4)%nat →
              pb' !! (4 * pw * y' + i * pw + c')%nat
              = pb !! (4 * pw * y' + i * pw + c')%nat).
    { intros y' c' i Hyc Hc' Hi. unfold pb'.
      assert (∀ j, (j < 4)%nat →
                (4 * pw * y' + i * pw + c' ≠ ofs + j * pw)%nat) as Hne.
      { intros j Hj. subst ofs. destruct Hyc as [Hlt|[-> Hlt]].
        - assert (pw * (y' + 1) ≤ pw * y)%nat by nia.
          assert (i * pw + c' < 4 * pw)%nat by nia. nia.
        - destruct (decide (i = j)) as [->|Hij]; [lia|].
          assert (i < j ∨ j < i)%nat as [Hlt'|Hlt'] by lia.
          + assert ((i + 1) * pw ≤ j * pw)%nat by nia. nia.
          + assert ((j + 1) * pw ≤ i * pw)%nat by nia. nia. }
      pose proof (Hne 0%nat ltac:(lia)). pose proof (Hne 1%nat ltac:(lia)).
      pose proof (Hne 2%nat ltac:(lia)). pose proof (Hne 3%nat ltac:(lia)).
      rewrite !list_lookup_insert_ne by lia. done. }
    case_decide as Hend.
    + exists (y + 1)%nat, 0%nat, pb'.
      split; [lia|]. split; [lia|]. split; [do 3 f_equal; lia|].
      split; [done|]. intros y' c' i Hyc Hc' Hi.
      destruct (decide (y' = y ∧ c' = c)) as [[-> ->]|Hn].
      * replace (4 * pw * y + i * pw + c)%nat with (ofs + i * pw)%nat
          by (subst ofs; lia).
        by apply Hnew.
      * rewrite Hold by lia. apply Hdone; lia.
    + exists y, (c + 1)%nat, pb'.
      split; [lia|]. split; [lia|]. split; [done|].
      split; [done|]. intros y' c' i Hyc Hc' Hi.
      destruct (decide (y' = y ∧ c' = c)) as [[-> ->]|Hn].
      * replace (4 * pw * y + i * pw + c)%nat with (ofs + i * pw)%nat
          by (subst ofs; lia).
        by apply Hnew.
      * rewrite Hold by lia. apply Hdone; lia.
Qed.

Lemma split_planes_spec (bitmap : list Z) (pw h : nat) :
  (0 < pw)%nat → length bitmap = (8 * pw * h)%nat →
  ∃ planebuf, split_planes bitmap (8 * pw) = Ok planebuf
    ∧ length planebuf = (4 * pw * h)%nat
    ∧ planes_done bitmap pw h 0 planebuf.
Proof.
  intros Hpw Hbm.
  destruct (plane_loop bitmap pw h Hpw Hbm (h * pw)%nat ltac:(lia))
    as (y & c & pb & Hk & Hc & Hrun & Hlen & Hdone).
  assert (y = h ∧ c = 0%nat) as [-> ->].
  { destruct (Nat.lt_trichotomy y h) as [Hlt|[->|Hgt]]; [|lia|].
    - assert ((y + 1) * pw ≤ h * pw)%nat by (apply Nat.mul_le_mono_r; lia). lia.
    - assert ((h + 1) * pw ≤ y * pw)%nat by (apply Nat.mul_le_mono_r; lia). lia. }
  exists pb. split; [|done]. unfold split_planes.
  rewrite !Nat.shiftr_div_pow2, Hbm.
  replace (8 * pw * h / 2 ^ 1)%nat with (4 * pw * h)%nat.
  2:{ change (2 ^ 1)%nat with 2%nat.
      replace (8 * pw * h)%nat with ((4 * pw * h) * 2)%nat by lia.
      by rewrite Nat.div_mul. }
  replace (8 * pw / 2 ^ 3)%nat with pw.
  2:{ change (2 ^ 3)%nat with 8%nat. rewrite Nat.mul_comm. by rewrite Nat.div_mul. }
  replace ((8 * pw * h + 7) / 8)%nat with (h * pw)%nat.
  2:{ apply (Nat.div_unique _ _ _ 7); lia. }
  by rewrite Hrun.
Qed.

(** The plane splitter. For a bitmap of [h] rows of [8 * pw] pixels, the
    plane buffer has [4 * pw] bytes per row, the four planes side by
    side: the byte of plane [i] at column [c] of row [y] holds bit [i] of
    the eight pixels [8c .. 8c+7] of that row, the leftmost pixel in the
    highest bit. Whatever the pixel values, only their four low bits are
    read and every byte stored is in 0..255. *)
Theorem split_planes_bits (bitmap : list Z) (pw h : nat) :
  (0 < pw)%nat → length bitmap = (8 * pw * h)%nat →
  ∃ planebuf, split_planes bitmap (8 * pw) = Ok planebuf
    ∧ length planebuf = (4 * pw * h)%nat
    ∧ ∀ y i c, (y < h)%nat → (i < 4)%nat → (c < pw)%nat →
        ∃ b, planebuf !! (4 * pw * y + i * pw + c)%nat = Some b
             ∧ 0 ≤ b < 256
             ∧ ∀ t, (t < 8)%nat →
                 Z.testbit b (7 - Z.of_nat t)
                 = Z.testbit (bitmap !!! (8 * pw * y + 8 * c + t)%nat) i.
Proof.
  intros Hpw Hbm.
  destruct (split_planes_spec bitmap pw h Hpw Hbm) as (pb & Hrun & Hlen & Hdone).
  exists pb. split; [done|]. split; [done|]. intros y i c Hy Hi Hc.
  set (ps := octet_pixels bitmap (8 * (y * pw + c))).
  assert (Hps : length ps = 8%nat).
  { unfold ps, octet_pixels. rewrite length_take, length_drop. nia. }
  destruct (plane_byte_bits i ps Hps) as [Hrange Hbits].
  exists (plane_byte i ps). split; [apply Hdone; lia|]. split; [done|].
  intros t Ht. apply Hbits. unfold ps, octet_pixels.
  rewrite lookup_take_lt, lookup_drop by lia.
  replace (8 * (y * pw + c) + t)%nat with (8 * pw * y + 8 * c + t)%nat by lia.
  apply list_lookup_lookup_total_lt. nia.
Qed.

Lemma split_planes_bits_witness :
  ∃ planebuf, split_planes [0; 0; 0; 0; 8; 4; 2; 1] (8 * 1) = Ok planebuf
    ∧ length planebuf = (4 * 1 * 1)%nat
    ∧ ∀ y i c, (y < 1)%nat → (i < 4)%nat → (c < 1)%nat →
        ∃ b, planebuf !! (4 * 1 * y + i * 1 + c)%nat = Some b
             ∧ 0 ≤ b < 256
             ∧ ∀ t, (t < 8)%nat →
                 Z.testbit b (7 - Z.of_nat t)
                 = Z.testbit ([0; 0; 0; 0; 8; 4; 2; 1] !!! (8 * 1 * y + 8 * c + t)%nat) i.
Proof.
  apply (split_planes_bits [0; 0; 0; 0; 8; 4; 2; 1] 1 1).
  - lia.
  - reflexivity.
Defined.

(** ** The file determines the image *)

(** A reader of the file, written from the format: a 16-bit little-endian
    word of the header. *)
Definition word_at (out : list Z) (ofs : nat) : nat :=
  Z.to_nat (out !!! ofs + 256 * out !!! S ofs).

(** The plane buffer of a file: the vertical step is read at 0x10, the
    width and the height at 0x54 and 0x56, the payload from 0x64 on; the
    rows of the plane buffer are those of the width rounded up to a
    multiple of 8. *)
Definition read_planes (out : list Z) : list Z :=
  let vrt := word_at out 0x10 in
  let w := word_at out 0x54 in
  let h := word_at out 0x56 in
  decompress (8 * ((w + 7) / 8)) h vrt (drop 0x64 out).

(** The colour index of the pixel at row [r] and column [col]: one bit
    from each of the four planes. *)
Definition read_pixel (out : list Z) (r col : nat) : Z :=
  let w := word_at out 0x54 in
  let pw := ((w + 7) / 8)%nat in
  let planes := read_planes out in
  let bit (i : nat) :=
    Z.b2z (Z.testbit (planes !!! (4 * pw * r + i * pw + col / 8)%nat)
             (7 - Z.of_nat (col mod 8))) in
  bit 0%nat + 2 * bit 1%nat + 4 * bit 2%nat + 8 * bit 3%nat.

Lemma low_nibble_bits (p : Z) :
  Z.b2z (Z.testbit p 0) + 2 * Z.b2z (Z.testbit p 1)
  + 4 * Z.b2z (Z.testbit p 2) + 8 * Z.b2z (Z.testbit p 3) = p mod 16.
Proof.
  rewrite !Z.testbit_spec' by lia.
  change (2 ^ 0) with 1. change (2 ^ 1) with 2. change (2 ^ 2) with 4.
  change (2 ^ 3) with 8. zdm.
Qed.

Lemma pad_width_round (w : nat) :
  (w ≤ 640)%nat → pad_width w = (8 * ((w + 7) / 8))%nat.
Proof.
  intros Hw.
  assert (Hall : forallb (λ w, pad_width w =? 8 * ((w + 7) / 8))%nat (seq 0 641)
                 = true) by (by vm_compute).
  apply Nat.eqb_eq. apply (proj1 (forallb_forall _ _) Hall).
  apply list_elem_of_In, elem_of_seq. lia.
Qed.

Lemma padded_width_round (img : image) :
  (img_width img ≤ 640)%nat →
  padded_width img = (8 * ((img_width img + 7) / 8))%nat.
Proof.
  intros Hw. unfold padded_width.
  destruct (Nat.eqb_spec (img_width img mod 8) 0) as [H0|H0]; cbn [negb].
  - ndm.
  - by apply pad_width_round.
Qed.

Lemma concat_rows_lookup {A : Type} (rows : list (list A)) (n r j : nat)
    (row : list A) :
  Forall (λ row, length row = n) rows →
  rows !! r = Some row → (j < n)%nat →
  concat rows !! (r * n + j)%nat = row !! j.
Proof.
  revert r. induction rows as [|row0 rows IH]; intros r Hlen Hr Hj; [done|].
  apply Forall_cons in Hlen as [Hl0 Hlen]. cbn [concat].
  destruct r as [|r].
  - inversion Hr; subst row0. cbn [Nat.mul Nat.add].
    by rewrite lookup_app_l by lia.
  - rewrite lookup_app_r by (rewrite Hl0; lia).
    replace (S r * n + j - length row0)%nat with (r * n + j)%nat by (rewrite Hl0; lia).
    by apply IH.
Qed.

Lemma concat_rows_length {A : Type} (rows : list (list A)) (n : nat) :
  Forall (λ row, length row = n) rows →
  length (concat rows) = (length rows * n)%nat.
Proof.
  induction 1 as [|row rows Hl _ IH]; [done|].
  cbn [concat length]. rewrite length_app, IH, Hl. lia.
Qed.

Lemma padded_bitmap_pixels (img : image) :
  let w := img_width img in
  let h := img_height img in
  (w ≤ 640)%nat →
  length (img_data img) = (w * h)%nat →
  length (padded_bitmap img) = (8 * ((w + 7) / 8) * h)%nat
  ∧ (∀ r col, (r < h)%nat → (col < w)%nat →
       padded_bitmap img !!! (8 * ((w + 7) / 8) * r + col)%nat
       = img_data img !!! (r * w + col)%nat)
  ∧ (∀ r col, (r < h)%nat → (w ≤ col < 8 * ((w + 7) / 8))%nat →
       padded_bitmap img !!! (8 * ((w + 7) / 8) * r + col)%nat = 16).
Proof.
  intros w h Hw Hlen. unfold padded_bitmap. fold w h.
  destruct (Nat.eqb_spec (w mod 8) 0) as [H0|H0]; cbn [negb].
  - assert (Hw8 : (8 * ((w + 7) / 8) = w)%nat) by ndm.
    rewrite Hw8. split; [done|]. split; [|lia].
    intros r col _ _. f_equal. lia.
  - unfold pad_image. rewrite (pad_width_round w Hw).
    set (w' := (8 * ((w + 7) / 8))%nat).
    assert (Hww : (w ≤ w')%nat) by (subst w'; ndm).
    set (rows := map (λ y, take w (drop (y * w) (img_data img))
                           ++ replicate (w' - w) 16) (range h)).
    assert (Hrows : Forall (λ row, length row = w') rows).
    { apply Forall_forall. intros row Hrow. unfold rows in Hrow.
      apply list_elem_of_fmap in Hrow as (y & -> & Hy).
      apply elem_of_seq in Hy.
      rewrite length_app, length_take, length_drop, length_replicate. nia. }
    split.
    + rewrite (concat_rows_length rows w' Hrows). unfold rows, range.
      rewrite length_map, length_seq. lia.
    + assert (Hrow : ∀ r, (r < h)%nat →
                rows !! r = Some (take w (drop (r * w) (img_data img))
                                  ++ replicate (w' - w) 16)).
      { intros r Hr. unfold rows, range. change map with (@fmap list _).
        rewrite list_lookup_fmap, lookup_seq_lt by done. done. }
      split.
      * intros r col Hr Hcol. rewrite Nat.mul_comm.
        apply list_lookup_total_correct.
        rewrite (concat_rows_lookup rows w' r col _ Hrows (Hrow r Hr)) by lia.
        rewrite lookup_app_l by (rewrite length_take, length_drop; nia).
        rewrite lookup_take_lt, lookup_drop by done.
        apply list_lookup_lookup_total_lt. nia.
      * intros r col Hr Hcol. rewrite Nat.mul_comm.
        apply list_lookup_total_correct.
        rewrite (concat_rows_lookup rows w' r col _ Hrows (Hrow r Hr)) by lia.
        assert (Htl : length (take w (drop (r * w) (img_data img))) = w)
          by (rewrite length_take, length_drop; nia).
        rewrite lookup_app_r by lia.
        apply lookup_replicate_2. lia.
Qed.

Lemma make_gpc_sizes (img : image) (x y : Z) (out : list Z) :
  make_gpc img x y = Ok out →
  (img_width img ≤ 640)%nat ∧ (img_height img ≤ 400)%nat.
Proof.
  unfold make_gpc. intros Hrun.
  destruct (negb (img_mode_P img)); [done|].
  destruct (Nat.ltb_spec 640 (img_width img)); [done|].
  destruct (Nat.ltb_spec 400 (img_height img)); [done|]. lia.
Qed.

Lemma word_bytes (v : nat) :
  Z.of_nat v < 65536 → Z.to_nat (Z.land v 0xFF + 256 * Z.shiftr v 8) = v.
Proof.
  intros Hv. change 0xFF with (Z.ones 8).
  rewrite Z.land_ones, Z.shiftr_div_pow2 by lia. change (2 ^ 8) with 256. zdm.
Qed.

(** The pixel a reader finds in a written file is the low nibble of the
    pixel of the padded bitmap. *)
Lemma read_pixel_padded (img : image) (x y : Z) (out : list Z) (r col : nat) :
  make_gpc img x y = Ok out →
  length (img_data img) = (img_width img * img_height img)%nat →
  (r < img_height img)%nat → (col < 8 * ((img_width img + 7) / 8))%nat →
  read_pixel out r col
  = (padded_bitmap img !!! (8 * ((img_width img + 7) / 8) * r + col)%nat) mod 16.
Proof.
  intros Hrun Hlen Hr Hcol.
  destruct (make_gpc_sizes _ _ _ _ Hrun) as [Hw Hh].
  destruct (make_gpc_parts _ _ _ _ Hrun)
    as (planebuf & cd & vrt & Hsplit & Hcomp & Hvrt & Hout & _ & Hdrop).
  set (w := img_width img) in *. set (h := img_height img) in *.
  set (pw := ((w + 7) / 8)%nat) in *.
  assert (Hpw : (0 < pw)%nat) by lia.
  rewrite (padded_width_round img Hw) in Hsplit, Hcomp. fold w pw in Hsplit, Hcomp.
  destruct (padded_bitmap_pixels img Hw Hlen) as (Hblen & _ & _).
  fold w h pw in Hblen.
  destruct (split_planes_spec (padded_bitmap img) pw h Hpw Hblen)
    as (pb & Hpb & Hpblen & Hdone).
  rewrite Hsplit in Hpb. inversion Hpb; subst pb. clear Hpb.
  assert (Hvrt_w : word_at out 0x10 = vrt).
  { unfold word_at. rewrite Hout.
    change ((signature ++ [0] ++ [Z.of_nat vrt; 0; 0; 0] ++ _) !!! 16%nat)
      with (Z.of_nat vrt).
    change ((signature ++ [0] ++ [Z.of_nat vrt; 0; 0; 0] ++ _) !!! 17%nat)
      with 0. lia. }
  assert (Hdesc : ∀ k j, k = (0x54 + j)%nat →
            out !!! k = (descriptor w h (length cd) x y ++ cd) !!! j).
  { intros k j ->. by rewrite <- Hdrop, lookup_total_drop. }
  assert (Hw_w : word_at out 0x54 = w).
  { unfold word_at. rewrite (Hdesc 0x54 0)%nat, (Hdesc 0x55 1)%nat by done.
    change ((descriptor w h (length cd) x y ++ cd) !!! 0%nat) with (Z.land w 0xFF).
    change ((descriptor w h (length cd) x y ++ cd) !!! 1%nat) with (Z.shiftr w 8).
    apply word_bytes. lia. }
  assert (Hh_w : word_at out 0x56 = h).
  { unfold word_at. rewrite (Hdesc 0x56 2)%nat, (Hdesc 0x57 3)%nat by done.
    change ((descriptor w h (length cd) x y ++ cd) !!! 2%nat) with (Z.land h 0xFF).
    change ((descriptor w h (length cd) x y ++ cd) !!! 3%nat) with (Z.shiftr h 8).
    apply word_bytes. lia. }
  assert (Hpay : drop 0x64 out = cd).
  { change 0x64%nat with (0x54 + 16)%nat. by rewrite <- drop_drop, Hdrop. }
  assert (Hplanes : read_planes out = planebuf).
  { unfold read_planes. rewrite Hvrt_w, Hw_w, Hh_w, Hpay. fold pw.
    apply Compress_readable; [|done].
    rewrite Hpblen. unfold row_stride. rewrite Nat.shiftr_div_pow2.
    change (2 ^ 1)%nat with 2%nat.
    replace (8 * pw)%nat with ((4 * pw) * 2)%nat by lia.
    rewrite Nat.div_mul by lia. lia. }
  unfold read_pixel. rewrite Hplanes, Hw_w. fold pw.
  set (c := (col / 8)%nat). set (t := (col mod 8)%nat).
  assert (Hc : (c < pw)%nat) by (subst c; ndm).
  assert (Ht : (t < 8)%nat) by (subst t; ndm).
  assert (Hcol8 : (8 * c + t = col)%nat) by (subst c t; ndm).
  set (ps := octet_pixels (padded_bitmap img) (8 * (r * pw + c))).
  assert (Hps : length ps = 8%nat).
  { unfold ps, octet_pixels. rewrite length_take, length_drop. nia. }
  set (p := padded_bitmap img !!! (8 * pw * r + col)%nat).
  assert (Hp : ps !! t = Some p).
  { unfold ps, octet_pixels. rewrite lookup_take_lt, lookup_drop by lia.
    replace (8 * (r * pw + c) + t)%nat with (8 * pw * r + col)%nat by lia.
    apply list_lookup_lookup_total_lt. nia. }
  assert (Hbit : ∀ i, (i < 4)%nat →
            Z.testbit (planebuf !!! (4 * pw * r + i * pw + c)%nat)
              (7 - Z.of_nat t)
            = Z.testbit p (Z.of_nat i)).
  { intros i Hi.
    pose proof (Hdone r c i (or_introl Hr) Hc Hi) as Hl.
    rewrite (list_lookup_total_correct _ _ _ Hl).
    by apply (plane_byte_bits i ps Hps). }
  rewrite !Hbit by lia. apply low_nibble_bits.
Qed.

(** The file determines the image. For an image whose pixel data has
    [width * height] entries, a file the script has written gives back,
    to a reader of the format, the four low bits of every pixel: the
    header says how to undo the compression of the payload, and the bit
    planes hold the colour index of each pixel. *)
Theorem gpc_file_lossless (img : image) (x y : Z) (out : list Z) :
  make_gpc img x y = Ok out →
  length (img_data img) = (img_width img * img_height img)%nat →
  ∀ r col, (r < img_height img)%nat → (col < img_width img)%nat →
    read_pixel out r col
    = (img_data img !!! (r * img_width img + col)%nat) mod 16.
Proof.
  intros Hrun Hlen r col Hr Hcol.
  destruct (make_gpc_sizes _ _ _ _ Hrun) as [Hw _].
  destruct (padded_bitmap_pixels img Hw Hlen) as (_ & Hpix & _).
  rewrite (read_pixel_padded img x y out r col Hrun Hlen Hr) by ndm.
  by rewrite Hpix.
Qed.

Lemma gpc_file_lossless_witness :
  let img := Image true 3 2 [255; 0; 0; 0; 255; 0; 16; 32; 48]
               [1; 2; 3; 4; 5; 17] in
  let out := [80; 67; 57; 56; 41; 71; 80; 67; 70; 73; 76; 69; 32; 32; 32; 0;
              2; 0; 0; 0; 48; 0; 0; 0; 84; 0; 0; 0;
              0; 0; 0; 0; 0; 0; 0; 0; 0; 0; 0; 0; 0; 0; 0; 0; 0; 0; 0; 0;
              16; 0; 2; 0;
              240; 0; 0; 15; 19; 2; 0; 0; 0; 0; 0; 0; 0; 0; 0; 0;
              0; 0; 0; 0; 0; 0; 0; 0; 0; 0; 0; 0; 0; 0; 0; 0;
              3; 0; 2; 0; 8; 0; 0; 0; 4; 0; 3; 0; 5; 0; 0; 0;
              192; 99; 160; 96; 192; 96; 128; 192] in
  read_pixel out 1 2 = (img_data img !!! (1 * 3 + 2)%nat) mod 16.
Proof.
  intros img out. apply (gpc_file_lossless img 3 5 out).
  - by vm_compute.
  - reflexivity.
  - simpl. lia.
  - simpl. lia.
Defined.

(** The padding reads as colour 0. The script pads the width to a
    multiple of 8 with pixels of index 16, of which the plane splitter
    keeps the four low bits: the columns to the right of the image come
    back as 0. *)
Theorem gpc_file_padding (img : image) (x y : Z) (out : list Z) :
  make_gpc img x y = Ok out →
  length (img_data img) = (img_width img * img_height img)%nat →
  ∀ r col, (r < img_height img)%nat →
    (img_width img ≤ col < 8 * ((img_width img + 7) / 8))%nat →
    read_pixel out r col = 0.
Proof.
  intros Hrun Hlen r col Hr Hcol.
  destruct (make_gpc_sizes _ _ _ _ Hrun) as [Hw _].
  destruct (padded_bitmap_pixels img Hw Hlen) as (_ & _ & Hpad).
  rewrite (read_pixel_padded img x y out r col Hrun Hlen Hr) by lia.
  by rewrite Hpad.
Qed.

Lemma gpc_file_padding_witness :
  let img := Image true 3 2 [255; 0; 0; 0; 255; 0; 16; 32; 48]
               [1; 2; 3; 4; 5; 17] in
  let out := [80; 67; 57; 56; 41; 71; 80; 67; 70; 73; 76; 69; 32; 32; 32; 0;
              2; 0; 0; 0; 48; 0; 0; 0; 84; 0; 0; 0;
              0; 0; 0; 0; 0; 0; 0; 0; 0; 0; 0; 0; 0; 0; 0; 0; 0; 0; 0; 0;
              16; 0; 2; 0;
              240; 0; 0; 15; 19; 2; 0; 0; 0; 0; 0; 0; 0; 0; 0; 0;
              0; 0; 0; 0; 0; 0; 0; 0; 0; 0; 0; 0; 0; 0; 0; 0;
              3; 0; 2; 0; 8; 0; 0; 0; 4; 0; 3; 0; 5; 0; 0; 0;
              192; 99; 160; 96; 192; 96; 128; 192] in
  read_pixel out 1 5 = 0.
Proof.
  intros img out. apply (gpc_file_padding img 3 5 out).
  - by vm_compute.
  - reflexivity.
  - simpl. lia.
  - simpl. lia.
Defined.

(** ** What the payload is made of *)

(** The work buffer of the trial of vertical step [vrt] after
    [VerticalIX], on a zeroed buffer. *)
Definition trial_filtered (srcbuf : list Z) (w h vrt : nat) : list Z :=
  let stride := row_stride w in
  xor_prev (stride + 1)
    (place_rows srcbuf stride (replicate ((stride + 1) * h) 0)
       (interlace_perm h vrt)).

Lemma trial_run_spec (srcbuf : list Z) (w h vrt : nat) :
  length srcbuf = (row_stride w * h)%nat →
  vrt ∈ [2; 1; 4]%nat →
  trial_run srcbuf w h vrt
  = match hix_rows (row_stride w) 1 None h (trial_filtered srcbuf w h vrt) with
    | None => Raise UnboundLocalError
    | Some out => Encode out (replicate ((row_stride w + 1) * h * 8 / 7) 0)
    end.
Proof.
  intros Hsrc Hv. unfold trial_run, trial_filtered. fold (row_stride w).
  set (stride := row_stride w) in *.
  assert (Hv' : (0 < vrt)%nat ∧ vrt ∈ [1; 2; 4]%nat).
  { rewrite !elem_of_cons in Hv |- *.
    destruct Hv as [->|[->|[->|Hnil]]]; [split; [lia|tauto]..|].
    by apply elem_of_nil in Hnil. }
  destruct Hv' as [Hpos Hmem].
  pose proof (interlace_perm_Permutation h vrt Hpos) as Hperm.
  set (rows := interlace_perm h vrt) in *.
  assert (Hrl : length rows = h) by (by rewrite Hperm, length_seq).
  assert (Hlt : Forall (λ r, r < h)%nat rows).
  { apply Forall_forall. intros r Hr. rewrite Hperm in Hr.
    apply elem_of_seq in Hr. lia. }
  pose proof (rows_in_source _ _ _ _ Hsrc Hlt) as Hin.
  destruct (MakeInterlaceTable_lookup_ok stride) as (hl & Hhl & Hok).
  rewrite Hhl. cbn [mbind result_bind].
  destruct (MakeInterlaceTable_lookup h [1; 2; 4]%nat) as (vl & Hvl & Hlk).
  rewrite Hvl. cbn [mbind result_bind].
  destruct (make_rowbuf_spec stride) as (rb0 & Hrb0 & _).
  rewrite Hrb0. cbn [mbind result_bind].
  pose proof (make_rowbuf_ok _ _ Hrb0) as Hrb0ok.
  unfold getkey. rewrite Hlk, decide_True by (split; [lia|done]).
  cbn [mbind result_bind]. fold rows.
  set (wv0 := replicate ((stride + 1) * h) 0) in *.
  assert (Hwv0 : length wv0 = ((stride + 1) * h)%nat) by apply length_replicate.
  rewrite (VerticalIX_spec srcbuf wv0 w h rows) by done.
  change (Nat.shiftr w 1) with stride. cbn [mbind result_bind].
  set (V := xor_prev (stride + 1) (place_rows srcbuf stride wv0 rows)) in *.
  assert (HV : length V = ((stride + 1) * h)%nat).
  { unfold V. rewrite xor_prev_length, place_rows_length; [done|done|lia]. }
  destruct (HorizontalIX_spec V rb0 w h hl Hok Hrb0ok)
    as (rb' & _ & Hh); [fold stride; lia|].
  fold stride in Hh. rewrite Hh. rewrite Hwv0.
  by destruct (hix_rows stride 1 None h V).
Qed.

Lemma Compress_returned_trial (srcbuf : list Z) (w h : nat) (data : list Z)
    (vrt : nat) :
  length srcbuf = (row_stride w * h)%nat →
  Compress srcbuf w h = Ok (data, vrt) →
  vrt ∈ [2; 1; 4]%nat
  ∧ ∃ wo fv, trial_run srcbuf w h vrt = Ok (wo, fv) ∧ 0 < wo
             ∧ data = slice_from fv wo.
Proof.
  intros Hsrc Hrun. rewrite (Compress_trials _ _ _ Hsrc) in Hrun.
  apply bind_Ok in Hrun as ([wo2 fv2] & H2 & Hrun).
  apply bind_Ok in Hrun as ([wo1 fv1] & H1 & Hrun).
  apply bind_Ok in Hrun as ([wo4 fv4] & H4 & Hrun).
  cbn [fst snd] in Hrun.
  repeat match type of Hrun with
         | context [Z.ltb ?a ?b] =>
             first [is_var a | constr_eq a 0]; is_var b;
             destruct (Z.ltb_spec a b); cbn [fst snd] in Hrun
         end;
    cbn [bound] in Hrun; inversion Hrun; subst data vrt;
    (split; [by repeat constructor|]; eexists _, _;
     split; [eassumption|]; split; [lia|done]).
Qed.

Lemma Compress_payload (srcbuf : list Z) (w h : nat) (data : list Z)
    (vrt : nat) :
  length srcbuf = (row_stride w * h)%nat →
  Compress srcbuf w h = Ok (data, vrt) →
  vrt ∈ [2; 1; 4]%nat
  ∧ ∃ out, hix_rows (row_stride w) 1 None h (trial_filtered srcbuf w h vrt)
           = Some out
           ∧ data = encoded out.
Proof.
  intros Hsrc Hrun.
  destruct (Compress_returned_trial _ _ _ _ _ Hsrc Hrun)
    as (Hv & wo & fv & Htrial & Hwo & ->).
  split; [done|]. rewrite (trial_run_spec _ _ _ _ Hsrc Hv) in Htrial.
  destruct (hix_rows _ _ _ _ _) as [out|]; [|done].
  exists out. split; [done|]. apply (Encode_stream _ _ _ _ Htrial). lia.
Qed.

(** *** Every byte of the payload is a byte *)

Definition bytes (l : list Z) : Prop := Forall (λ v, 0 ≤ v < 256) l.

Lemma lxor_byte (a b : Z) :
  0 ≤ a < 256 → 0 ≤ b < 256 → 0 ≤ Z.lxor a b < 256.
Proof.
  intros Ha Hb.
  assert (H0 : 0 ≤ Z.lxor a b) by (apply Z.lxor_nonneg; lia).
  split; [done|].
  destruct (decide (Z.lxor a b = 0)) as [->|Hnz]; [lia|].
  change 256 with (2 ^ 8). apply Z.log2_lt_pow2; [lia|].
  pose proof (Z.log2_lxor a b ltac:(lia) ltac:(lia)) as Hl.
  assert (Hla : Z.log2 a < 8).
  { destruct (decide (a = 0)) as [->|?]; [done|].
    apply Z.log2_lt_pow2; [lia|]. change (2 ^ 8) with 256. lia. }
  assert (Hlb : Z.log2 b < 8).
  { destruct (decide (b = 0)) as [->|?]; [done|].
    apply Z.log2_lt_pow2; [lia|]. change (2 ^ 8) with 256. lia. }
  lia.
Qed.

Lemma lookup_total_byte (l : list Z) (i : nat) :
  bytes l → 0 ≤ l !!! i < 256.
Proof.
  intros Hl. rewrite list_lookup_total_alt.
  destruct (l !! i) as [v|] eqn:Hv; [|by compute].
  by apply (proj1 (Forall_lookup _ _) Hl i v).
Qed.

Lemma place_rows_bytes (srcview : list Z) (stride : nat) (rows : list nat) :
  ∀ work, bytes srcview → bytes work →
    bytes (place_rows srcview stride work rows).
Proof.
  unfold bytes. induction rows as [|r rows IH]; intros work Hs Hw; [done|].
  cbn [place_rows]. repeat apply Forall_app_2.
  - by apply Forall_take.
  - by apply Forall_take, Forall_drop.
  - apply IH; [done|]. by apply Forall_drop.
Qed.

Lemma xor_prev_bytes (n : nat) (l : list Z) : bytes l → bytes (xor_prev n l).
Proof.
  intros Hl. apply Forall_lookup. intros p v Hv.
  assert (Hp : (p < length l)%nat).
  { apply lookup_lt_Some in Hv. by rewrite xor_prev_length in Hv. }
  destruct (lookup_lt_is_Some_2 l p Hp) as [a Ha].
  rewrite (xor_prev_lookup n l p a Ha) in Hv. inversion Hv; subst v.
  apply lxor_byte; [by apply (proj1 (Forall_lookup _ _) Hl p a)|].
  case_decide; [lia|].
  destruct (l !! (p - n)%nat) as [b|] eqn:Hb; [|done].
  by apply (proj1 (Forall_lookup _ _) Hl (p - n)%nat b).
Qed.

Lemma hfilter_bytes (order : list nat) (payload : list Z) :
  bytes payload → bytes (hfilter order payload).
Proof.
  intros Hp. unfold hfilter, delta_fold.
  assert (H : ∀ st : list Z * Z, bytes st.1 → 0 ≤ st.2 < 256 →
            bytes (foldl (delta_step payload) st order).1).
  { induction order as [|i order IH]; intros st H1 H2; [done|].
    cbn [foldl]. apply IH; unfold delta_step; cbn [fst snd].
    - apply Forall_insert; [done|].
      apply lxor_byte; [done|by apply lookup_total_byte].
    - by apply lookup_total_byte. }
  apply H; cbn [fst snd]; [|lia].
  apply Forall_replicate. lia.
Qed.

Lemma hix_rows_bytes (stride n : nat) :
  ∀ (rowstart : nat) (besthrz : option nat) (work out : list Z),
    (∀ b0, besthrz = Some b0 → (b0 < 0x51)%nat) →
    bytes work →
    hix_rows stride rowstart besthrz n work = Some out → bytes out.
Proof.
  induction n as [|n IH]; intros rowstart besthrz work out Hb0 Hw Hrun.
  - apply Some_inj in Hrun. by subst.
  - rewrite hix_rows_S in Hrun.
    destruct (best_step _ besthrz) as [b|] eqn:Hbest; [|done].
    destruct (hix_rows stride _ (Some b) n _) as [rest|] eqn:Hrest; [|done].
    apply Some_inj in Hrun. subst out.
    pose proof (best_step_range _ _ _ Hb0 Hbest) as Hb.
    apply IH in Hrest; [|by intros ? [= <-]|by apply Forall_drop].
    apply Forall_app_2; [|done]. unfold candidate.
    apply Forall_cons. split; [lia|].
    assert (bytes (take stride (drop 1 work)))
      by (by apply Forall_take, Forall_drop).
    case_decide; [done|by apply hfilter_bytes].
Qed.

Lemma emit_bytes (W : list Z) (r : nat) :
  ∀ (fA fB : Z) (s : list Z),
    bytes W → 0 ≤ fA < 256 → 0 ≤ fB < 256 → bytes s →
    bytes (emit W r fA fB s).2.
Proof.
  induction r as [|r IH]; intros fA fB s HW HfA HfB Hs; [done|].
  cbn [emit].
  set (b := default 0 (W !! r)).
  assert (Hb : 0 ≤ b < 256).
  { unfold b. destruct (W !! r) as [v|] eqn:Hv; [|done].
    by apply (proj1 (Forall_lookup _ _) HW r v). }
  set (lit := negb (b =? 0)).
  destruct (shift_in_bits lit fB HfB) as [_ HfB1].
  set (fB1 := shift_in lit fB) in *.
  assert (Hs1 : bytes (if lit then b :: s else s))
    by (destruct lit; [by apply Forall_cons|done]).
  unfold emit_flags.
  destruct (r mod 8 =? 0)%nat; [|by apply IH].
  set (present := negb (fB1 =? 0)).
  destruct (shift_in_bits present fA HfA) as [_ HfA1].
  assert (Hs2 : bytes (if present then fB1 :: (if lit then b :: s else s)
                       else (if lit then b :: s else s)))
    by (destruct present; [by apply Forall_cons|done]).
  destruct (r mod 64 =? 0)%nat; apply IH; try done.
  by apply Forall_cons.
Qed.

(** The payload is a byte string. For a plane buffer of [(w >> 1) * h]
    bytes, every value [Compress] returns in its payload is in 0..255:
    the XOR filters, the row markers and the flag bytes never leave the
    range a [bytearray] accepts. *)
Theorem Compress_bytes (srcbuf : list Z) (w h : nat) (data : list Z)
    (vrt : nat) :
  length srcbuf = (row_stride w * h)%nat →
  bytes srcbuf →
  Compress srcbuf w h = Ok (data, vrt) →
  bytes data.
Proof.
  intros Hsrc Hb Hrun.
  destruct (Compress_payload _ _ _ _ _ Hsrc Hrun) as (_ & out & Hout & ->).
  apply emit_bytes; [|lia|lia|by constructor].
  apply (hix_rows_bytes _ _ _ _ _ _) in Hout; [done|by intros ?|].
  unfold trial_filtered. apply xor_prev_bytes, place_rows_bytes; [done|].
  apply Forall_replicate. lia.
Qed.

Lemma Compress_bytes_witness :
  bytes [192; 126; 1; 2; 3; 4; 1; 8; 50; 1; 12; 8].
Proof.
  apply (Compress_bytes [1; 2; 3; 4; 5; 6; 7; 8; 9; 10; 11; 12] 8 3
           [192; 126; 1; 2; 3; 4; 1; 8; 50; 1; 12; 8] 2).
  - reflexivity.
  - repeat constructor; lia.
  - by vm_compute.
Defined.

Lemma trial_run_identity (srcbuf : list Z) (w h v v' : nat) :
  length srcbuf = (row_stride w * h)%nat →
  v ∈ [2; 1; 4]%nat → v' ∈ [2; 1; 4]%nat →
  interlace_perm h v = interlace_perm h v' →
  trial_run srcbuf w h v = trial_run srcbuf w h v'.
Proof.
  intros Hsrc Hv Hv' Hperm.
  rewrite !trial_run_spec by done. unfold trial_filtered. by rewrite Hperm.
Qed.

(** On a low image the vertical steps coincide. The rows of an image of
    at most 4 rows are in the same order for the steps 1 and 4, and those
    of an image of at most 2 rows for all three steps; as a later trial
    replaces an earlier one only when its offset is greater, [Compress]
    never returns the step 4 for a height up to 4, and returns the step 2
    for a height up to 2. *)
Theorem Compress_low_height (srcbuf : list Z) (w h : nat) (data : list Z)
    (vrt : nat) :
  length srcbuf = (row_stride w * h)%nat →
  Compress srcbuf w h = Ok (data, vrt) →
  ((h ≤ 4)%nat → vrt ≠ 4%nat) ∧ ((h ≤ 2)%nat → vrt = 2%nat).
Proof.
  intros Hsrc Hrun. rewrite (Compress_trials _ _ _ Hsrc) in Hrun.
  apply bind_Ok in Hrun as ([wo2 fv2] & H2 & Hrun).
  apply bind_Ok in Hrun as ([wo1 fv1] & H1 & Hrun).
  apply bind_Ok in Hrun as ([wo4 fv4] & H4 & Hrun).
  assert (H41 : (h ≤ 4)%nat → wo4 = wo1).
  { intros Hh.
    rewrite (trial_run_identity srcbuf w h 4 1 Hsrc) in H4;
      [|by repeat constructor..|].
    - rewrite H1 in H4. by inversion H4.
    - by rewrite interlace_perm_1, interlace_perm_ge by lia. }
  assert (H12 : (h ≤ 2)%nat → wo1 = wo2).
  { intros Hh.
    rewrite (trial_run_identity srcbuf w h 1 2 Hsrc) in H1;
      [|by repeat constructor..|].
    - rewrite H2 in H1. by inversion H1.
    - by rewrite interlace_perm_1, interlace_perm_ge by lia. }
  cbn [fst snd] in Hrun.
  repeat match type of Hrun with
         | context [Z.ltb ?a ?b] =>
             first [is_var a | constr_eq a 0]; is_var b;
             destruct (Z.ltb_spec a b); cbn [fst snd] in Hrun
         end;
    cbn [bound] in Hrun; inversion Hrun; subst data vrt;
    (split; intros Hh; [try specialize (H41 Hh)|
                        specialize (H41 ltac:(lia)); specialize (H12 Hh)];
     first [done | lia]).
Qed.

Lemma Compress_low_height_witness :
  ((2 ≤ 4)%nat → 2%nat ≠ 4%nat) ∧ ((2 ≤ 2)%nat → 2%nat = 2%nat).
Proof.
  apply (Compress_low_height [192; 0; 0; 0; 192; 0; 0; 0] 8 2 [128; 64; 192] 2).
  - reflexivity.
  - by vm_compute.
Defined.
